(** * dnsge/hashmap-cpp: an open-addressing hash table with metadata bytes

    A shallow embedding of [HashMap.hpp] (the variant with tombstone
    counting, [clear] and [reserve]) and of [FixedUninitVec.hpp].

    - [size_t] is [N] with the wrap-around modulo [2^64] written out.
    - [float] is IEEE binary32, through the Standard Library's
      [SpecFloat] operations at precision 24 and maximal exponent 128.
    - [std::vector<metadata_t>] is a [list N]; [FixedUninitVec<Slot>] is a
      record of its [size_] field and of the cells it points to, a cell
      being [None] while no [Slot] object lives in it.
    - A member function that mutates the table takes the table and returns
      the new one; every function that can leave the normal path returns an
      [outcome].
    - The two [while (true)] probe loops take a bound on the number of
      iterations and answer [OutOfFuel] when it is exhausted. *)

From Stdlib Require Import NArith ZArith List Bool Lia String.
From Stdlib Require Import Floats.SpecFloat.
From stdpp Require Import base list.
Import ListNotations.

Local Open Scope N_scope.

(** ** Outcomes of a call *)

Inductive outcome (A : Type) : Type :=
| Ret (a : A)          (* the call returns [a] *)
| KeyNotFound          (* throw std::out_of_range("key not found") *)
| Undefined            (* undefined behaviour: division by zero, index out
                          of range, access to a cell that holds no object *)
| OutOfFuel.           (* a probe loop did not stop within the bound *)

Arguments Ret {A} a.
Arguments KeyNotFound {A}.
Arguments Undefined {A}.
Arguments OutOfFuel {A}.

Definition obind {A B : Type} (c : outcome A) (f : A -> outcome B) : outcome B :=
  match c with
  | Ret a => f a
  | KeyNotFound => KeyNotFound
  | Undefined => Undefined
  | OutOfFuel => OutOfFuel
  end.

Notation "'let*' x := c 'in' k" := (obind c (fun x => k))
  (at level 10, x name, c at level 100, k at level 200).

(** ** Machine integers and floats *)

Definition size_t_modulus : N := 2 ^ 64.

Definition wrap (n : N) : N := n mod size_t_modulus.

(** [a % b] on [size_t]; undefined when [b] is zero. *)
Definition umod (a b : N) : outcome N :=
  if b =? 0 then Undefined else Ret (a mod b).

Definition float := spec_float.

Definition prec : Z := 24.
Definition emax : Z := 128.

(** The conversion [(float)n] of a [size_t]: round to nearest, ties to even. *)
Definition float_of_size (n : N) : float :=
  binary_normalize prec emax (Z.of_N n) 0 false.

Definition fdiv (x y : float) : float := SFdiv prec emax x y.
Definition fmul (x y : float) : float := SFmul prec emax x y.

(** [x >= y] and [x < y] on floats (false when an operand is NaN). *)
Definition fge (x y : float) : bool := SFleb y x.
Definition flt (x y : float) : bool := SFltb x y.

(** A float that is positive, finite or not, of magnitude
    [digits + exponent] at least [lo]. *)
Definition pos_float (lo : Z) (x : float) : Prop :=
  match x with
  | S754_finite false m e => (lo <= Zdigits2 (Zpos m) + e)%Z
  | S754_infinity false => True
  | _ => False
  end.

(** A float in canonical form with a full significand of 24 bits. *)
Definition normal24 (m : positive) (e : Z) : Prop :=
  (Zdigits2 (Zpos m) = 24 /\ -149 <= e <= 104)%Z.

(** ** namespace detail *)

Module detail.

Definition metadata_t := N.

Definition Empty : metadata_t := 128.     (* 0b10000000 *)
Definition Deleted : metadata_t := 255.   (* 0b11111111 *)

Definition IsFree (metadata : metadata_t) : bool := 128 <=? metadata.

Definition H1 (hash : N) : N := N.shiftr hash 7.

Definition H2 (hash : N) : metadata_t := N.land hash 127.

End detail.

(** ** FixedUninitVec<T> *)

Record FixedUninitVec (T : Type) : Type := mkFixedUninitVec {
  fsize_ : N;                 (* size_ *)
  data_ : list (option T)     (* the cells behind data_; [] when null *)
}.

Arguments mkFixedUninitVec {T} _ _.
Arguments fsize_ {T} _.
Arguments data_ {T} _.

(** [FixedUninitVec(size)]: [size] cells, none of them constructed. *)
Definition FixedUninitVec_new {T : Type} (size : N) : FixedUninitVec T :=
  mkFixedUninitVec size (replicate (N.to_nat size) None).

(** [operator[]]: the index must be below [size_] and inside the block. *)
Definition cell {T : Type} (v : FixedUninitVec T) (n : N) : outcome (option T) :=
  if n <? fsize_ v then
    match data_ v !! N.to_nat n with
    | Some c => Ret c
    | None => Undefined
    end
  else Undefined.

(** Reading the object that lives in cell [n]. *)
Definition cell_read {T : Type} (v : FixedUninitVec T) (n : N) : outcome T :=
  let* c := cell v n in
  match c with
  | Some x => Ret x
  | None => Undefined
  end.

(** Replacing the content of cell [n]: placement new with [Some x], a
    destructor call with [None]. *)
Definition cell_write {T : Type} (v : FixedUninitVec T) (n : N) (c : option T)
  : outcome (FixedUninitVec T) :=
  let* _ := cell v n in
  Ret (mkFixedUninitVec (fsize_ v) (<[N.to_nat n := c]> (data_ v))).

(** The moved-from vector: [size_] is copied, the pointer is taken away. *)
Definition FixedUninitVec_moved_from {T : Type} (v : FixedUninitVec T) : FixedUninitVec T :=
  mkFixedUninitVec (fsize_ v) [].

(** ** class HashMap<K, V, Hash, Eq> *)

Definition DefaultInitialCapacity : N := 16.

(** [0.875f] and [0.5f]. *)
Definition MaxLoadFactor : float :=
  Eval cbv in binary_normalize prec emax 7 (-3) false.
Definition MaxDeletedLoadFactor : float :=
  Eval cbv in binary_normalize prec emax 1 (-1) false.

Record Slot (K V : Type) : Type := mkSlot { key : K; value : V }.

Arguments mkSlot {K V} _ _.
Arguments key {K V} _.
Arguments value {K V} _.

Record HashMap (K V : Type) : Type := mkHashMap {
  capacity_ : N;
  size_ : N;
  metadata_ : list detail.metadata_t;
  slots_ : FixedUninitVec (Slot K V);
  deletedCount_ : N
}.

Arguments mkHashMap {K V} _ _ _ _ _.
Arguments capacity_ {K V} _.
Arguments size_ {K V} _.
Arguments metadata_ {K V} _.
Arguments slots_ {K V} _.
Arguments deletedCount_ {K V} _.

(** A [MapIterator] is compared through [idex_] only; [slotPtr_] is
    [slots_.data() + idex_] and is not represented. *)
Definition iterator := N.

Record InsertionLoc : Type := mkInsertionLoc { idex : N; h2 : N }.

Section HashMapOps.

Context {K V : Type}.
Variable Hash : K -> N.          (* the hasher: key to size_t *)
Variable Eq : K -> K -> bool.    (* the equality predicate *)

Local Abbreviation Map := (HashMap K V).

(** [metadata_[i]] and [metadata_[i] = m] on the vector. *)
Definition meta_get (t : Map) (i : N) : outcome detail.metadata_t :=
  match metadata_ t !! N.to_nat i with
  | Some m => Ret m
  | None => Undefined
  end.

Definition meta_set (md : list detail.metadata_t) (i : N) (m : detail.metadata_t)
  : outcome (list detail.metadata_t) :=
  if (N.to_nat i <? length md)%nat then Ret (<[N.to_nat i := m]> md) else Undefined.

(** [HashMap(size_t initialCapacity)] *)
Definition HashMap_new (initialCapacity : N) : Map :=
  mkHashMap initialCapacity 0
    (replicate (N.to_nat initialCapacity) detail.Empty)
    (FixedUninitVec_new initialCapacity) 0.

(** [HashMap()] *)
Definition HashMap_default : Map := HashMap_new DefaultInitialCapacity.

(** [HashMap(HashMap &&other)] and [operator=(HashMap &&other)]: the
    pair of the destination and of what is left in [other]. *)
Definition move (other : Map) : Map * Map :=
  (mkHashMap (capacity_ other) (size_ other) (metadata_ other)
     (slots_ other) (deletedCount_ other),
   mkHashMap 0 0 [] (FixedUninitVec_moved_from (slots_ other)) 0).

Definition size (t : Map) : N := size_ t.

Definition empty (t : Map) : bool := size_ t =? 0.

Definition iteratorAt (idx : N) : iterator := idx.


Definition end_ (t : Map) : iterator := iteratorAt (fsize_ (slots_ t)).

(** [iteratorAt(std::optional<size_t>)] *)
Definition iteratorAt_opt (t : Map) (maybeIdex : option N) : iterator :=
  match maybeIdex with
  | Some i => iteratorAt i
  | None => end_ t
  end.

(** The loop of [locationForInsertion]. *)
Fixpoint locationForInsertion_loop (fuel : nat) (t : Map) (k : K)
    (h2 : N) (idex : N) : outcome (option InsertionLoc) :=
  match fuel with
  | O => OutOfFuel
  | S fuel' =>
      let* metadata := meta_get t idex in
      if detail.IsFree metadata then Ret (Some (mkInsertionLoc idex h2))
      else
        let* found := (if metadata =? h2
                  then let* s := cell_read (slots_ t) idex in Ret (Eq k (key s))
                  else Ret false) in
        if (found : bool) then Ret None
        else
          let* next := umod (wrap (idex + 1)) (capacity_ t) in
          locationForInsertion_loop fuel' t k h2 next
  end.

Definition locationForInsertion (fuel : nat) (t : Map) (k : K)
  : outcome (option InsertionLoc) :=
  let hash := Hash k in
  let h1 := detail.H1 hash in
  let h2 := detail.H2 hash in
  let* idex := umod h1 (capacity_ t) in
  locationForInsertion_loop fuel t k h2 idex.

(** The three overloads of [insertUnchecked] build the same [Slot]. *)
Definition insertUnchecked (fuel : nat) (s : Slot K V) (t : Map)
  : outcome (option N * Map) :=
  let* loc := locationForInsertion fuel t (key s) in
  match loc with
  | Some l =>
      let* md := meta_set (metadata_ t) (idex l) (h2 l) in
      let* sl := cell_write (slots_ t) (idex l) (Some s) in
      Ret (Some (idex l),
           mkHashMap (capacity_ t) (wrap (size_ t + 1)) md sl (deletedCount_ t))
  | None => Ret (None, t)
  end.

Definition deleteSlot (idx : N) (t : Map) : outcome Map :=
  let* md := meta_set (metadata_ t) idx detail.Deleted in
  let* _ := cell_read (slots_ t) idx in
  let* sl := cell_write (slots_ t) idx None in
  Ret (mkHashMap (capacity_ t) (size_ t) md sl (wrap (deletedCount_ t + 1))).

(** The loop of [doFind]. *)
Fixpoint doFind_loop (fuel : nat) (t : Map) (k : K) (h2 : N) (idex : N)
  : outcome (option N) :=
  match fuel with
  | O => OutOfFuel
  | S fuel' =>
      let* metadata := meta_get t idex in
      let* found := (if metadata =? h2
                then let* s := cell_read (slots_ t) idex in Ret (Eq k (key s))
                else Ret false) in
      if (found : bool) then Ret (Some idex)
      else if metadata =? detail.Empty then Ret None
      else
        let* next := umod (wrap (idex + 1)) (capacity_ t) in
        doFind_loop fuel' t k h2 next
  end.

Definition doFind (fuel : nat) (t : Map) (k : K) : outcome (option N) :=
  let hash := Hash k in
  let h1 := detail.H1 hash in
  let h2 := detail.H2 hash in
  let* idex := umod h1 (capacity_ t) in
  doFind_loop fuel t k h2 idex.

(** The loop [for (i = 0; i < capacity_; ++i)] that moves every live slot
    of [old] into [newTable]; [n] counts the iterations left. *)
Fixpoint move_slots (fuel : nat) (old : Map) (n : nat) (i : N) (newTable : Map)
  : outcome Map :=
  match n with
  | O => Ret newTable
  | S n' =>
      let* metadata := meta_get old i in
      let* newTable' := (if negb (detail.IsFree metadata)
                    then let* s := cell_read (slots_ old) i in
                         let* r := insertUnchecked fuel s newTable in
                         Ret (snd r)
                    else Ret newTable) in
      move_slots fuel old n' (i + 1) newTable'
  end.

(** [growAndRehash(size_t newCapacity)] *)
Definition growAndRehash_to (fuel : nat) (newCapacity : N) (t : Map) : outcome Map :=
  if newCapacity <=? capacity_ t then Ret t
  else
    let newTable := HashMap_new newCapacity in
    let* newTable' := (if negb (empty t)
                  then move_slots fuel t (N.to_nat (capacity_ t)) 0 newTable
                  else Ret newTable) in
    Ret (fst (move newTable')).

(** [growAndRehash()] *)
Definition growAndRehash (fuel : nat) (t : Map) : outcome Map :=
  let newCapacity := wrap (capacity_ t * 2) in
  let newCapacity := if capacity_ t =? 0 then DefaultInitialCapacity else newCapacity in
  growAndRehash_to fuel newCapacity t.

Definition rehashEverything (fuel : nat) (t : Map) : outcome Map :=
  if empty t then Ret t
  else
    let newTable := HashMap_new (capacity_ t) in
    let* newTable' := move_slots fuel t (N.to_nat (capacity_ t)) 0 newTable in
    Ret (fst (move newTable')).

Definition loadFactor (t : Map) : float :=
  fdiv (float_of_size (size_ t)) (float_of_size (capacity_ t)).

Definition needToGrowForInsert (t : Map) : bool :=
  fge (loadFactor t) MaxLoadFactor || (size_ t =? capacity_ t).

Definition needRehash (t : Map) : bool :=
  fge (float_of_size (deletedCount_ t))
      (fmul (float_of_size (size_ t)) MaxDeletedLoadFactor).

(** *** The public member functions *)

Definition find (fuel : nat) (k : K) (t : Map) : outcome iterator :=
  let* r := doFind fuel t k in
  Ret (iteratorAt_opt t r).

(** [at]: the cell whose [value] the returned reference designates,
    with the value read through it, and the table. *)
Definition at_ (fuel : nat) (k : K) (t : Map) : outcome (N * V * Map) :=
  let* res := doFind fuel t k in
  match res with
  | Some i => let* s := cell_read (slots_ t) i in Ret (i, value s, t)
  | None => KeyNotFound
  end.

(** [insert]: the iterator is converted to [std::optional<iterator>] on
    return, so the optional always holds a value. *)
Definition insert (fuel : nat) (kv : K * V) (t : Map)
  : outcome (option iterator * Map) :=
  let* t1 := (if needToGrowForInsert t then growAndRehash fuel t else Ret t) in
  let* r := insertUnchecked fuel (mkSlot (fst kv) (snd kv)) t1 in
  Ret (Some (iteratorAt_opt (snd r) (fst r)), snd r).

(** [erase(iterator)]; the [assert] is a precondition. *)
Definition erase_it (fuel : nat) (it : iterator) (t : Map) : outcome (bool * Map) :=
  if it =? end_ t then Ret (false, t)
  else if negb (it <? capacity_ t) then Undefined
  else
    let* t1 := deleteSlot it t in
    let t2 := mkHashMap (capacity_ t1) (wrap (size_ t1 + (size_t_modulus - 1)))
                (metadata_ t1) (slots_ t1) (deletedCount_ t1) in
    let* t3 := (if needRehash t2 then rehashEverything fuel t2 else Ret t2) in
    Ret (true, t3).

(** [erase(const K &)] *)
Definition erase (fuel : nat) (k : K) (t : Map) : outcome (bool * Map) :=
  let* it := find fuel k t in
  erase_it fuel it t.

(** The loop of [clear]. *)
Fixpoint clear_loop (n : nat) (i : N) (md : list detail.metadata_t)
    (sl : FixedUninitVec (Slot K V)) : outcome (list detail.metadata_t * FixedUninitVec (Slot K V)) :=
  match n with
  | O => Ret (md, sl)
  | S n' =>
      let* metadata := match md !! N.to_nat i with Some m => Ret m | None => Undefined end in
      let* sl' := (if negb (detail.IsFree metadata)
              then let* _ := cell_read sl i in cell_write sl i None
              else Ret sl) in
      let* md' := meta_set md i detail.Empty in
      clear_loop n' (i + 1) md' sl'
  end.

Definition clear (t : Map) : outcome Map :=
  if empty t then Ret t
  else
    let* r := clear_loop (N.to_nat (capacity_ t)) 0 (metadata_ t) (slots_ t) in
    Ret (mkHashMap (capacity_ t) 0 (fst r) (snd r) 0).

Definition reserve (fuel : nat) (n : N) (t : Map) : outcome Map :=
  if n <=? capacity_ t then Ret t else growAndRehash_to fuel n t.


End HashMapOps.

(** ** Calls in sequence, and the tables they reach *)

Inductive call (K V : Type) : Type :=
| Insert (kv : K * V)
| Erase (k : K)
| EraseAt (it : iterator)
| Clear
| Reserve (n : N).

Arguments Insert {K V} kv.
Arguments Erase {K V} k.
Arguments EraseAt {K V} it.
Arguments Clear {K V}.
Arguments Reserve {K V} n.

(** The calls that erase. *)
Definition erases {K V : Type} (c : call K V) : bool :=
  match c with
  | Erase _ | EraseAt _ => true
  | _ => false
  end.

(** The calls of [reserve]. *)
Definition reserves {K V : Type} (c : call K V) : bool :=
  match c with
  | Reserve _ => true
  | _ => false
  end.

Section Calls.

Context {K V : Type}.
Variable Hash : K -> N.
Variable Eq : K -> K -> bool.

Definition run_call (fuel : nat) (c : call K V) (t : HashMap K V)
  : outcome (HashMap K V) :=
  match c with
  | Insert kv => let* r := insert Hash Eq fuel kv t in Ret (snd r)
  | Erase k => let* r := erase Hash Eq fuel k t in Ret (snd r)
  | EraseAt it => let* r := erase_it Hash Eq fuel it t in Ret (snd r)
  | Clear => clear t
  | Reserve n => reserve Hash Eq fuel (wrap n) t   (* the argument is a size_t *)
  end.

Fixpoint run (fuel : nat) (cs : list (call K V)) (t : HashMap K V)
  : outcome (HashMap K V) :=
  match cs with
  | [] => Ret t
  | c :: cs' => let* t' := run_call fuel c t in run fuel cs' t'
  end.

(** A table is reachable when some sequence of public calls, all of
    which return, leads to it from a freshly constructed table. *)
Definition reachable (t : HashMap K V) : Prop :=
  exists (initialCapacity : N) (cs : list (call K V)) (fuel : nat),
    initialCapacity < size_t_modulus
    /\ run fuel cs (HashMap_new initialCapacity) = Ret t.

(** Cell [i] is live: its metadata byte is neither [Empty] nor [Deleted]. *)
Definition live (t : HashMap K V) (i : nat) : bool :=
  match metadata_ t !! i with
  | Some m => negb (detail.IsFree m)
  | None => false
  end.

(** The key stored in cell [i], when the cell is live. *)
Definition live_key (t : HashMap K V) (i : nat) : option K :=
  if live t i then
    match data_ (slots_ t) !! i with
    | Some (Some s) => Some (key s)
    | _ => None
    end
  else None.

(** The number of tombstones in the metadata array. *)
Definition tombstones (t : HashMap K V) : nat :=
  length (filter (fun m => m = detail.Deleted) (metadata_ t)).

(** The number of [Empty] bytes in the metadata array. *)
Definition empties (t : HashMap K V) : nat :=
  length (filter (fun m => m = detail.Empty) (metadata_ t)).

(** The table [HashMap(c)] after one slot was placed in cell [i]. *)
Definition singleton_table (c i : N) (s : Slot K V) : HashMap K V :=
  mkHashMap c 1
    (<[N.to_nat i := detail.H2 (Hash (key s))]> (replicate (N.to_nat c) detail.Empty))
    (mkFixedUninitVec c (<[N.to_nat i := Some s]> (replicate (N.to_nat c) None)))
    0.

(** The key's bucket in a table. *)
Definition bucket (t : HashMap K V) (k : K) : N :=
  detail.H1 (Hash k) mod capacity_ t.

(** The cell that the probe walk from bucket [b] visits at step [d]. *)
Definition probe (t : HashMap K V) (b : N) (d : nat) : nat :=
  N.to_nat ((b + N.of_nat d) mod capacity_ t).

(** The invariants of the data model: the arrays are as long as capacity,
    and every live cell holds a slot, carries the [H2] of its key, and is
    reached from the bucket of its key in fewer than capacity steps that
    cross no [Empty] byte. *)
Definition well_formed (t : HashMap K V) : Prop :=
  capacity_ t < size_t_modulus
  /\ length (metadata_ t) = N.to_nat (capacity_ t)
  /\ fsize_ (slots_ t) = capacity_ t
  /\ length (data_ (slots_ t)) = N.to_nat (capacity_ t)
  /\ forall (j : nat) (m : detail.metadata_t),
       metadata_ t !! j = Some m -> detail.IsFree m = false ->
       exists (s : Slot K V) (n : nat),
         data_ (slots_ t) !! j = Some (Some s)
         /\ m = detail.H2 (Hash (key s))
         /\ j = probe t (bucket t (key s)) n
         /\ (n < N.to_nat (capacity_ t))%nat
         /\ forall d : nat, (d < n)%nat ->
              metadata_ t !! probe t (bucket t (key s)) d <> Some detail.Empty.

(** Cell [j] is live and holds the slot [s]. *)
Definition holds (t : HashMap K V) (j : nat) (s : Slot K V) : Prop :=
  live t j = true /\ data_ (slots_ t) !! j = Some (Some s).

(** The key is present: some live cell holds a slot with an equal key. *)
Definition key_live (t : HashMap K V) (k : K) : Prop :=
  exists (j : nat) (s : Slot K V), holds t j s /\ Eq k (key s) = true.

(** No metadata byte is a tombstone: a free byte is [Empty]. *)
Definition no_tombstone (t : HashMap K V) : Prop :=
  forall (e : nat) (m : detail.metadata_t),
    metadata_ t !! e = Some m -> detail.IsFree m = true -> m = detail.Empty.

(** No two live cells hold keys that the equality predicate identifies. *)
Definition no_duplicate_live_keys (t : HashMap K V) : Prop :=
  forall (i j : nat) (ki kj : K),
    live_key t i = Some ki -> live_key t j = Some kj ->
    Eq ki kj = true -> i = j.

(** The number of live cells in the metadata array. *)
Definition live_count (t : HashMap K V) : nat :=
  length (filter (fun m => detail.IsFree m = false) (metadata_ t)).

(** A free cell holds no constructed slot. *)
Definition tidy (t : HashMap K V) : Prop :=
  forall (j : nat) (m : detail.metadata_t),
    metadata_ t !! j = Some m -> detail.IsFree m = true ->
    data_ (slots_ t) !! j = Some None.

(** [size_] is the number of live cells. *)
Definition counted (t : HashMap K V) : Prop :=
  size_ t = N.of_nat (live_count t).

(** The table after [insertUnchecked] placed the slot [s] in cell [p]. *)
Definition placed (t : HashMap K V) (p : N) (s : Slot K V) : HashMap K V :=
  mkHashMap (capacity_ t) (wrap (size_ t + 1))
    (<[N.to_nat p := detail.H2 (Hash (key s))]> (metadata_ t))
    (mkFixedUninitVec (fsize_ (slots_ t)) (<[N.to_nat p := Some s]> (data_ (slots_ t))))
    (deletedCount_ t).

(** The table after [erase(iterator)] turned cell [p] into a tombstone,
    before the test of [needRehash]. *)
Definition tombstoned (t : HashMap K V) (p : N) : HashMap K V :=
  mkHashMap (capacity_ t) (wrap (size_ t + (size_t_modulus - 1)))
    (<[N.to_nat p := detail.Deleted]> (metadata_ t))
    (mkFixedUninitVec (fsize_ (slots_ t)) (<[N.to_nat p := None]> (data_ (slots_ t))))
    (wrap (deletedCount_ t + 1)).

(** Every metadata byte is a hash fragment, [Empty] or [Deleted]. *)
Definition metadata_bytes (t : HashMap K V) : Prop :=
  forall (j : nat) (m : detail.metadata_t),
    metadata_ t !! j = Some m ->
    m < 128 \/ m = detail.Empty \/ m = detail.Deleted.

(** The data model as a whole: the probe chains, no slot in a free cell,
    and [size_] equal to the number of live cells. *)
Definition data_model (t : HashMap K V) : Prop :=
  well_formed t /\ tidy t /\ counted t.

(** The comparison [deletedCount_ < size_ * MaxDeletedLoadFactor], in the
    arithmetic of [needRehash]. *)
Definition tombstone_bound (t : HashMap K V) : bool :=
  flt (float_of_size (deletedCount_ t))
      (fmul (float_of_size (size_ t)) MaxDeletedLoadFactor).

(** The comparison [size() / capacity() < MaxLoadFactor], in the arithmetic
    of [loadFactor]. *)
Definition load_factor_bound (t : HashMap K V) : bool :=
  flt (loadFactor t) MaxLoadFactor.

End Calls.


(** ** The growth test of the variant without tombstone counting

    The other [HashMap.hpp] of the repository differs in the test that
    precedes an insertion: it projects the load factor one element ahead. *)

Module Sibling.

(** [loadFactor(size_t extra)] *)
Definition loadFactor_extra (size_ capacity_ extra : N) : float :=
  fdiv (float_of_size (wrap (size_ + extra))) (float_of_size capacity_).

Definition needToGrowForInsert (size_ capacity_ : N) : bool :=
  fge (loadFactor_extra size_ capacity_ 1) MaxLoadFactor || (size_ =? capacity_).

End Sibling.

(** [growAndRehash()] and [insert] of that variant, on the same record:
    the variant has no [deletedCount_] member, and the field stays at the
    0 that the constructor gives it. Its [growAndRehash()] tests neither
    the new capacity nor [empty()], and swaps the table with the temporary;
    [locationForInsertion], [insertUnchecked] and [doFind] are the same
    in both files. *)

Module SiblingTable.

Section Ops.

Context {K V : Type}.
Variable Hash : K -> N.
Variable Eq : K -> K -> bool.

Definition growAndRehash (fuel : nat) (t : HashMap K V) : outcome (HashMap K V) :=
  let newCapacity := wrap (capacity_ t * 2) in
  let newCapacity := if capacity_ t =? 0 then DefaultInitialCapacity else newCapacity in
  let newTable := HashMap_new newCapacity in
  let* newTable' := move_slots Hash Eq fuel t (N.to_nat (capacity_ t)) 0 newTable in
  Ret newTable'.

Definition insert (fuel : nat) (kv : K * V) (t : HashMap K V)
  : outcome (option iterator * HashMap K V) :=
  let* t1 := (if Sibling.needToGrowForInsert (size_ t) (capacity_ t)
              then growAndRehash fuel t else Ret t) in
  let* r := insertUnchecked Hash Eq fuel (mkSlot (fst kv) (snd kv)) t1 in
  Ret (Some (iteratorAt_opt (snd r) (fst r)), snd r).

End Ops.

End SiblingTable.

(** ** Tables of [size_t] keys and [std::string] values *)

(** A hasher that returns its argument, as [std::hash] does on integers. *)
Definition IdHash (k : N) : N := k.

(** [IntHasher] of the test suite, on 32-bit [unsigned int]. *)
Definition IntHasher (y : N) : N :=
  let u32 (n : N) := n mod 2 ^ 32 in
  let x := u32 y in
  let x := u32 (N.lxor (N.shiftr x 16) x * 73244475) in
  let x := u32 (N.lxor (N.shiftr x 16) x * 73244475) in
  N.lxor (N.shiftr x 16) x.

Local Open Scope string_scope.

(** Four keys of one bucket, the first erased, the second inserted again. *)
Definition four_keys : list (call N string) :=
  [Insert (0, "a"); Insert (1, "b"); Insert (2, "c"); Insert (3, "d")].

Definition reinsert_behind_tombstone : list (call N string) :=
  four_keys ++ [Erase 0; Insert (1, "z")].

(** The same with a probe sequence that wraps around the end of the array. *)
Definition reinsert_wrapping : list (call N string) :=
  [Insert (1920, "a"); Insert (1921, "b"); Insert (256, "c"); Insert (384, "d");
   Erase 1920; Insert (1921, "z")].

(** [HashMap(4)] after the insertion of the keys 1, 2, 3 and 4. *)
Definition one_to_four : list (call N string) :=
  [Insert (1, "v"); Insert (2, "v"); Insert (3, "v"); Insert (4, "v")].

Definition full_table : HashMap N string :=
  mkHashMap 4 4 [1; 2; 3; 4]
    (mkFixedUninitVec 4
       [Some (mkSlot 1 "v"); Some (mkSlot 2 "v");
        Some (mkSlot 3 "v"); Some (mkSlot 4 "v")])
    0.

(** A fifth insertion, as in the test [AutoGrow]. *)
Definition one_to_five : list (call N string) :=
  one_to_four ++ [Insert (5, "w")].

(** The value [at] reads for a key, when it returns. *)
Definition value_at (Hash : N -> N) (t : HashMap N string) (k : N) : option string :=
  match at_ Hash N.eqb 32 k t with
  | Ret (_, v, _) => Some v
  | _ => None
  end.

(** Two entries, as in the test [ClearedIsValid]. *)
Definition two_entries : HashMap N string :=
  mkHashMap 16 2
    ([128; 128; 128; 128; 128; 24; 128; 39] ++ replicate 8 128)
    (mkFixedUninitVec 16
       ([None; None; None; None; None; Some (mkSlot 2 "def"); None;
         Some (mkSlot 1 "abc")] ++ replicate 8 None))
    0.

(** [HashMap()] after the insertion of the keys 0, 1, 2 and 3. *)
Definition four_keys_table : HashMap N string :=
  mkHashMap 16 4 ([0; 1; 2; 3] ++ replicate 12 128)
    (mkFixedUninitVec 16
       ([Some (mkSlot 0 "a"); Some (mkSlot 1 "b"); Some (mkSlot 2 "c");
         Some (mkSlot 3 "d")] ++ replicate 12 None))
    0.

(** Fourteen keys of bucket 0 in the default table. *)
Definition fourteen_keys : list (call N string) :=
  map (fun k => Insert (N.of_nat k, "v")) (seq 0 14).

(** Two of them replaced by keys of the buckets 14 and 15. *)
Definition churn : list (call N string) :=
  fourteen_keys ++ [Erase 0; Insert (1792, "x"); Erase 1; Insert (1920, "y")].

Definition churned_table : HashMap N string :=
  mkHashMap 16 14
    [255; 255; 2; 3; 4; 5; 6; 7; 8; 9; 10; 11; 12; 13; 0; 0]
    (mkFixedUninitVec 16
       ([None; None]
        ++ map (fun k => Some (mkSlot (N.of_nat k) "v")) (seq 2 12)
        ++ [Some (mkSlot 1792 "x"); Some (mkSlot 1920 "y")]))
    2.

(** One key inserted and erased, [n] times over. *)
Definition insert_erase_cycles (n : nat) : list (call N string) :=
  concat (replicate n [Insert (5, "a"); Erase 5]).

Local Close Scope string_scope.

(** ** Proof automation *)

Create HintDb throw.

(** Closes a goal [c <> KeyNotFound] for code built from binds, tests and
    the functions registered in the [throw] database; [bind_rule] is the
    rule for [obind]. *)
Ltac no_throw_by bind_rule :=
  repeat first
    [ progress auto with throw
    | discriminate
    | apply bind_rule; [ | intros ]
    | match goal with
      | |- (if ?b then _ else _) <> KeyNotFound => destruct b
      | |- (match ?x with _ => _ end) <> KeyNotFound => destruct x
      end ].

(** * Properties *)

(** ** Outcomes *)

Lemma obind_Ret {A B : Type} (c : outcome A) (f : A -> outcome B) (b : B) :
  obind c f = Ret b -> exists a, c = Ret a /\ f a = Ret b.
Proof. destruct c; simpl; intros H; try discriminate. eauto. Qed.

Lemma obind_KeyNotFound {A B : Type} (c : outcome A) (f : A -> outcome B) :
  c <> KeyNotFound -> (forall a, f a <> KeyNotFound) -> obind c f <> KeyNotFound.
Proof. destruct c; simpl; intros Hc Hf; auto; discriminate. Qed.

Lemma umod_KeyNotFound (a b : N) : umod a b <> KeyNotFound.
Proof. unfold umod. destruct (b =? 0); discriminate. Qed.

Lemma cell_KeyNotFound {T : Type} (v : FixedUninitVec T) (n : N) :
  cell v n <> KeyNotFound.
Proof.
  unfold cell. destruct (n <? fsize_ v); [|discriminate].
  destruct (data_ v !! N.to_nat n); discriminate.
Qed.

Lemma cell_read_KeyNotFound {T : Type} (v : FixedUninitVec T) (n : N) :
  cell_read v n <> KeyNotFound.
Proof.
  unfold cell_read. apply obind_KeyNotFound; [apply cell_KeyNotFound|].
  intros [x|]; discriminate.
Qed.

Lemma cell_write_KeyNotFound {T : Type} (v : FixedUninitVec T) (n : N) (c : option T) :
  cell_write v n c <> KeyNotFound.
Proof.
  unfold cell_write. apply obind_KeyNotFound; [apply cell_KeyNotFound|].
  intros; discriminate.
Qed.

(** A cell that can be read lies below [size_]. *)
Lemma cell_read_lt {T : Type} (v : FixedUninitVec T) (n : N) (x : T) :
  cell_read v n = Ret x -> n < fsize_ v /\ data_ v !! N.to_nat n = Some (Some x).
Proof.
  unfold cell_read, cell. destruct (n <? fsize_ v) eqn:Hlt; simpl; [|discriminate].
  apply N.ltb_lt in Hlt.
  destruct (data_ v !! N.to_nat n) as [[y|]|]; simpl; try discriminate.
  intros [= ->]. auto.
Qed.

#[local] Hint Resolve umod_KeyNotFound cell_read_KeyNotFound
  cell_write_KeyNotFound cell_KeyNotFound : throw.

Tactic Notation "no_throw" := no_throw_by obind_KeyNotFound.

Section Channels.

Context {K V : Type}.
Variable Hash : K -> N.
Variable Eq : K -> K -> bool.

Local Abbreviation Map := (HashMap K V).

Lemma meta_get_KeyNotFound (t : Map) (i : N) : meta_get t i <> KeyNotFound.
Proof. unfold meta_get. destruct (metadata_ t !! N.to_nat i); discriminate. Qed.

Lemma meta_set_KeyNotFound (md : list detail.metadata_t) (i m : N) :
  meta_set md i m <> KeyNotFound.
Proof. unfold meta_set. destruct (_ <? _)%nat; discriminate. Qed.

Hint Resolve meta_get_KeyNotFound meta_set_KeyNotFound : throw.

Lemma doFind_loop_KeyNotFound (fuel : nat) (t : Map) (k : K) (h2 i : N) :
  doFind_loop Eq fuel t k h2 i <> KeyNotFound.
Proof.
  revert i. induction fuel as [|fuel IH]; intros i; simpl; [discriminate|].
  no_throw.
Qed.

Lemma doFind_KeyNotFound (fuel : nat) (t : Map) (k : K) :
  doFind Hash Eq fuel t k <> KeyNotFound.
Proof. unfold doFind. no_throw. apply doFind_loop_KeyNotFound. Qed.

Lemma locationForInsertion_loop_KeyNotFound (fuel : nat) (t : Map) (k : K) (h2 i : N) :
  locationForInsertion_loop Eq fuel t k h2 i <> KeyNotFound.
Proof.
  revert i. induction fuel as [|fuel IH]; intros i; simpl; [discriminate|].
  no_throw.
Qed.

Lemma insertUnchecked_KeyNotFound (fuel : nat) (s : Slot K V) (t : Map) :
  insertUnchecked Hash Eq fuel s t <> KeyNotFound.
Proof.
  unfold insertUnchecked, locationForInsertion. no_throw.
  apply locationForInsertion_loop_KeyNotFound.
Qed.

Hint Resolve doFind_KeyNotFound insertUnchecked_KeyNotFound : throw.

Lemma move_slots_KeyNotFound (fuel : nat) (old : Map) (n : nat) (i : N) (newTable : Map) :
  move_slots Hash Eq fuel old n i newTable <> KeyNotFound.
Proof.
  revert i newTable. induction n as [|n IH]; intros i newTable; simpl; [discriminate|].
  no_throw.
Qed.

Hint Resolve move_slots_KeyNotFound : throw.

Lemma rehashEverything_KeyNotFound (fuel : nat) (t : Map) :
  rehashEverything Hash Eq fuel t <> KeyNotFound.
Proof. unfold rehashEverything. no_throw. Qed.

Lemma deleteSlot_KeyNotFound (i : N) (t : Map) : deleteSlot i t <> KeyNotFound.
Proof. unfold deleteSlot. no_throw. Qed.

Hint Resolve rehashEverything_KeyNotFound deleteSlot_KeyNotFound : throw.

Lemma find_KeyNotFound (fuel : nat) (k : K) (t : Map) :
  find Hash Eq fuel k t <> KeyNotFound.
Proof. unfold find. no_throw. Qed.

Lemma erase_it_KeyNotFound (fuel : nat) (it : iterator) (t : Map) :
  erase_it Hash Eq fuel it t <> KeyNotFound.
Proof. unfold erase_it. no_throw. Qed.

Lemma erase_KeyNotFound (fuel : nat) (k : K) (t : Map) :
  erase Hash Eq fuel k t <> KeyNotFound.
Proof.
  unfold erase. apply obind_KeyNotFound; [apply find_KeyNotFound|].
  intros it. apply erase_it_KeyNotFound.
Qed.

(** What the probe walk of [doFind] returns is a cell whose metadata byte
    is the key's [H2] and whose slot holds a key equal to the one searched. *)
Lemma doFind_loop_Some (fuel : nat) (t : Map) (k : K) (h2 i j : N) :
  doFind_loop Eq fuel t k h2 i = Ret (Some j) ->
  exists s, metadata_ t !! N.to_nat j = Some h2
            /\ cell_read (slots_ t) j = Ret s /\ Eq k (key s) = true.
Proof.
  revert i. induction fuel as [|fuel IH]; intros i; simpl; [discriminate|].
  intros H. apply obind_Ret in H as (m & Hm & H).
  apply obind_Ret in H as (found & Hfound & H).
  destruct found.
  - injection H as <-.
    destruct (m =? h2) eqn:Hmh; [|discriminate].
    apply N.eqb_eq in Hmh. subst m.
    apply obind_Ret in Hfound as (s & Hs & Hfound). injection Hfound as Hk.
    exists s. split; [|auto].
    unfold meta_get in Hm. destruct (metadata_ t !! N.to_nat i); congruence.
  - destruct (m =? detail.Empty); [discriminate|].
    apply obind_Ret in H as (next & _ & H). eauto.
Qed.

Lemma doFind_Some (fuel : nat) (t : Map) (k : K) (j : N) :
  doFind Hash Eq fuel t k = Ret (Some j) ->
  exists s, metadata_ t !! N.to_nat j = Some (detail.H2 (Hash k))
            /\ cell_read (slots_ t) j = Ret s /\ Eq k (key s) = true.
Proof.
  unfold doFind. intros H. apply obind_Ret in H as (i & _ & H).
  eapply doFind_loop_Some; eauto.
Qed.

(** [find] answers a position other than [end()] exactly when the probe
    walk found a cell. *)
Lemma find_found (fuel : nat) (k : K) (t : Map) (it : iterator) :
  find Hash Eq fuel k t = Ret it /\ it <> end_ t <->
  doFind Hash Eq fuel t k = Ret (Some it).
Proof.
  unfold find. split.
  - intros [H Hne]. apply obind_Ret in H as ([i|] & Hd & H);
      simpl in H; injection H as <-; [assumption|congruence].
  - intros H. rewrite H. simpl. split; [reflexivity|].
    apply doFind_Some in H as (s & _ & Hs & _).
    apply cell_read_lt in Hs as [Hlt _]. unfold end_, iteratorAt. lia.
Qed.

Lemma find_not_found (fuel : nat) (k : K) (t : Map) :
  find Hash Eq fuel k t = Ret (end_ t) <-> doFind Hash Eq fuel t k = Ret None.
Proof.
  split.
  - intros H.
    destruct (doFind Hash Eq fuel t k) as [[i|]| | |] eqn:Hd;
      try (unfold find in H; rewrite Hd in H; discriminate); [|reflexivity].
    exfalso. apply find_found in Hd as [Hf Hne]. congruence.
  - intros H. unfold find. rewrite H. reflexivity.
Qed.

End Channels.

(** ** A first insertion into a table without live slots *)

Section Fresh.

Context {K V : Type}.
Variable Hash : K -> N.
Variable Eq : K -> K -> bool.

Lemma insertUnchecked_fresh (c : N) (fuel : nat) (s : Slot K V) :
  0 < c ->
  insertUnchecked Hash Eq (S fuel) s (HashMap_new c)
  = Ret (Some (detail.H1 (Hash (key s)) mod c),
         singleton_table Hash c (detail.H1 (Hash (key s)) mod c) s).
Proof.
  intros Hc. set (i := detail.H1 (Hash (key s)) mod c).
  assert (Hi : i < c) by (apply N.mod_lt; lia).
  assert (Hin : (N.to_nat i < N.to_nat c)%nat) by lia.
  unfold insertUnchecked, locationForInsertion, umod. simpl capacity_.
  destruct (N.eqb_spec c 0) as [->|_]; [lia|]. simpl obind. fold i.
  unfold meta_get. simpl metadata_.
  rewrite lookup_replicate_2 by assumption. simpl.
  unfold meta_set. rewrite length_replicate.
  destruct (Nat.ltb_spec (N.to_nat i) (N.to_nat c)) as [_|?]; [|lia]. simpl.
  unfold cell_write, cell. simpl.
  destruct (N.ltb_spec i c) as [_|?]; [|lia].
  rewrite lookup_replicate_2 by assumption. reflexivity.
Qed.

Lemma doFind_singleton (c : N) (fuel : nat) (s : Slot K V) :
  0 < c -> Eq (key s) (key s) = true ->
  doFind Hash Eq (S fuel) (singleton_table Hash c (detail.H1 (Hash (key s)) mod c) s) (key s)
  = Ret (Some (detail.H1 (Hash (key s)) mod c)).
Proof.
  intros Hc Hrefl. set (i := detail.H1 (Hash (key s)) mod c).
  assert (Hi : i < c) by (apply N.mod_lt; lia).
  unfold doFind, umod. simpl capacity_.
  destruct (N.eqb_spec c 0) as [->|_]; [lia|]. simpl obind. fold i.
  unfold meta_get. simpl metadata_.
  rewrite list_lookup_insert_eq by (rewrite length_replicate; lia). simpl.
  rewrite N.eqb_refl. unfold cell_read, cell. simpl.
  destruct (N.ltb_spec i c) as [_|?]; [|lia].
  rewrite list_lookup_insert_eq by (rewrite length_replicate; lia). simpl.
  rewrite Hrefl. reflexivity.
Qed.

End Fresh.

(** ** Moving from a table *)

(** C10. After a move the source has capacity 0, size 0 and no counted
    tombstone. An [insert] on it then asks for growth, returns the same
    result as on [HashMap(0)], and leaves a table of
    [DefaultInitialCapacity] cells and size 1 in which [find] and [at]
    reach the inserted pair. *)
Theorem moved_from_source_accepts_insert
    {K V : Type} (Hash : K -> N) (Eq : K -> K -> bool)
    (other : HashMap K V) (k : K) (v : V) (fuel : nat) :
  Eq k k = true -> (0 < fuel)%nat ->
  let src := snd (move other) in
  let i := detail.H1 (Hash k) mod DefaultInitialCapacity in
  capacity_ src = 0 /\ size src = 0 /\ deletedCount_ src = 0
  /\ fst (move other) = other
  /\ needToGrowForInsert src = true
  /\ exists t',
       insert Hash Eq fuel (k, v) src = Ret (Some i, t')
       /\ insert Hash Eq fuel (k, v) (HashMap_new 0) = Ret (Some i, t')
       /\ capacity_ t' = DefaultInitialCapacity /\ size t' = 1
       /\ deletedCount_ t' = 0
       /\ i <> end_ t'
       /\ find Hash Eq fuel k t' = Ret i
       /\ at_ Hash Eq fuel k t' = Ret (i, v, t').
Proof.
  intros Hrefl Hfuel src i. destruct fuel as [|fuel]; [lia|].
  assert (Hi : i < 16) by (apply N.mod_lt; discriminate).
  repeat apply conj; try reflexivity.
  - destruct other; reflexivity.
  - exists (singleton_table Hash DefaultInitialCapacity i (mkSlot k v)).
    pose proof (insertUnchecked_fresh Hash Eq DefaultInitialCapacity fuel
                  (mkSlot k v) eq_refl) as Hins.
    pose proof (doFind_singleton Hash Eq DefaultInitialCapacity fuel
                  (mkSlot k v) eq_refl Hrefl) as Hfind.
    simpl key in Hins, Hfind. fold i in Hins, Hfind.
    assert (Hgrow : forall t : HashMap K V,
               capacity_ t = 0 -> size_ t = 0 ->
               insert Hash Eq (S fuel) (k, v) t
               = Ret (Some i, singleton_table Hash DefaultInitialCapacity i (mkSlot k v))).
    { intros t Hc Hs. unfold insert, needToGrowForInsert, loadFactor.
      rewrite Hc, Hs. simpl obind at 1.
      unfold growAndRehash, growAndRehash_to, empty. rewrite Hc, Hs.
      change (obind (Ret (HashMap_new DefaultInitialCapacity))
                (fun t1 => let* r := insertUnchecked Hash Eq (S fuel) (mkSlot k v) t1 in
                           Ret (Some (iteratorAt_opt (snd r) (fst r)), snd r))
              = Ret (Some i, singleton_table Hash DefaultInitialCapacity i (mkSlot k v))).
      simpl obind at 1. rewrite Hins. reflexivity. }
    repeat apply conj; try reflexivity.
    + apply Hgrow; reflexivity.
    + apply Hgrow; reflexivity.
    + unfold end_, iteratorAt, DefaultInitialCapacity. simpl. lia.
    + unfold find. rewrite Hfind. reflexivity.
    + unfold at_. rewrite Hfind. simpl obind.
      unfold cell_read, cell. simpl fsize_. simpl data_.
      replace (i <? DefaultInitialCapacity) with true
        by (symmetry; apply N.ltb_lt; exact Hi).
      rewrite list_lookup_insert_eq by (simpl; lia).
      reflexivity.
Qed.

(** ** Binary32 arithmetic

    What the tombstone test needs of [SpecFloat]: the conversion of a
    non-zero [size_t] and its half are positive numbers, and [>=] and [<]
    are complementary away from NaN. *)

Section Binary32.

Local Open Scope Z_scope.

Lemma digits2_pos_size (p : positive) : digits2_pos p = Pos.size p.
Proof. induction p; simpl; congruence. Qed.

Lemma Zdigits2_log2 (p : positive) : Zdigits2 (Zpos p) = Z.log2 (Zpos p) + 1.
Proof.
  unfold Zdigits2. rewrite digits2_pos_size. destruct p; simpl; lia.
Qed.

Lemma shr_1_m (mrs : shr_record) :
  0 <= shr_m mrs -> shr_m (shr_1 mrs) = Z.shiftr (shr_m mrs) 1.
Proof.
  destruct mrs as [m r s]. simpl. intros Hm.
  destruct m as [|[p|p|]|p]; try reflexivity; lia.
Qed.

Lemma iter_shr_1_m (p : positive) (mrs : shr_record) :
  0 <= shr_m mrs ->
  shr_m (SpecFloat.iter_pos shr_1 p mrs) = Z.shiftr (shr_m mrs) (Zpos p).
Proof.
  revert mrs. induction p as [p IH|p IH|]; intros mrs Hm; simpl.
  - assert (H1 : 0 <= shr_m (shr_1 mrs))
      by (rewrite shr_1_m by assumption; apply Z.shiftr_nonneg; assumption).
    rewrite IH by (rewrite IH by assumption; apply Z.shiftr_nonneg; assumption).
    rewrite IH by assumption. rewrite shr_1_m by assumption.
    rewrite !Z.shiftr_shiftr by lia. f_equal. lia.
  - rewrite IH by (rewrite IH by assumption; apply Z.shiftr_nonneg; assumption).
    rewrite IH by assumption.
    rewrite !Z.shiftr_shiftr by lia. f_equal. lia.
  - apply shr_1_m. assumption.
Qed.

Lemma shr_record_of_loc_m (m : Z) (l : location) :
  shr_m (shr_record_of_loc m l) = m.
Proof. destruct l as [|[]]; reflexivity. Qed.

(** Shifting to the format's exponent keeps a positive mantissa positive
    and keeps the magnitude [digits + exponent]. *)
Lemma shr_fexp_pos (p : positive) (e : Z) (l : location) :
  -125 <= Zdigits2 (Zpos p) + e ->
  exists p' : positive,
    shr_m (fst (shr_fexp prec emax (Zpos p) e l)) = Zpos p'
    /\ Zdigits2 (Zpos p') + snd (shr_fexp prec emax (Zpos p) e l)
       = Zdigits2 (Zpos p) + e.
Proof.
  intros Hlo. unfold shr_fexp, shr, fexp, SpecFloat.emin, prec, emax.
  rewrite !Zdigits2_log2 in *.
  set (d := Z.log2 (Zpos p)) in *.
  assert (Hd : 0 <= d) by apply Z.log2_nonneg.
  replace (Z.max (d + 1 + e - 24) (3 - 128 - 24) - e) with (d - 23) by lia.
  destruct (d - 23) as [|q|q] eqn:Hn; simpl fst; simpl snd.
  - exists p. rewrite shr_record_of_loc_m, Zdigits2_log2. fold d. lia.
  - rewrite iter_shr_1_m by (rewrite shr_record_of_loc_m; lia).
    rewrite shr_record_of_loc_m.
    assert (Hpos : 0 < Z.shiftr (Zpos p) (Zpos q)).
    { destruct (Z.eq_dec (Z.shiftr (Zpos p) (Zpos q)) 0) as [H0|H0].
      - apply Z.shiftr_eq_0_iff in H0 as [H0|[_ H0]]; [lia|fold d in H0; lia].
      - pose proof (Z.shiftr_nonneg (Zpos p) (Zpos q)). lia. }
    destruct (Z.shiftr (Zpos p) (Zpos q)) as [|p'|p'] eqn:Hs; try lia.
    exists p'. split; [reflexivity|].
    rewrite Zdigits2_log2, <- Hs, Z.log2_shiftr by lia. fold d. lia.
  - exists p. rewrite shr_record_of_loc_m, Zdigits2_log2. fold d. lia.
Qed.

Lemma round_nearest_even_pos (p : positive) (l : location) :
  exists p' : positive,
    round_nearest_even (Zpos p) l = Zpos p'
    /\ Zdigits2 (Zpos p) <= Zdigits2 (Zpos p').
Proof.
  assert (Hs : exists p', Zpos p + 1 = Zpos p'
                          /\ Zdigits2 (Zpos p) <= Zdigits2 (Zpos p')).
  { exists (p + 1)%positive. split; [lia|].
    rewrite !Zdigits2_log2. pose proof (Z.log2_le_mono (Zpos p) (Zpos (p + 1))). lia. }
  destruct l as [|[]]; unfold round_nearest_even.
  - exists p; split; [reflexivity|lia].
  - destruct (Z.even (Zpos p)); [exists p; split; [reflexivity|lia]|exact Hs].
  - exists p; split; [reflexivity|lia].
  - exact Hs.
Qed.

Lemma binary_round_aux_pos (mx : positive) (ex : Z) (lx : location) :
  -125 <= Zdigits2 (Zpos mx) + ex ->
  pos_float (Zdigits2 (Zpos mx) + ex)
    (binary_round_aux prec emax false (Zpos mx) ex lx).
Proof.
  intros Hlo. unfold binary_round_aux.
  destruct (shr_fexp_pos mx ex lx Hlo) as (p1 & Hm1 & He1).
  destruct (shr_fexp prec emax (Zpos mx) ex lx) as [mrs1 e1].
  simpl fst in Hm1. simpl snd in He1. rewrite Hm1.
  destruct (round_nearest_even_pos p1 (loc_of_shr_record mrs1)) as (p2 & Hr & Hd2).
  rewrite Hr.
  assert (Hlo2 : -125 <= Zdigits2 (Zpos p2) + e1) by lia.
  destruct (shr_fexp_pos p2 e1 loc_Exact Hlo2) as (p3 & Hm3 & He3).
  destruct (shr_fexp prec emax (Zpos p2) e1 loc_Exact) as [mrs3 e3].
  simpl fst in Hm3. simpl snd in He3. rewrite Hm3.
  destruct (e3 <=? emax - prec); cbn [pos_float]; [lia|exact I].
Qed.

Lemma pos_float_weaken (lo lo' : Z) (x : float) :
  lo <= lo' -> pos_float lo' x -> pos_float lo x.
Proof. destruct x as [| [] | | [] m e]; simpl; auto. lia. Qed.

Lemma digits2_pos_iter_xO (p d : positive) :
  digits2_pos (Pos.iter xO p d) = (digits2_pos p + d)%positive.
Proof.
  induction d as [|d IH] using Pos.peano_ind.
  - simpl. lia.
  - rewrite Pos.iter_succ. simpl. rewrite IH. lia.
Qed.

Lemma shl_align_magnitude (p : positive) (e e' : Z) :
  Zdigits2 (Zpos (fst (shl_align p e e'))) + snd (shl_align p e e')
  = Zdigits2 (Zpos p) + e.
Proof.
  unfold shl_align. destruct (e' - e) as [|d|d] eqn:Hd; simpl fst; simpl snd;
    try reflexivity.
  unfold Zdigits2. rewrite digits2_pos_iter_xO. lia.
Qed.

(** [(float)n] of a non-zero [n] is a positive number, at least 1. *)
Lemma float_of_size_pos (n : N) : n <> 0%N -> pos_float 1 (float_of_size n).
Proof.
  destruct n as [|p]; [congruence|]. intros _.
  unfold float_of_size. simpl Z.of_N. unfold binary_normalize, binary_round.
  pose proof (shl_align_magnitude p 0 (fexp prec emax (Zpos (digits2_pos p) + 0))) as Hm.
  destruct (shl_align p 0 (fexp prec emax (Zpos (digits2_pos p) + 0))) as [mz ez].
  simpl fst in Hm. simpl snd in Hm.
  assert (Hd : 1 <= Zdigits2 (Zpos p)) by (unfold Zdigits2; lia).
  eapply pos_float_weaken; [|apply binary_round_aux_pos]; lia.
Qed.

Lemma float_of_size_0 : float_of_size 0 = S754_zero false.
Proof. reflexivity. Qed.

(** Half of a number that is at least 1 is positive. *)
Lemma fmul_half_pos (x : float) :
  pos_float 1 x -> pos_float 0 (fmul x MaxDeletedLoadFactor).
Proof.
  destruct x as [| [] | | [] m e]; simpl pos_float; try contradiction.
  - intros _. exact I.
  - intros Hm. unfold fmul, MaxDeletedLoadFactor, SFmul. simpl xorb.
    assert (Hd : Zdigits2 (Zpos (m * 8388608)) = Zdigits2 (Zpos m) + 23).
    { rewrite !Zdigits2_log2. rewrite Pos2Z.inj_mul.
      change (Zpos 8388608) with (2 ^ 23). rewrite Z.log2_mul_pow2 by lia. lia. }
    eapply pos_float_weaken; [|apply binary_round_aux_pos]; unfold Zdigits2 in *; lia.
Qed.

Lemma pos_float_above_zero (lo : Z) (x : float) :
  pos_float lo x -> flt (S754_zero false) x = true.
Proof. destruct x as [| [] | | [] m e]; simpl; try contradiction; reflexivity. Qed.

(** For a table with a live slot and no counted tombstone the bound holds. *)
Lemma tombstone_bound_zero (s : N) :
  s <> 0%N ->
  flt (float_of_size 0) (fmul (float_of_size s) MaxDeletedLoadFactor) = true.
Proof.
  intros Hs. rewrite float_of_size_0.
  eapply pos_float_above_zero, fmul_half_pos, float_of_size_pos, Hs.
Qed.

Lemma SFcompare_antisym (x y : float) (c : comparison) :
  SFcompare y x = Some c -> SFcompare x y = Some (CompOpp c).
Proof.
  destruct x as [sx|sx| |sx mx ex], y as [sy|sy| |sy my ey]; simpl;
    try discriminate; try destruct sx; try destruct sy;
    try (intros [= <-]; reflexivity).
  all: pose proof (Pos.compare_cont_antisym my mx Eq) as Hp; simpl in Hp.
  all: rewrite (Z.compare_antisym ey ex), <- Hp.
  all: intros [= <-]; destruct (ey ?= ex); simpl; try reflexivity.
  all: destruct (Pos.compare_cont Eq my mx); reflexivity.
Qed.

Lemma not_fge_flt (x y : float) :
  x <> S754_nan -> y <> S754_nan -> fge x y = false -> flt x y = true.
Proof.
  intros Hx Hy. unfold fge, flt, SFleb, SFltb.
  destruct (SFcompare y x) as [c|] eqn:Hc.
  - rewrite (SFcompare_antisym x y c Hc). destruct c; simpl; congruence.
  - destruct x, y; simpl in Hc; try discriminate; congruence.
Qed.

Lemma float_of_size_not_nan (n : N) : float_of_size n <> S754_nan.
Proof.
  destruct (N.eq_dec n 0%N) as [->|Hn]; [discriminate|].
  pose proof (float_of_size_pos n Hn) as H.
  destruct (float_of_size n); simpl in H; [discriminate..|contradiction|discriminate].
Qed.

Lemma fmul_half_not_nan (n : N) :
  fmul (float_of_size n) MaxDeletedLoadFactor <> S754_nan.
Proof.
  destruct (N.eq_dec n 0%N) as [->|Hn]; [discriminate|].
  pose proof (fmul_half_pos _ (float_of_size_pos n Hn)) as H.
  destruct (fmul (float_of_size n) MaxDeletedLoadFactor); simpl in H;
    [discriminate..|contradiction|discriminate].
Qed.

Lemma shr_fexp_normal (m : positive) (e : Z) :
  normal24 m e ->
  shr_fexp prec emax (Zpos m) e loc_Exact = (shr_record_of_loc (Zpos m) loc_Exact, e).
Proof.
  intros [Hd He]. unfold shr_fexp, fexp, SpecFloat.emin, prec, emax.
  rewrite Hd. replace (Z.max (24 + e - 24) (3 - 128 - 24) - e) with 0 by lia.
  reflexivity.
Qed.

Lemma round_normal (m : positive) (e : Z) :
  normal24 m e ->
  (let '(mrs, e') := shr_fexp prec emax (Zpos m) e loc_Exact in
   match shr_m mrs with
   | 0 => S754_zero false
   | Zpos m' => if e' <=? emax - prec then S754_finite false m' e'
                else S754_infinity false
   | Zneg _ => S754_nan
   end) = S754_finite false m e.
Proof.
  intros Hn. rewrite (shr_fexp_normal m e Hn). destruct Hn as [_ He].
  cbn [shr_record_of_loc shr_m]. unfold prec, emax.
  destruct (Z.leb_spec e (128 - 24)) as [_|?]; [reflexivity|lia].
Qed.

Lemma binary_round_aux_normal (m : positive) (e : Z) :
  normal24 m e ->
  binary_round_aux prec emax false (Zpos m) e loc_Exact = S754_finite false m e.
Proof.
  intros Hn. unfold binary_round_aux. rewrite (shr_fexp_normal m e Hn).
  cbn [shr_record_of_loc shr_m loc_of_shr_record round_nearest_even].
  apply round_normal. exact Hn.
Qed.

Lemma iter_xO_pow (p k : positive) :
  Zpos (Pos.iter xO p k) = Zpos p * 2 ^ Zpos k.
Proof.
  induction k as [|k IH] using Pos.peano_ind.
  - simpl. lia.
  - rewrite Pos.iter_succ, Pos2Z.inj_xO, IH, Pos2Z.inj_succ, Z.pow_succ_r by lia. lia.
Qed.

(** The conversion of a [size_t] below [2^24] is exact. *)
Lemma float_of_size_exact (n : N) :
  (0 < n < 2 ^ 24)%N ->
  exists (m : positive) (e : Z),
    float_of_size n = S754_finite false m e
    /\ normal24 m e /\ -23 <= e <= 0 /\ Zpos m = Z.of_N n * 2 ^ (- e).
Proof.
  destruct n as [|p]; [lia|]. intros [_ Hlt].
  assert (Hp : Zpos p < 2 ^ 24) by lia. clear Hlt.
  unfold float_of_size. cbn [Z.of_N]. unfold binary_normalize, binary_round.
  pose proof (Zdigits2_log2 p) as Hdig. unfold Zdigits2 in Hdig.
  assert (Hlog : 0 <= Z.log2 (Zpos p) < 24).
  { split; [apply Z.log2_nonneg|]. apply Z.log2_lt_pow2; lia. }
  unfold shl_align, fexp, SpecFloat.emin, prec, emax. rewrite Hdig.
  set (d := Z.log2 (Zpos p)) in *.
  replace (Z.max (d + 1 + 0 - 24) (3 - 128 - 24) - 0) with (d - 23) by lia.
  destruct (d - 23) as [|k|k] eqn:Hk; try lia.
  - exists p, 0. split; [|split; [|split]]; try lia.
    + replace (Z.max (d + 1 + 0 - 24) (3 - 128 - 24)) with 0 by lia.
      apply binary_round_aux_normal. split; [|lia]. rewrite Zdigits2_log2. fold d. lia.
    + split; [|lia]. rewrite Zdigits2_log2. fold d. lia.
  - exists (Pos.iter xO p k), (- Zpos k).
    assert (Hnorm : normal24 (Pos.iter xO p k) (- Zpos k)).
    { split; [|lia]. unfold Zdigits2. rewrite digits2_pos_iter_xO.
      rewrite Pos2Z.inj_add, Hdig. lia. }
    split; [|split; [exact Hnorm|split; [lia|]]].
    + replace (Z.max (d + 1 + 0 - 24) (3 - 128 - 24)) with (- Zpos k) by lia.
      apply binary_round_aux_normal. exact Hnorm.
    + rewrite iter_xO_pow, Z.opp_involutive. reflexivity.
Qed.

Lemma shr_23_exact (m : positive) :
  SpecFloat.iter_pos shr_1 23 (shr_record_of_loc (Zpos (8388608 * m)) loc_Exact)
  = shr_record_of_loc (Zpos m) loc_Exact.
Proof. reflexivity. Qed.

(** Halving a normal number is exact. *)
Lemma fmul_half_normal (m : positive) (e : Z) :
  normal24 m e -> -125 <= e ->
  fmul (S754_finite false m e) MaxDeletedLoadFactor = S754_finite false m (e - 1).
Proof.
  intros [Hd He] Hlo. unfold fmul, MaxDeletedLoadFactor, SFmul. cbn [xorb].
  assert (Hd' : Zdigits2 (Zpos (m * 8388608)) = 47).
  { rewrite Zdigits2_log2, Pos2Z.inj_mul. change (Zpos 8388608) with (2 ^ 23).
    rewrite Z.log2_mul_pow2 by lia. rewrite Zdigits2_log2 in Hd. lia. }
  unfold binary_round_aux.
  assert (Hshift : shr_fexp prec emax (Zpos (m * 8388608)) (e + -24) loc_Exact
                   = (shr_record_of_loc (Zpos m) loc_Exact, e - 1)).
  { unfold shr_fexp. rewrite Hd'. unfold fexp, SpecFloat.emin, prec, emax.
    replace (Z.max (47 + (e + -24) - 24) (3 - 128 - 24) - (e + -24)) with 23 by lia.
    unfold shr. rewrite (Pos.mul_comm m 8388608), shr_23_exact. f_equal. lia. }
  rewrite Hshift.
  cbn [shr_record_of_loc shr_m loc_of_shr_record round_nearest_even].
  apply round_normal. split; [exact Hd|lia].
Qed.

Lemma normal24_bounds (m : positive) (e : Z) :
  normal24 m e -> 2 ^ 23 <= Zpos m < 2 ^ 24.
Proof.
  intros [Hd _]. rewrite Zdigits2_log2 in Hd.
  assert (Hlog : Z.log2 (Zpos m) = 23) by lia.
  pose proof (Z.log2_spec (Zpos m) eq_refl) as H. rewrite Hlog in H. exact H.
Qed.

(** On normal numbers [<] compares the values. *)
Lemma flt_normal (m1 m2 : positive) (e1 e2 L : Z) :
  normal24 m1 e1 -> normal24 m2 e2 -> L <= e1 -> L <= e2 ->
  flt (S754_finite false m1 e1) (S754_finite false m2 e2) = true
  <-> Zpos m1 * 2 ^ (e1 - L) < Zpos m2 * 2 ^ (e2 - L).
Proof.
  intros H1 H2 HL1 HL2.
  apply normal24_bounds in H1, H2.
  assert (Ha : 0 < 2 ^ (e1 - L)) by (apply Z.pow_pos_nonneg; lia).
  assert (Hb : 0 < 2 ^ (e2 - L)) by (apply Z.pow_pos_nonneg; lia).
  unfold flt, SFltb, SFcompare.
  destruct (Z.compare_spec e1 e2) as [->|Hlt|Hgt].
  - change (Pos.compare_cont Eq m1 m2) with (m1 ?= m2)%positive.
    destruct (Pos.compare_spec m1 m2) as [->|Hm|Hm]; split; intros H;
      try discriminate; try reflexivity; nia.
  - split; [intros _|reflexivity].
    assert (Hpow : 2 * 2 ^ (e1 - L) <= 2 ^ (e2 - L)).
    { rewrite <- Z.pow_succ_r by lia. apply Z.pow_le_mono_r; lia. }
    nia.
  - split; [discriminate|intros H; exfalso].
    assert (Hpow : 2 * 2 ^ (e2 - L) <= 2 ^ (e1 - L)).
    { rewrite <- Z.pow_succ_r by lia. apply Z.pow_le_mono_r; lia. }
    nia.
Qed.

(** Below [2^24] the float comparison of the tombstone test is the
    comparison of the integers. *)
Lemma tombstone_test_exact (d s : N) :
  (d < 2 ^ 24)%N -> (s < 2 ^ 24)%N ->
  flt (float_of_size d) (fmul (float_of_size s) MaxDeletedLoadFactor) = true
  <-> (2 * d < s)%N.
Proof.
  intros Hd Hs.
  destruct (N.eq_dec s 0%N) as [->|Hs0].
  - change (fmul (float_of_size 0%N) MaxDeletedLoadFactor) with (S754_zero false).
    split; [|lia]. destruct (N.eq_dec d 0%N) as [->|Hd0]; [discriminate|].
    destruct (float_of_size_exact d ltac:(lia)) as (m & e & -> & _).
    discriminate.
  - destruct (float_of_size_exact s ltac:(lia)) as (ms & es & -> & Hns & Hes & Hms).
    rewrite (fmul_half_normal ms es Hns) by lia.
    destruct (N.eq_dec d 0%N) as [->|Hd0].
    + split; [lia|reflexivity].
    + destruct (float_of_size_exact d ltac:(lia)) as (md & ed & -> & Hnd & Hed & Hmd).
      rewrite (flt_normal md ms ed (es - 1) (-25)); try lia; try assumption.
      * rewrite Hmd, Hms, <- !Z.mul_assoc, <- !Z.pow_add_r by lia.
        replace (- ed + (ed - -25)) with 25 by lia.
        replace (- es + (es - 1 - -25)) with 24 by lia. lia.
      * destruct Hns as [Hdig ?]. split; [exact Hdig|lia].
Qed.

End Binary32.

(** ** Probe walks that stop *)

Section Termination.

Context {K V : Type}.
Variable Hash : K -> N.
Variable Eq : K -> K -> bool.

Lemma cell_read_OutOfFuel {T : Type} (v : FixedUninitVec T) (n : N) :
  cell_read v n <> OutOfFuel.
Proof.
  unfold cell_read, cell. destruct (n <? fsize_ v); [|discriminate].
  destruct (data_ v !! N.to_nat n) as [[x|]|]; discriminate.
Qed.

(** The walk of [doFind] stops at the latest on the first [Empty] byte:
    [n] cells away, it needs no more than [n + 1] iterations. *)
Lemma doFind_loop_reaches_Empty (n fuel : nat) (t : HashMap K V) (k : K) (h2 idex : N) :
  capacity_ t < size_t_modulus ->
  idex < capacity_ t ->
  metadata_ t !! N.to_nat ((idex + N.of_nat n) mod capacity_ t) = Some detail.Empty ->
  (n < fuel)%nat ->
  doFind_loop Eq fuel t k h2 idex <> OutOfFuel.
Proof.
  intros Hcap. revert fuel idex.
  induction n as [|n IH]; intros fuel idex Hi He Hfuel;
    (destruct fuel as [|fuel]; [lia|]); cbn [doFind_loop].
  - rewrite N.add_0_r, N.mod_small in He by assumption.
    unfold meta_get. rewrite He. cbn [obind].
    change (detail.Empty =? detail.Empty) with true.
    destruct (detail.Empty =? h2); cbn [obind]; [|discriminate].
    destruct (cell_read (slots_ t) idex) as [s| | |] eqn:Hc; cbn [obind];
      try discriminate; [|destruct (cell_read_OutOfFuel _ _ Hc)].
    destruct (Eq k (key s)); discriminate.
  - unfold meta_get. destruct (metadata_ t !! N.to_nat idex) as [m|]; cbn [obind];
      [|discriminate].
    assert (Hnext : doFind_loop Eq fuel t k h2 ((idex + 1) mod capacity_ t) <> OutOfFuel).
    { apply IH; [apply N.mod_lt; lia| |lia].
      rewrite N.Div0.add_mod_idemp_l.
      replace (idex + 1 + N.of_nat n) with (idex + N.of_nat (S n)) by lia.
      exact He. }
    assert (Hstep : (if m =? detail.Empty then Ret None
                     else let* next := umod (wrap (idex + 1)) (capacity_ t) in
                          doFind_loop Eq fuel t k h2 next) <> OutOfFuel).
    { destruct (m =? detail.Empty); [discriminate|].
      unfold umod, wrap. destruct (N.eqb_spec (capacity_ t) 0) as [?|_]; [lia|].
      rewrite (N.mod_small (idex + 1)) by lia. cbn [obind]. exact Hnext. }
    destruct (m =? h2); cbn [obind]; [|exact Hstep].
    destruct (cell_read (slots_ t) idex) as [s| | |] eqn:Hc; cbn [obind];
      try discriminate; [|destruct (cell_read_OutOfFuel _ _ Hc)].
    destruct (Eq k (key s)); [discriminate|exact Hstep].
Qed.

End Termination.

(** ** The cell of the key's bucket *)

Section FirstCell.

Context {K V : Type}.
Variable Hash : K -> N.
Variable Eq : K -> K -> bool.

(** When the cell of the key's bucket is free, the slot goes there. *)
Lemma insertUnchecked_at_bucket (fuel : nat) (s : Slot K V) (t : HashMap K V)
    (m : detail.metadata_t) (c : option (Slot K V)) :
  capacity_ t <> 0 ->
  metadata_ t !! N.to_nat (bucket Hash t (key s)) = Some m ->
  detail.IsFree m = true ->
  bucket Hash t (key s) < fsize_ (slots_ t) ->
  data_ (slots_ t) !! N.to_nat (bucket Hash t (key s)) = Some c ->
  insertUnchecked Hash Eq (S fuel) s t
  = Ret (Some (bucket Hash t (key s)),
         mkHashMap (capacity_ t) (wrap (size_ t + 1))
           (<[N.to_nat (bucket Hash t (key s)) := detail.H2 (Hash (key s))]> (metadata_ t))
           (mkFixedUninitVec (fsize_ (slots_ t))
              (<[N.to_nat (bucket Hash t (key s)) := Some s]> (data_ (slots_ t))))
           (deletedCount_ t)).
Proof.
  unfold bucket. set (i := detail.H1 (Hash (key s)) mod capacity_ t).
  intros Hc Hm Hfree Hlt Hd.
  unfold insertUnchecked, locationForInsertion, umod. cbv zeta. fold i.
  destruct (N.eqb_spec (capacity_ t) 0) as [?|_]; [contradiction|].
  cbn [obind locationForInsertion_loop].
  unfold meta_get. rewrite Hm. cbn [obind]. rewrite Hfree. cbn [obind idex h2].
  unfold meta_set.
  destruct (Nat.ltb_spec (N.to_nat i) (length (metadata_ t))) as [_|Hge].
  - cbn [obind]. unfold cell_write, cell.
    destruct (N.ltb_spec i (fsize_ (slots_ t))) as [_|?]; [|lia].
    rewrite Hd. reflexivity.
  - apply lookup_lt_Some in Hm. lia.
Qed.

(** When the cell of the key's bucket holds the key, [doFind] answers it. *)
Lemma doFind_at_bucket (fuel : nat) (k : K) (t : HashMap K V) (s : Slot K V) :
  capacity_ t <> 0 ->
  metadata_ t !! N.to_nat (bucket Hash t k) = Some (detail.H2 (Hash k)) ->
  bucket Hash t k < fsize_ (slots_ t) ->
  data_ (slots_ t) !! N.to_nat (bucket Hash t k) = Some (Some s) ->
  Eq k (key s) = true ->
  doFind Hash Eq (S fuel) t k = Ret (Some (bucket Hash t k)).
Proof.
  unfold bucket. set (i := detail.H1 (Hash k) mod capacity_ t).
  intros Hc Hm Hlt Hd Hk. unfold doFind, umod. cbv zeta. fold i.
  destruct (N.eqb_spec (capacity_ t) 0) as [?|_]; [contradiction|].
  cbn [obind doFind_loop].
  unfold meta_get. rewrite Hm. cbn [obind]. rewrite N.eqb_refl.
  unfold cell_read, cell.
  destruct (N.ltb_spec i (fsize_ (slots_ t))) as [_|?]; [|lia].
  rewrite Hd. cbn [obind]. rewrite Hk. reflexivity.
Qed.

End FirstCell.

Lemma H2_lt (hash : N) : detail.H2 hash < 128.
Proof.
  unfold detail.H2. change 127 with (N.ones 7). rewrite N.land_ones.
  apply N.mod_lt. discriminate.
Qed.


Section Refusal.

Context {K V : Type}.
Variable Hash : K -> N.
Variable Eq : K -> K -> bool.

(** Without tombstones the two probe walks agree: where [doFind] finds the
    key, [locationForInsertion] refuses. *)
Lemma locationForInsertion_loop_found (fuel : nat) (t : HashMap K V) (k : K)
    (h2 idex j : N) :
  no_tombstone t -> h2 < 128 ->
  doFind_loop Eq fuel t k h2 idex = Ret (Some j) ->
  locationForInsertion_loop Eq fuel t k h2 idex = Ret None.
Proof.
  intros Hnt Hh. revert idex.
  induction fuel as [|fuel IH]; intros idex; cbn [doFind_loop locationForInsertion_loop];
    [discriminate|].
  unfold meta_get. destruct (metadata_ t !! N.to_nat idex) as [m|] eqn:Hm;
    cbn [obind]; [|discriminate].
  destruct (detail.IsFree m) eqn:Hfree.
  - rewrite (Hnt _ _ Hm Hfree).
    destruct (N.eqb_spec detail.Empty h2) as [He|_];
      [unfold detail.Empty in He; lia|].
    cbn [obind]. discriminate.
  - destruct (if m =? h2
              then let* s := cell_read (slots_ t) idex in Ret (Eq k (key s))
              else Ret false) as [[|]| | |]; cbn [obind]; try discriminate.
    + reflexivity.
    + destruct (N.eqb_spec m detail.Empty) as [->|_]; [discriminate|].
      destruct (umod (wrap (idex + 1)) (capacity_ t)); cbn [obind];
        try discriminate. apply IH.
Qed.

End Refusal.

Section Clear.

Context {K V : Type}.

(** The loop of [clear] writes [Empty] over the cells it visits and leaves
    the other bytes alone. *)
Lemma clear_loop_metadata (n : nat) (i : N) (md md' : list detail.metadata_t)
    (sl sl' : FixedUninitVec (Slot K V)) :
  clear_loop n i md sl = Ret (md', sl') ->
  fsize_ sl' = fsize_ sl /\
  forall j : nat,
    md' !! j = if decide (N.to_nat i <= j < N.to_nat i + n)%nat
               then Some detail.Empty else md !! j.
Proof.
  revert i md sl. induction n as [|n IH]; intros i md sl; cbn [clear_loop].
  - intros [= <- <-]. split; [reflexivity|]. intros j.
    destruct (decide _) as [?|_]; [lia|reflexivity].
  - intros H. apply obind_Ret in H as (m & Hm & H).
    apply obind_Ret in H as (sl1 & Hsl1 & H).
    apply obind_Ret in H as (md1 & Hmd1 & H).
    apply IH in H as [Hsz H]. split.
    + rewrite Hsz. destruct (negb (detail.IsFree m)).
      * apply obind_Ret in Hsl1 as (s & _ & Hsl1). unfold cell_write in Hsl1.
        apply obind_Ret in Hsl1 as (c & _ & Hsl1). injection Hsl1 as <-. reflexivity.
      * injection Hsl1 as <-. reflexivity.
    + intros j. rewrite H. unfold meta_set in Hmd1.
      destruct (Nat.ltb_spec (N.to_nat i) (length md)) as [Hlt|?]; [|discriminate].
      injection Hmd1 as <-.
      replace (N.to_nat (i + 1)) with (S (N.to_nat i)) by lia.
      destruct (decide (S (N.to_nat i) <= j < S (N.to_nat i) + n)%nat) as [?|Hout];
        destruct (decide (N.to_nat i <= j < N.to_nat i + S n)%nat) as [?|Hout'];
        try reflexivity; try lia.
      * assert (j = N.to_nat i) as -> by lia.
        apply list_lookup_insert_eq. exact Hlt.
      * apply list_lookup_insert_ne. lia.
Qed.

End Clear.


(** ** The invariants of the data model *)

Section Invariant.

Context {K V : Type}.
Variable Hash : K -> N.
Variable Eq : K -> K -> bool.

Lemma IsFree_Empty : detail.IsFree detail.Empty = true.
Proof. reflexivity. Qed.

Lemma not_free_not_Empty (m : detail.metadata_t) :
  detail.IsFree m = false -> m <> detail.Empty.
Proof. intros H ->. discriminate. Qed.

Lemma IsFree_H2 (hash : N) : detail.IsFree (detail.H2 hash) = false.
Proof.
  unfold detail.IsFree. apply N.leb_gt. apply H2_lt.
Qed.

Lemma well_formed_new (c : N) :
  c < size_t_modulus -> well_formed Hash (HashMap_new (K:=K) (V:=V) c).
Proof.
  intros Hc. unfold well_formed, HashMap_new, FixedUninitVec_new. cbn.
  rewrite !length_replicate. repeat split; auto.
  intros j m Hm Hfree. apply lookup_replicate in Hm as [-> _]. discriminate.
Qed.

Lemma probe_lt (t : HashMap K V) (b : N) (d : nat) :
  capacity_ t <> 0 -> (probe t b d < N.to_nat (capacity_ t))%nat.
Proof.
  intros Hc. unfold probe. pose proof (N.mod_lt (b + N.of_nat d) (capacity_ t) Hc). lia.
Qed.

Lemma probe_0 (t : HashMap K V) (b : N) :
  b < capacity_ t -> probe t b 0 = N.to_nat b.
Proof. intros Hb. unfold probe. rewrite N.add_0_r, N.mod_small by assumption. reflexivity. Qed.

Lemma probe_S (t : HashMap K V) (b : N) (d : nat) :
  capacity_ t <> 0 ->
  probe t ((b + 1) mod capacity_ t) d = probe t b (S d).
Proof.
  intros Hc. unfold probe. rewrite N.Div0.add_mod_idemp_l. f_equal. f_equal. lia.
Qed.

Lemma probe_period (t : HashMap K V) (b : N) (d : nat) :
  probe t b (d + N.to_nat (capacity_ t)) = probe t b d.
Proof.
  unfold probe. f_equal.
  replace (b + N.of_nat (d + N.to_nat (capacity_ t)))
    with (b + N.of_nat d + 1 * capacity_ t) by lia.
  apply N.Div0.mod_add.
Qed.

(** What [locationForInsertion] answers: the first free cell of the walk,
    fewer than capacity steps away, behind cells that are all live. *)
Lemma locationForInsertion_loop_Some (fuel : nat) (t : HashMap K V) (k : K)
    (hh i0 : N) (l : InsertionLoc) :
  capacity_ t < size_t_modulus -> i0 < capacity_ t ->
  locationForInsertion_loop Eq fuel t k hh i0 = Ret (Some l) ->
  h2 l = hh /\
  exists (n : nat) (m : detail.metadata_t),
    N.to_nat (idex l) = probe t i0 n
    /\ idex l < capacity_ t
    /\ metadata_ t !! N.to_nat (idex l) = Some m /\ detail.IsFree m = true
    /\ forall d : nat, (d < n)%nat ->
         exists m' : detail.metadata_t,
           metadata_ t !! probe t i0 d = Some m' /\ detail.IsFree m' = false.
Proof.
  intros Hcap. revert i0.
  induction fuel as [|fuel IH]; intros i0 Hi0; cbn [locationForInsertion_loop];
    [discriminate|].
  unfold meta_get. destruct (metadata_ t !! N.to_nat i0) as [m|] eqn:Hm;
    cbn [obind]; [|discriminate].
  destruct (detail.IsFree m) eqn:Hfree.
  - intros [= <-]. cbn [h2 idex]. split; [reflexivity|].
    exists 0%nat, m. rewrite probe_0 by assumption.
    repeat split; auto. intros d Hd. lia.
  - intros H. apply obind_Ret in H as (found & _ & H).
    destruct found; [discriminate|].
    unfold umod, wrap in H.
    destruct (N.eqb_spec (capacity_ t) 0) as [?|Hc]; [lia|].
    rewrite (N.mod_small (i0 + 1)) in H by lia. cbn [obind] in H.
    apply IH in H as (Hh & n & m' & Hidx & Hlt & Hm' & Hfree' & Hwalk);
      [|apply N.mod_lt; assumption].
    split; [exact Hh|]. exists (S n), m'.
    rewrite probe_S in Hidx by assumption.
    repeat split; auto.
    intros [|d] Hd.
    + exists m. rewrite probe_0 by assumption. auto.
    + rewrite <- probe_S by assumption. apply Hwalk. lia.
Qed.

Lemma first_free_within_capacity (t : HashMap K V) (i0 : N) (n : nat) (j : nat)
    (m : detail.metadata_t) :
  capacity_ t <> 0 ->
  j = probe t i0 n ->
  metadata_ t !! j = Some m -> detail.IsFree m = true ->
  (forall d : nat, (d < n)%nat ->
     exists m' : detail.metadata_t,
       metadata_ t !! probe t i0 d = Some m' /\ detail.IsFree m' = false) ->
  (n < N.to_nat (capacity_ t))%nat.
Proof.
  intros Hc Hj Hm Hfree Hwalk.
  destruct (Nat.lt_ge_cases n (N.to_nat (capacity_ t))) as [?|Hge]; [assumption|].
  exfalso.
  destruct (Hwalk (n - N.to_nat (capacity_ t))%nat) as (m' & Hm' & Hfree'); [lia|].
  rewrite <- probe_period in Hm'.
  replace (n - N.to_nat (capacity_ t) + N.to_nat (capacity_ t))%nat with n in Hm' by lia.
  congruence.
Qed.

Lemma probe_capacity (t t' : HashMap K V) (b : N) (d : nat) :
  capacity_ t' = capacity_ t -> probe t' b d = probe t b d.
Proof. unfold probe. intros ->. reflexivity. Qed.

Lemma bucket_capacity (t t' : HashMap K V) (k : K) :
  capacity_ t' = capacity_ t -> bucket Hash t' k = bucket Hash t k.
Proof. unfold bucket. intros ->. reflexivity. Qed.

(** Writing a byte that is not [Empty] creates no [Empty] byte. *)
Lemma insert_not_Empty (md : list detail.metadata_t) (p x : nat)
    (m : detail.metadata_t) :
  m <> detail.Empty -> md !! x <> Some detail.Empty ->
  <[p := m]> md !! x <> Some detail.Empty.
Proof.
  intros Hm Hx. destruct (decide (p = x)) as [->|Hne].
  - destruct (Nat.lt_ge_cases x (length md)) as [Hlt|Hge].
    + rewrite list_lookup_insert_eq by assumption. congruence.
    + rewrite list_insert_ge by assumption. exact Hx.
  - rewrite list_lookup_insert_ne by assumption. exact Hx.
Qed.

(** A table keeps its invariants when one cell changes to a byte that is
    not [Empty], provided the cell ends up free or well placed. *)
Lemma well_formed_update (t : HashMap K V) (p : nat) (m : detail.metadata_t)
    (c : option (Slot K V)) (sz dc : N) :
  well_formed Hash t ->
  m <> detail.Empty ->
  (detail.IsFree m = false ->
   exists (s : Slot K V) (n : nat),
     c = Some s /\ (p < N.to_nat (capacity_ t))%nat
     /\ m = detail.H2 (Hash (key s))
     /\ p = probe t (bucket Hash t (key s)) n
     /\ (n < N.to_nat (capacity_ t))%nat
     /\ forall d : nat, (d < n)%nat ->
          metadata_ t !! probe t (bucket Hash t (key s)) d <> Some detail.Empty) ->
  well_formed Hash
    (mkHashMap (capacity_ t) sz (<[p := m]> (metadata_ t))
       (mkFixedUninitVec (fsize_ (slots_ t)) (<[p := c]> (data_ (slots_ t)))) dc).
Proof.
  intros (Hcap & Hlmd & Hfs & Hlds & Hlive) Hm Hnew.
  unfold well_formed. cbn [capacity_ metadata_ slots_ fsize_ data_].
  rewrite !length_insert. repeat split; auto.
  intros j m' Hj Hfree.
  destruct (decide (p = j)) as [<-|Hne].
  - assert (Hp : (p < length (metadata_ t))%nat).
    { apply lookup_lt_Some in Hj. rewrite length_insert in Hj. exact Hj. }
    rewrite list_lookup_insert_eq in Hj by assumption. injection Hj as <-.
    destruct (Hnew Hfree) as (s & n & -> & Hpc & Hh & Hpr & Hn & Hwalk).
    exists s, n. split; [|split; [|split; [|split]]].
    + apply list_lookup_insert_eq. lia.
    + exact Hh.
    + exact Hpr.
    + exact Hn.
    + intros d Hd. apply insert_not_Empty; [exact Hm|]. apply Hwalk. exact Hd.
  - rewrite list_lookup_insert_ne in Hj by assumption.
    destruct (Hlive j m' Hj Hfree) as (s & n & Hd & Hh & Hpr & Hn & Hwalk).
    exists s, n. split; [|split; [|split; [|split]]].
    + rewrite list_lookup_insert_ne by assumption. exact Hd.
    + exact Hh.
    + exact Hpr.
    + exact Hn.
    + intros d Hdn. apply insert_not_Empty; [exact Hm|]. apply Hwalk. exact Hdn.
Qed.

Lemma meta_set_Ret (md md' : list detail.metadata_t) (i : N) (m : detail.metadata_t) :
  meta_set md i m = Ret md' -> md' = <[N.to_nat i := m]> md.
Proof.
  unfold meta_set. destruct (_ <? _)%nat; [|discriminate]. intros [= <-]. reflexivity.
Qed.

Lemma cell_write_Ret {T : Type} (v v' : FixedUninitVec T) (n : N) (c : option T) :
  cell_write v n c = Ret v' ->
  v' = mkFixedUninitVec (fsize_ v) (<[N.to_nat n := c]> (data_ v)).
Proof.
  unfold cell_write. intros H. apply obind_Ret in H as (x & _ & H).
  injection H as <-. reflexivity.
Qed.

Lemma umod_Ret (a b r : N) : umod a b = Ret r -> b <> 0 /\ r = a mod b.
Proof.
  unfold umod. destruct (N.eqb_spec b 0) as [?|Hb]; [discriminate|].
  intros [= <-]. auto.
Qed.

Lemma insertUnchecked_well_formed (fuel : nat) (s : Slot K V) (t t' : HashMap K V)
    (r : option N) :
  well_formed Hash t ->
  insertUnchecked Hash Eq fuel s t = Ret (r, t') -> well_formed Hash t'.
Proof.
  intros Hwf H. unfold insertUnchecked, locationForInsertion in H. cbv zeta in H.
  apply obind_Ret in H as ([l|] & Hloc & H); [|injection H as _ <-; exact Hwf].
  apply obind_Ret in Hloc as (i0 & Hi0 & Hloc).
  apply umod_Ret in Hi0 as [Hc Hi0].
  assert (Hcap : capacity_ t < size_t_modulus) by apply Hwf.
  apply locationForInsertion_loop_Some in Hloc
    as (Hh & n & m & Hidx & Hlt & Hm & Hfree & Hwalk);
    [|assumption|subst i0; apply N.mod_lt; assumption].
  apply obind_Ret in H as (md & Hmd & H). apply obind_Ret in H as (sl & Hsl & H).
  injection H as _ <-.
  apply meta_set_Ret in Hmd as ->. apply cell_write_Ret in Hsl as ->.
  apply well_formed_update; [exact Hwf| |].
  - rewrite Hh. apply not_free_not_Empty, IsFree_H2.
  - intros _. exists s, n. fold (bucket Hash t (key s)) in Hi0. subst i0.
    split; [reflexivity|]. split; [lia|]. split; [exact Hh|].
    split; [exact Hidx|]. split.
    + eapply first_free_within_capacity; eauto.
    + intros d Hd. destruct (Hwalk d Hd) as (m' & -> & Hfree').
      intros [= ->]. discriminate.
Qed.

Lemma deleteSlot_well_formed (idx : N) (t t' : HashMap K V) :
  well_formed Hash t -> deleteSlot idx t = Ret t' -> well_formed Hash t'.
Proof.
  intros Hwf H. unfold deleteSlot in H.
  apply obind_Ret in H as (md & Hmd & H). apply obind_Ret in H as (s & _ & H).
  apply obind_Ret in H as (sl & Hsl & H). injection H as <-.
  apply meta_set_Ret in Hmd as ->. apply cell_write_Ret in Hsl as ->.
  apply well_formed_update; [exact Hwf|discriminate|discriminate].
Qed.

(** The invariants do not read [size_] and [deletedCount_]. *)
Lemma well_formed_counters (t : HashMap K V) (sz dc : N) :
  well_formed Hash t ->
  well_formed Hash (mkHashMap (capacity_ t) sz (metadata_ t) (slots_ t) dc).
Proof. intros H. exact H. Qed.

Lemma move_slots_well_formed (fuel : nat) (old : HashMap K V) (n : nat) (i : N)
    (newTable newTable' : HashMap K V) :
  well_formed Hash newTable ->
  move_slots Hash Eq fuel old n i newTable = Ret newTable' ->
  well_formed Hash newTable'.
Proof.
  revert i newTable. induction n as [|n IH]; intros i newTable Hwf; cbn [move_slots].
  - intros [= <-]. exact Hwf.
  - intros H. apply obind_Ret in H as (m & _ & H).
    apply obind_Ret in H as (nt & Hnt & H). apply (IH (i + 1) nt); [|exact H].
    destruct (negb (detail.IsFree m)).
    + apply obind_Ret in Hnt as (s & _ & Hnt).
      apply obind_Ret in Hnt as ([r t1] & Hins & Hnt). injection Hnt as <-.
      eapply insertUnchecked_well_formed; eauto.
    + injection Hnt as <-. exact Hwf.
Qed.

Lemma well_formed_move (t : HashMap K V) :
  well_formed Hash t -> well_formed Hash (fst (move t)).
Proof. intros H. exact H. Qed.

Lemma growAndRehash_to_well_formed (fuel : nat) (newCapacity : N) (t t' : HashMap K V) :
  well_formed Hash t -> newCapacity < size_t_modulus ->
  growAndRehash_to Hash Eq fuel newCapacity t = Ret t' -> well_formed Hash t'.
Proof.
  intros Hwf Hn H. unfold growAndRehash_to in H.
  destruct (newCapacity <=? capacity_ t); [injection H as <-; exact Hwf|].
  apply obind_Ret in H as (nt & Hnt & H). injection H as <-.
  apply well_formed_move. destruct (negb (empty t)).
  - eapply move_slots_well_formed; [|exact Hnt]. apply well_formed_new. exact Hn.
  - injection Hnt as <-. apply well_formed_new. exact Hn.
Qed.

Lemma wrap_lt (n : N) : wrap n < size_t_modulus.
Proof. unfold wrap. apply N.mod_lt. discriminate. Qed.

Lemma growAndRehash_well_formed (fuel : nat) (t t' : HashMap K V) :
  well_formed Hash t -> growAndRehash Hash Eq fuel t = Ret t' -> well_formed Hash t'.
Proof.
  intros Hwf H. unfold growAndRehash in H.
  eapply growAndRehash_to_well_formed; [exact Hwf| |exact H].
  destruct (capacity_ t =? 0); [reflexivity|apply wrap_lt].
Qed.

Lemma rehashEverything_well_formed (fuel : nat) (t t' : HashMap K V) :
  well_formed Hash t -> rehashEverything Hash Eq fuel t = Ret t' -> well_formed Hash t'.
Proof.
  intros Hwf H. unfold rehashEverything in H.
  destruct (empty t); [injection H as <-; exact Hwf|].
  apply obind_Ret in H as (nt & Hnt & H). injection H as <-.
  apply well_formed_move. eapply move_slots_well_formed; [|exact Hnt].
  apply well_formed_new. apply Hwf.
Qed.

Lemma insert_well_formed (fuel : nat) (kv : K * V) (t t' : HashMap K V)
    (r : option iterator) :
  well_formed Hash t -> insert Hash Eq fuel kv t = Ret (r, t') -> well_formed Hash t'.
Proof.
  intros Hwf H. unfold insert in H.
  apply obind_Ret in H as (t1 & Ht1 & H).
  apply obind_Ret in H as ([r1 t2] & Hins & H). injection H as _ <-.
  eapply insertUnchecked_well_formed; [|exact Hins].
  destruct (needToGrowForInsert t).
  - eapply growAndRehash_well_formed; eauto.
  - injection Ht1 as <-. exact Hwf.
Qed.

Lemma erase_it_well_formed (fuel : nat) (it : iterator) (t t' : HashMap K V) (b : bool) :
  well_formed Hash t -> erase_it Hash Eq fuel it t = Ret (b, t') -> well_formed Hash t'.
Proof.
  intros Hwf H. unfold erase_it in H.
  destruct (it =? end_ t); [injection H as _ <-; exact Hwf|].
  destruct (negb (it <? capacity_ t)); [discriminate|].
  apply obind_Ret in H as (t1 & Ht1 & H).
  apply obind_Ret in H as (t3 & Ht3 & H). injection H as _ <-.
  apply deleteSlot_well_formed in Ht1; [|exact Hwf].
  match type of Ht3 with
  | (if needRehash ?t2 then _ else _) = _ =>
      assert (Hwf2 : well_formed Hash t2) by (apply well_formed_counters; exact Ht1);
      destruct (needRehash t2)
  end.
  - eapply rehashEverything_well_formed; eauto.
  - injection Ht3 as <-. exact Hwf2.
Qed.

Lemma erase_well_formed (fuel : nat) (k : K) (t t' : HashMap K V) (b : bool) :
  well_formed Hash t -> erase Hash Eq fuel k t = Ret (b, t') -> well_formed Hash t'.
Proof.
  intros Hwf H. unfold erase in H. apply obind_Ret in H as (it & _ & H).
  eapply erase_it_well_formed; eauto.
Qed.


Lemma clear_loop_lengths (n : nat) (i : N) (md md' : list detail.metadata_t)
    (sl sl' : FixedUninitVec (Slot K V)) :
  clear_loop n i md sl = Ret (md', sl') ->
  length md' = length md /\ length (data_ sl') = length (data_ sl).
Proof.
  revert i md sl. induction n as [|n IH]; intros i md sl; cbn [clear_loop].
  - intros [= <- <-]. auto.
  - intros H. apply obind_Ret in H as (m & _ & H).
    apply obind_Ret in H as (sl1 & Hsl1 & H).
    apply obind_Ret in H as (md1 & Hmd1 & H).
    apply IH in H as [-> ->]. apply meta_set_Ret in Hmd1 as ->.
    rewrite length_insert. split; [reflexivity|].
    destruct (negb (detail.IsFree m)).
    + apply obind_Ret in Hsl1 as (s & _ & Hsl1).
      apply cell_write_Ret in Hsl1 as ->. cbn [data_]. apply length_insert.
    + injection Hsl1 as <-. reflexivity.
Qed.

Lemma clear_well_formed (t t' : HashMap K V) :
  well_formed Hash t -> clear t = Ret t' -> well_formed Hash t'.
Proof.
  intros Hwf H. unfold clear in H.
  destruct (empty t); [injection H as <-; exact Hwf|].
  apply obind_Ret in H as ([md sl] & Hloop & H). injection H as <-.
  destruct Hwf as (Hcap & Hlmd & Hfs & Hlds & _).
  pose proof (clear_loop_lengths _ _ _ _ _ _ Hloop) as [Hl1 Hl2].
  pose proof (clear_loop_metadata _ _ _ _ _ _ Hloop) as [Hsz Hmd].
  unfold well_formed. cbn [capacity_ metadata_ slots_ fst snd].
  split; [exact Hcap|]. split; [congruence|]. split; [congruence|].
  split; [congruence|].
  intros j m Hj Hfree. exfalso. rewrite Hmd in Hj.
  destruct (decide (N.to_nat 0 <= j < N.to_nat 0 + N.to_nat (capacity_ t))%nat) as [_|Hout].
  - injection Hj as <-. discriminate.
  - apply lookup_lt_Some in Hj. lia.
Qed.

Lemma reserve_well_formed (fuel : nat) (n : N) (t t' : HashMap K V) :
  well_formed Hash t -> n < size_t_modulus ->
  reserve Hash Eq fuel n t = Ret t' -> well_formed Hash t'.
Proof.
  intros Hwf Hn H. unfold reserve in H.
  destruct (n <=? capacity_ t); [injection H as <-; exact Hwf|].
  eapply growAndRehash_to_well_formed; eauto.
Qed.

Lemma run_call_well_formed (fuel : nat) (c : call K V) (t t' : HashMap K V) :
  well_formed Hash t -> run_call Hash Eq fuel c t = Ret t' -> well_formed Hash t'.
Proof.
  intros Hwf H. destruct c as [kv|k|it| |n]; cbn [run_call] in H.
  - apply obind_Ret in H as ([r t1] & Hc & H). injection H as <-.
    eapply insert_well_formed; eauto.
  - apply obind_Ret in H as ([r t1] & Hc & H). injection H as <-.
    eapply erase_well_formed; eauto.
  - apply obind_Ret in H as ([r t1] & Hc & H). injection H as <-.
    eapply erase_it_well_formed; eauto.
  - eapply clear_well_formed; eauto.
  - eapply reserve_well_formed; [exact Hwf|apply wrap_lt|exact H].
Qed.

Lemma run_well_formed (fuel : nat) (cs : list (call K V)) (t t' : HashMap K V) :
  well_formed Hash t -> run Hash Eq fuel cs t = Ret t' -> well_formed Hash t'.
Proof.
  revert t. induction cs as [|c cs IH]; intros t Hwf; cbn [run].
  - intros [= <-]. exact Hwf.
  - intros H. apply obind_Ret in H as (t1 & Hc & H).
    eapply IH; [|exact H]. eapply run_call_well_formed; eauto.
Qed.

(** Where [doFind] answers not-found, the walk ends on an [Empty] byte and
    no cell before it holds the key. *)
Lemma doFind_loop_None (fuel : nat) (t : HashMap K V) (k : K)
    (hh : detail.metadata_t) (i0 : N) :
  capacity_ t < size_t_modulus -> i0 < capacity_ t ->
  doFind_loop Eq fuel t k hh i0 = Ret None ->
  exists n : nat,
    metadata_ t !! probe t i0 n = Some detail.Empty
    /\ forall (d : nat) (s : Slot K V),
         (d < n)%nat ->
         metadata_ t !! probe t i0 d = Some hh ->
         data_ (slots_ t) !! probe t i0 d = Some (Some s) ->
         Eq k (key s) = false.
Proof.
  intros Hcap. revert i0.
  induction fuel as [|fuel IH]; intros i0 Hi0; cbn [doFind_loop]; [discriminate|].
  unfold meta_get. destruct (metadata_ t !! N.to_nat i0) as [m|] eqn:Hm;
    cbn [obind]; [|discriminate].
  intros H. apply obind_Ret in H as (found & Hfound & H).
  destruct found; [discriminate|].
  destruct (N.eqb_spec m detail.Empty) as [->|Hne].
  - exists 0%nat. rewrite probe_0 by assumption. split; [exact Hm|]. intros d s Hd. lia.
  - unfold umod, wrap in H.
    destruct (N.eqb_spec (capacity_ t) 0) as [?|Hc]; [lia|].
    rewrite (N.mod_small (i0 + 1)) in H by lia. cbn [obind] in H.
    apply IH in H as (n & Hn & Hwalk); [|apply N.mod_lt; assumption].
    exists (S n). rewrite probe_S in Hn by assumption. split; [exact Hn|].
    intros [|d] s Hd Hmd Hds.
    + rewrite probe_0 in Hmd, Hds by assumption.
      assert (m = hh) as -> by congruence. rewrite N.eqb_refl in Hfound.
      apply obind_Ret in Hfound as (s' & Hs' & Hfound).
      apply cell_read_lt in Hs' as [_ Hs']. injection Hfound as Hfound.
      congruence.
    + rewrite <- probe_S in Hmd, Hds by assumption. eapply Hwalk; eauto. lia.
Qed.

Hypothesis Eq_Hash : forall x y : K, Eq x y = true -> Hash x = Hash y.

Lemma live_inv (t : HashMap K V) (j : nat) :
  live t j = true ->
  exists m : detail.metadata_t, metadata_ t !! j = Some m /\ detail.IsFree m = false.
Proof.
  unfold live. destruct (metadata_ t !! j) as [m|]; [|discriminate].
  intros H. exists m. split; [reflexivity|]. apply negb_true_iff. exact H.
Qed.

(** Not-found is sound: no live cell holds the key. *)
Lemma doFind_None_sound (fuel : nat) (t : HashMap K V) (k : K) (j : nat) (s : Slot K V) :
  well_formed Hash t ->
  doFind Hash Eq fuel t k = Ret None ->
  holds t j s -> Eq k (key s) = false.
Proof using Eq_Hash.
  intros Hwf Hfind [Hlive Hdata].
  destruct (Eq k (key s)) eqn:Hk; [exfalso|reflexivity].
  apply live_inv in Hlive as (m & Hm & Hfree).
  destruct Hwf as (Hcap & Hlmd & Hfs & Hlds & Hcells).
  destruct (Hcells j m Hm Hfree) as (s' & n' & Hd' & Hh & Hj & Hn' & Hchain).
  assert (s' = s) as -> by congruence.
  unfold doFind in Hfind. cbv zeta in Hfind.
  apply obind_Ret in Hfind as (b & Hb & Hfind). apply umod_Ret in Hb as [Hc Hb].
  fold (bucket Hash t k) in Hb. subst b.
  apply doFind_loop_None in Hfind as (n & Hn & Hwalk);
    [|assumption|apply N.mod_lt; assumption].
  assert (Hbk : bucket Hash t (key s) = bucket Hash t k)
    by (unfold bucket; rewrite (Eq_Hash _ _ Hk); reflexivity).
  rewrite Hbk in *. rewrite (Eq_Hash _ _ Hk) in Hwalk.
  destruct (lt_eq_lt_dec n n') as [[Hlt|Heq]|Hgt].
  - exact (Hchain n Hlt Hn).
  - subst n'. rewrite <- Hj in Hn. rewrite Hn in Hm. injection Hm as <-. discriminate.
  - rewrite (Hwalk n' s Hgt) in Hk; [discriminate| |]; rewrite <- Hj; congruence.
Qed.

(** A live key is found, within as many iterations as the table has cells. *)
Lemma doFind_loop_finds (n fuel : nat) (t : HashMap K V) (k : K) (i0 : N) (s : Slot K V) :
  well_formed Hash t -> i0 < capacity_ t -> (n < fuel)%nat ->
  metadata_ t !! probe t i0 n = Some (detail.H2 (Hash k)) ->
  data_ (slots_ t) !! probe t i0 n = Some (Some s) ->
  Eq k (key s) = true ->
  (forall d : nat, (d < n)%nat -> metadata_ t !! probe t i0 d <> Some detail.Empty) ->
  exists i : N, doFind_loop Eq fuel t k (detail.H2 (Hash k)) i0 = Ret (Some i).
Proof.
  intros Hwf. pose proof Hwf as (Hcap & Hlmd & Hfs & Hlds & Hcells).
  revert fuel i0. induction n as [|n IH]; intros fuel i0 Hi0 Hfuel Hm Hd Hk Hchain;
    (destruct fuel as [|fuel]; [lia|]); cbn [doFind_loop]; unfold meta_get.
  - rewrite probe_0 in Hm, Hd by assumption. rewrite Hm. cbn [obind].
    rewrite N.eqb_refl. unfold cell_read, cell.
    destruct (N.ltb_spec i0 (fsize_ (slots_ t))) as [_|?]; [|lia].
    rewrite Hd. cbn [obind]. rewrite Hk. eauto.
  - destruct (metadata_ t !! N.to_nat i0) as [m|] eqn:Hm0;
      [|apply lookup_ge_None in Hm0; lia].
    cbn [obind].
    assert (Hnext : exists i : N,
               (if m =? detail.Empty then Ret None
                else let* next := umod (wrap (i0 + 1)) (capacity_ t) in
                     doFind_loop Eq fuel t k (detail.H2 (Hash k)) next)
               = Ret (Some i)).
    { destruct (N.eqb_spec m detail.Empty) as [->|_].
      - exfalso. apply (Hchain 0%nat); [lia|]. rewrite probe_0 by assumption. exact Hm0.
      - unfold umod, wrap. destruct (N.eqb_spec (capacity_ t) 0) as [?|Hc]; [lia|].
        rewrite (N.mod_small (i0 + 1)) by lia. cbn [obind].
        apply IH; try assumption.
        + apply N.mod_lt. assumption.
        + lia.
        + rewrite probe_S by assumption. exact Hm.
        + rewrite probe_S by assumption. exact Hd.
        + intros d Hdn. rewrite probe_S by assumption. apply Hchain. lia. }
    destruct (N.eqb_spec m (detail.H2 (Hash k))) as [->|_]; [|exact Hnext].
    destruct (Hcells _ _ Hm0 (IsFree_H2 _)) as (s0 & n0 & Hd0 & _).
    unfold cell_read, cell.
    destruct (N.ltb_spec i0 (fsize_ (slots_ t))) as [_|?]; [|lia].
    rewrite Hd0. cbn [obind]. destruct (Eq k (key s0)); [eauto|exact Hnext].
Qed.

Lemma doFind_finds (fuel : nat) (t : HashMap K V) (k : K) (j : nat) (s : Slot K V) :
  well_formed Hash t ->
  holds t j s -> Eq k (key s) = true ->
  (N.to_nat (capacity_ t) <= fuel)%nat ->
  exists i : N, doFind Hash Eq fuel t k = Ret (Some i).
Proof using Eq_Hash.
  intros Hwf [Hlive Hdata] Hk Hfuel.
  apply live_inv in Hlive as (m & Hm & Hfree).
  pose proof Hwf as (Hcap & Hlmd & Hfs & Hlds & Hcells).
  destruct (Hcells j m Hm Hfree) as (s' & n & Hd' & Hh & Hj & Hn & Hchain).
  assert (s' = s) as -> by congruence.
  assert (Hc : capacity_ t <> 0) by lia.
  unfold doFind, umod. cbv zeta.
  destruct (N.eqb_spec (capacity_ t) 0) as [?|_]; [contradiction|]. cbn [obind].
  fold (bucket Hash t k).
  assert (Hbk : bucket Hash t (key s) = bucket Hash t k)
    by (unfold bucket; rewrite (Eq_Hash _ _ Hk); reflexivity).
  rewrite Hbk in *.
  apply (doFind_loop_finds n fuel t k (bucket Hash t k) s); try assumption.
  - apply N.mod_lt. assumption.
  - lia.
  - rewrite <- Hj, Hm, Hh, (Eq_Hash _ _ Hk). reflexivity.
  - rewrite <- Hj. exact Hdata.
Qed.

(** On a table that satisfies the invariants the walk of [doFind] reads
    no cell that it may not read. *)
Lemma doFind_loop_defined (fuel : nat) (t : HashMap K V) (k k' : K) (i0 : N) :
  well_formed Hash t -> i0 < capacity_ t ->
  doFind_loop Eq fuel t k (detail.H2 (Hash k')) i0 <> Undefined.
Proof.
  intros Hwf. pose proof Hwf as (Hcap & Hlmd & Hfs & Hlds & Hcells).
  revert i0. induction fuel as [|fuel IH]; intros i0 Hi0; cbn [doFind_loop];
    [discriminate|].
  unfold meta_get. destruct (metadata_ t !! N.to_nat i0) as [m|] eqn:Hm;
    [|apply lookup_ge_None in Hm; lia].
  cbn [obind].
  assert (Hnext : (if m =? detail.Empty then Ret None
                   else let* next := umod (wrap (i0 + 1)) (capacity_ t) in
                        doFind_loop Eq fuel t k (detail.H2 (Hash k')) next)
                  <> Undefined).
  { destruct (m =? detail.Empty); [discriminate|].
    unfold umod, wrap. destruct (N.eqb_spec (capacity_ t) 0) as [?|Hc]; [lia|].
    rewrite (N.mod_small (i0 + 1)) by lia. cbn [obind].
    apply IH. apply N.mod_lt. assumption. }
  destruct (N.eqb_spec m (detail.H2 (Hash k'))) as [->|_]; [|exact Hnext].
  destruct (Hcells _ _ Hm (IsFree_H2 _)) as (s0 & n0 & Hd0 & _).
  unfold cell_read, cell.
  destruct (N.ltb_spec i0 (fsize_ (slots_ t))) as [_|?]; [|lia].
  rewrite Hd0. cbn [obind]. destruct (Eq k (key s0)); [discriminate|exact Hnext].
Qed.

Lemma doFind_defined (fuel : nat) (t : HashMap K V) (k : K) :
  well_formed Hash t -> capacity_ t <> 0 ->
  doFind Hash Eq fuel t k <> Undefined.
Proof.
  intros Hwf Hc. unfold doFind, umod. cbv zeta.
  destruct (N.eqb_spec (capacity_ t) 0) as [?|_]; [contradiction|]. cbn [obind].
  apply doFind_loop_defined; [exact Hwf|]. apply N.mod_lt. exact Hc.
Qed.

End Invariant.

(** Every table reached by public calls satisfies the invariants. *)
Lemma reachable_well_formed {K V : Type} (Hash : K -> N) (Eq : K -> K -> bool)
    (t : HashMap K V) :
  reachable Hash Eq t -> well_formed Hash t.
Proof.
  intros (c & cs & fuel & Hc & Hrun).
  eapply run_well_formed; [|exact Hrun]. apply well_formed_new. exact Hc.
Qed.

(** ** What holds of [find], [insert], [erase] and [clear] *)

(** The probe walk of [doFind] needs no more iterations than the table
    has cells once one metadata byte is [Empty]. *)
Lemma doFind_stops_at_Empty
    {K V : Type} (Hash : K -> N) (Eq : K -> K -> bool)
    (fuel : nat) (k : K) (t : HashMap K V) (e : nat) :
  capacity_ t <> 0 -> capacity_ t < size_t_modulus ->
  metadata_ t !! e = Some detail.Empty ->
  length (metadata_ t) = N.to_nat (capacity_ t) ->
  (N.to_nat (capacity_ t) <= fuel)%nat ->
  doFind Hash Eq fuel t k <> OutOfFuel.
Proof.
  intros Hc0 Hcap He Hlen Hfuel.
  pose proof (lookup_lt_Some _ _ _ He) as Hlt.
  set (c := capacity_ t) in *.
  set (i := detail.H1 (Hash k) mod c).
  assert (Hi : i < c) by (apply N.mod_lt; assumption).
  set (n := (N.of_nat e + c - i) mod c).
  assert (Hn : n < c) by (apply N.mod_lt; assumption).
  assert (Hwalk : doFind_loop Eq fuel t k (detail.H2 (Hash k)) i <> OutOfFuel).
  { apply (doFind_loop_reaches_Empty Eq (N.to_nat n)); try assumption; [|lia].
    fold c. rewrite N2Nat.id. unfold n.
    rewrite N.Div0.add_mod_idemp_r.
    replace (i + (N.of_nat e + c - i)) with (N.of_nat e + 1 * c) by lia.
    rewrite N.Div0.mod_add, N.mod_small by lia.
    rewrite Nat2N.id. exact He. }
  unfold doFind, umod. cbv zeta. fold c. fold i.
  destruct (N.eqb_spec c 0) as [?|_]; [contradiction|]. cbn [obind].
  exact Hwalk.
Qed.

(** Where the probe walk finds a cell, the cell is live, holds a slot
    whose key equals the key, and [at] returns its value. *)
Lemma doFind_Some_at
    {K V : Type} (Hash : K -> N) (Eq : K -> K -> bool)
    (fuel : nat) (k : K) (t : HashMap K V) (i : N) :
  doFind Hash Eq fuel t k = Ret (Some i) ->
  exists s, holds t (N.to_nat i) s
            /\ Eq k (key s) = true
            /\ metadata_ t !! N.to_nat i = Some (detail.H2 (Hash k))
            /\ at_ Hash Eq fuel k t = Ret (i, value s, t).
Proof.
  intros Hd. destruct (doFind_Some _ _ _ _ _ _ Hd) as (s & Hm & Hs & Hk).
  exists s. repeat split; auto.
  - unfold live. rewrite Hm. rewrite IsFree_H2. reflexivity.
  - apply cell_read_lt in Hs as [_ Hs]. exact Hs.
  - unfold at_. rewrite Hd. cbn [obind]. rewrite Hs. reflexivity.
Qed.


(** ** [at], [find] and [erase]: how absence is reported *)

(** On every table: [at(key)] returns a reference exactly when [find(key)]
    answers a position other than [end()], and throws [KeyNotFound]
    exactly when [find(key)] answers [end()]; the reference designates the
    value of a live cell whose key equals [key], and the table is left as
    it was. [find] and [erase] never throw [KeyNotFound]: where [find]
    answers [end()], [erase] answers [false] without touching the table. *)
Theorem at_find_erase_channels
    {K V : Type} (Hash : K -> N) (Eq : K -> K -> bool)
    (fuel : nat) (k : K) (t : HashMap K V) :
  ((exists it, find Hash Eq fuel k t = Ret it /\ it <> end_ t) <->
   (exists i v, at_ Hash Eq fuel k t = Ret (i, v, t)))
  /\ (forall i v t', at_ Hash Eq fuel k t = Ret (i, v, t') ->
        t' = t /\ find Hash Eq fuel k t = Ret i /\
        exists s, holds t (N.to_nat i) s
                  /\ value s = v /\ Eq k (key s) = true
                  /\ metadata_ t !! N.to_nat i = Some (detail.H2 (Hash k)))
  /\ (find Hash Eq fuel k t = Ret (end_ t) <-> at_ Hash Eq fuel k t = KeyNotFound)
  /\ (find Hash Eq fuel k t = Ret (end_ t) ->
        erase Hash Eq fuel k t = Ret (false, t))
  /\ find Hash Eq fuel k t <> KeyNotFound
  /\ erase Hash Eq fuel k t <> KeyNotFound
  /\ (forall it, erase_it Hash Eq fuel it t <> KeyNotFound).
Proof.
  repeat apply conj.
  - intros (it & Hf). apply find_found in Hf.
    destruct (doFind_Some_at _ _ _ _ _ _ Hf) as (s & _ & _ & _ & Hat).
    exists it, (value s). exact Hat.
  - intros (i & v & H). exists i. apply find_found.
    unfold at_ in H. apply obind_Ret in H as ([j|] & Hd & H); [|discriminate].
    apply obind_Ret in H as (s & _ & H). injection H as -> _. assumption.
  - intros i v t' H. unfold at_ in H.
    apply obind_Ret in H as ([j|] & Hd & H); [|discriminate].
    apply obind_Ret in H as (s & Hs & H). injection H as -> <- <-.
    split; [reflexivity|]. split; [apply find_found; assumption|].
    destruct (doFind_Some_at _ _ _ _ _ _ Hd) as (s' & Hholds & Hk & Hm & _).
    assert (s' = s) as ->.
    { apply cell_read_lt in Hs as [_ Hs]. destruct Hholds as [_ Hs'].
      congruence. }
    exists s. auto.
  - intros H. apply find_not_found in H. unfold at_. rewrite H. reflexivity.
  - intros H. apply find_not_found. unfold at_ in H.
    destruct (doFind Hash Eq fuel t k) as [[i|]| | |] eqn:Hd; simpl in H;
      try discriminate; [|reflexivity|].
    + exfalso. revert H. no_throw.
    + exfalso. exact (doFind_KeyNotFound _ _ _ _ _ Hd).
  - intros H. unfold erase. rewrite H. simpl. unfold erase_it.
    rewrite N.eqb_refl. reflexivity.
  - apply find_KeyNotFound.
  - apply erase_KeyNotFound.
  - intros it. apply erase_it_KeyNotFound.
Qed.

(** The invariants of the data model hold of every table that public calls
    reach: the arrays are as long as capacity, and every live cell holds a
    slot, carries the [H2] of its key and is reached from the bucket of its
    key without crossing an [Empty] byte. *)
Theorem reachable_tables_are_well_formed
    {K V : Type} (Hash : K -> N) (Eq : K -> K -> bool) (t : HashMap K V) :
  reachable Hash Eq t -> well_formed Hash t.
Proof. apply reachable_well_formed. Qed.

(** On a reachable table, under a hasher that agrees with the equality:
    [find] answers [end()] and [at] throws only when no live cell holds the
    key; a key that a live cell holds is found by [find] and [at] within as
    many iterations as the table has cells; and a key that no live cell
    holds is reported absent by [find], [at] and [erase] as soon as the
    table has a cell and one metadata byte is [Empty]. *)
Theorem find_finds_exactly_the_live_keys
    {K V : Type} (Hash : K -> N) (Eq : K -> K -> bool)
    (fuel : nat) (k : K) (t : HashMap K V) :
  reachable Hash Eq t ->
  (forall x y : K, Eq x y = true -> Hash x = Hash y) ->
  (find Hash Eq fuel k t = Ret (end_ t) -> ~ key_live Eq t k)
  /\ (at_ Hash Eq fuel k t = KeyNotFound -> ~ key_live Eq t k)
  /\ (forall it : iterator,
        find Hash Eq fuel k t = Ret it -> it <> end_ t -> key_live Eq t k)
  /\ (key_live Eq t k -> (N.to_nat (capacity_ t) <= fuel)%nat ->
      exists (it : iterator) (v : V),
        find Hash Eq fuel k t = Ret it /\ it <> end_ t
        /\ at_ Hash Eq fuel k t = Ret (it, v, t))
  /\ (~ key_live Eq t k -> capacity_ t <> 0 ->
      (exists e : nat, metadata_ t !! e = Some detail.Empty) ->
      (N.to_nat (capacity_ t) <= fuel)%nat ->
      find Hash Eq fuel k t = Ret (end_ t)
      /\ at_ Hash Eq fuel k t = KeyNotFound
      /\ erase Hash Eq fuel k t = Ret (false, t)).
Proof.
  intros Hreach HEq. pose proof (reachable_well_formed Hash Eq t Hreach) as Hwf.
  assert (Hnone : doFind Hash Eq fuel t k = Ret None -> ~ key_live Eq t k).
  { intros Hd (j & s & Hholds & Hk).
    rewrite (doFind_None_sound Hash Eq HEq fuel t k j s Hwf Hd Hholds) in Hk.
    discriminate. }
  assert (Hsome : forall i, doFind Hash Eq fuel t k = Ret (Some i) ->
                            key_live Eq t k).
  { intros i Hd.
    destruct (doFind_Some_at _ _ _ _ _ _ Hd) as (s & Hholds & Hk & _).
    exists (N.to_nat i), s. auto. }
  repeat apply conj.
  - intros Hf. apply Hnone, find_not_found, Hf.
  - intros H. apply Hnone. unfold at_ in H.
    destruct (doFind Hash Eq fuel t k) as [[i|]| | |] eqn:Hd; simpl in H;
      try discriminate; [|reflexivity|].
    + exfalso. revert H. no_throw.
    + exfalso. exact (doFind_KeyNotFound _ _ _ _ _ Hd).
  - intros it Hf Hne. apply (Hsome it), find_found. auto.
  - intros (j & s & Hholds & Hk) Hfuel.
    destruct (doFind_finds Hash Eq HEq fuel t k j s Hwf Hholds Hk Hfuel) as (i & Hi).
    destruct (doFind_Some_at _ _ _ _ _ _ Hi) as (s' & _ & _ & _ & Hat).
    apply find_found in Hi as [Hf Hne]. eauto.
  - intros Habsent Hc (e & He) Hfuel.
    assert (Hd : doFind Hash Eq fuel t k = Ret None).
    { pose proof (doFind_stops_at_Empty Hash Eq fuel k t e Hc
                    (proj1 Hwf) He (proj1 (proj2 Hwf)) Hfuel) as Hstop.
      pose proof (doFind_defined Hash Eq fuel t k Hwf Hc) as Hdef.
      pose proof (doFind_KeyNotFound Hash Eq fuel t k) as Hnt.
      destruct (doFind Hash Eq fuel t k) as [[i|]| | |] eqn:Hd; try congruence.
      destruct (Habsent (Hsome i eq_refl)). }
    split; [apply find_not_found, Hd|].
    split; [unfold at_; rewrite Hd; reflexivity|].
    unfold erase, find. rewrite Hd. cbn [obind]. unfold erase_it.
    rewrite N.eqb_refl. reflexivity.
Qed.

(** The scenario of the tests, on a table as the default constructor
    leaves it: insert a key, erase it, insert it again with another value.
    The second insertion fills the tombstone, [find] and [at] then give
    the new value and [size()] is 1. *)
Theorem erase_then_insert_on_fresh_table
    {K V : Type} (Hash : K -> N) (Eq : K -> K -> bool)
    (k : K) (a b : V) (fuel : nat) :
  Eq k k = true -> (1 < fuel)%nat ->
  let i := detail.H1 (Hash k) mod DefaultInitialCapacity in
  exists t1 t2 t3 : HashMap K V,
    insert Hash Eq fuel (k, a) HashMap_default = Ret (Some i, t1)
    /\ erase Hash Eq fuel k t1 = Ret (true, t2)
    /\ find Hash Eq fuel k t2 = Ret (end_ t2)
    /\ insert Hash Eq fuel (k, b) t2 = Ret (Some i, t3)
    /\ i <> end_ t3
    /\ find Hash Eq fuel k t3 = Ret i
    /\ at_ Hash Eq fuel k t3 = Ret (i, b, t3)
    /\ size t3 = 1.
Proof.
  intros Hrefl Hfuel i. destruct fuel as [|[|fuel]]; [lia|lia|].
  assert (Hi : i < 16) by (apply N.mod_lt; discriminate).
  assert (Hin : (N.to_nat i < 16)%nat) by lia.
  set (h := detail.H2 (Hash k)).
  assert (Hh : h < 128) by apply H2_lt.
  set (md0 := replicate 16 detail.Empty).
  set (ds0 := replicate 16 (@None (Slot K V))).
  set (t1 := mkHashMap 16 1 (<[N.to_nat i := h]> md0)
               (mkFixedUninitVec 16 (<[N.to_nat i := Some (mkSlot k a)]> ds0)) 0).
  set (t2 := mkHashMap 16 0 (<[N.to_nat i := detail.Deleted]> (<[N.to_nat i := h]> md0))
               (mkFixedUninitVec 16
                  (<[N.to_nat i := None]> (<[N.to_nat i := Some (mkSlot k a)]> ds0))) 1).
  set (t3 := mkHashMap 16 1 (<[N.to_nat i := h]> (metadata_ t2))
               (mkFixedUninitVec 16 (<[N.to_nat i := Some (mkSlot k b)]> (data_ (slots_ t2)))) 1).
  assert (Hlen_md : length md0 = 16%nat) by reflexivity.
  assert (Hlen_ds : length ds0 = 16%nat) by reflexivity.
  assert (H1 : insert Hash Eq (S (S fuel)) (k, a) HashMap_default = Ret (Some i, t1)).
  { unfold insert.
    change (needToGrowForInsert (HashMap_default (K:=K) (V:=V))) with false.
    cbn [obind fst snd].
    rewrite (insertUnchecked_at_bucket Hash Eq (S fuel) (mkSlot k a) HashMap_default
               detail.Empty None); try reflexivity; try discriminate.
    - apply lookup_replicate_2. exact Hin.
    - exact Hi.
    - apply lookup_replicate_2. exact Hin. }
  assert (Hf1 : doFind Hash Eq (S (S fuel)) t1 k = Ret (Some i)).
  { apply (doFind_at_bucket Hash Eq (S fuel) k t1 (mkSlot k a)); try discriminate.
    - apply list_lookup_insert_eq. lia.
    - exact Hi.
    - apply list_lookup_insert_eq. lia.
    - exact Hrefl. }
  assert (H2 : erase Hash Eq (S (S fuel)) k t1 = Ret (true, t2)).
  { unfold erase, find. rewrite Hf1. cbn [obind iteratorAt_opt iteratorAt].
    unfold erase_it, end_, iteratorAt. cbn [slots_ fsize_ t1 capacity_].
    destruct (N.eqb_spec i 16) as [?|_]; [lia|].
    destruct (N.ltb_spec i 16) as [_|?]; [|lia]. cbn [negb].
    unfold deleteSlot, meta_set. cbn [metadata_ t1].
    rewrite length_insert, Hlen_md.
    destruct (Nat.ltb_spec (N.to_nat i) 16) as [_|?]; [|lia]. cbn [obind].
    unfold cell_read, cell_write, cell. cbn [slots_ fsize_ data_ t1].
    destruct (N.ltb_spec i 16) as [_|?]; [|lia].
    rewrite list_lookup_insert_eq by lia. cbn [obind].
    reflexivity. }
  assert (Hf2 : doFind Hash Eq (S (S fuel)) t2 k = Ret None).
  { unfold doFind, umod. cbv zeta. cbn [capacity_ t2]. cbn [N.eqb obind].
    change (detail.H1 (Hash k) mod 16) with i. fold h.
    cbn [doFind_loop]. unfold meta_get. cbn [metadata_ t2].
    rewrite list_lookup_insert_eq by (rewrite length_insert; lia). cbn [obind].
    destruct (N.eqb_spec detail.Deleted h) as [He|_];
      [unfold detail.Deleted in He; lia|]. cbn [obind].
    change (detail.Deleted =? detail.Empty) with false. cbv iota.
    unfold wrap. rewrite (N.mod_small (i + 1)) by (unfold size_t_modulus; lia).
    unfold umod. cbn [obind capacity_ t2 N.eqb].
    assert (Hne : N.to_nat i <> N.to_nat ((i + 1) mod 16)).
    { destruct (N.eq_dec i 15) as [->|?]; [discriminate|].
      rewrite N.mod_small by lia. lia. }
    rewrite !list_lookup_insert_ne by exact Hne.
    unfold md0. rewrite lookup_replicate_2
      by (pose proof (N.mod_lt (i + 1) 16); lia). cbn [obind].
    destruct (N.eqb_spec detail.Empty h) as [He|_];
      [unfold detail.Empty in He; lia|]. cbn [obind].
    reflexivity. }
  assert (H3 : insert Hash Eq (S (S fuel)) (k, b) t2 = Ret (Some i, t3)).
  { unfold insert. change (needToGrowForInsert t2) with false.
    cbn [obind fst snd].
    rewrite (insertUnchecked_at_bucket Hash Eq (S fuel) (mkSlot k b) t2
               detail.Deleted None); try reflexivity; try discriminate.
    - apply list_lookup_insert_eq. rewrite length_insert. lia.
    - exact Hi.
    - apply list_lookup_insert_eq. rewrite length_insert. lia. }
  assert (Hf3 : doFind Hash Eq (S (S fuel)) t3 k = Ret (Some i)).
  { apply (doFind_at_bucket Hash Eq (S fuel) k t3 (mkSlot k b)); try discriminate.
    - apply list_lookup_insert_eq. cbn [metadata_ t2]. rewrite !length_insert. lia.
    - exact Hi.
    - apply list_lookup_insert_eq. cbn [data_ slots_ t2]. rewrite !length_insert. lia.
    - exact Hrefl. }
  exists t1, t2, t3. repeat apply conj.
  - exact H1.
  - exact H2.
  - unfold find. rewrite Hf2. reflexivity.
  - exact H3.
  - unfold end_, iteratorAt. cbn. lia.
  - unfold find. rewrite Hf3. reflexivity.
  - unfold at_. rewrite Hf3. cbn [obind]. unfold cell_read, cell.
    cbn [slots_ fsize_ data_ t3 t2].
    destruct (N.ltb_spec i 16) as [_|?]; [|lia].
    rewrite list_lookup_insert_eq by (rewrite !length_insert; lia). reflexivity.
  - reflexivity.
Qed.


(** Insert-if-absent, where it holds: in a table without tombstones that
    needs no growth, [insert] of a key that [find] finds inserts nothing,
    answers [end()] and leaves the table as it was. *)
Theorem insert_refuses_key_found_without_tombstone
    {K V : Type} (Hash : K -> N) (Eq : K -> K -> bool)
    (fuel : nat) (k : K) (v : V) (t : HashMap K V) (it : iterator) :
  no_tombstone t ->
  needToGrowForInsert t = false ->
  find Hash Eq fuel k t = Ret it -> it <> end_ t ->
  insert Hash Eq fuel (k, v) t = Ret (Some (end_ t), t).
Proof.
  intros Hnt Hgrow Hfind Hne.
  assert (Hd : doFind Hash Eq fuel t k = Ret (Some it))
    by (apply find_found; auto).
  unfold insert. rewrite Hgrow. cbn [obind fst snd].
  unfold insertUnchecked, locationForInsertion. cbn [key].
  unfold doFind in Hd. cbv zeta in *.
  destruct (umod (detail.H1 (Hash k)) (capacity_ t)) as [i| | |]; cbn [obind] in *;
    try discriminate.
  rewrite (locationForInsertion_loop_found Eq fuel t k _ i it Hnt (H2_lt _) Hd).
  reflexivity.
Qed.

(** [clear()] on a table that is not empty: [size()] and the count of
    tombstones become 0, capacity stays, every metadata byte of the table
    is [Empty], and [find] reports every key absent. *)
Theorem clear_resets_the_table
    {K V : Type} (Hash : K -> N) (Eq : K -> K -> bool)
    (fuel : nat) (k : K) (t t' : HashMap K V) :
  clear t = Ret t' -> size t <> 0 -> capacity_ t <> 0 -> (0 < fuel)%nat ->
  size t' = 0 /\ deletedCount_ t' = 0 /\ capacity_ t' = capacity_ t
  /\ (forall j : N, j < capacity_ t -> metadata_ t' !! N.to_nat j = Some detail.Empty)
  /\ find Hash Eq fuel k t' = Ret (end_ t').
Proof.
  unfold clear, empty, size. intros H Hs Hc Hfuel.
  destruct (N.eqb_spec (size_ t) 0) as [?|_]; [contradiction|].
  apply obind_Ret in H as ([md sl] & Hloop & H). injection H as <-.
  apply clear_loop_metadata in Hloop as [_ Hmd]. cbn [fst snd] in *.
  assert (Hall : forall j : N, j < capacity_ t -> md !! N.to_nat j = Some detail.Empty).
  { intros j Hj. rewrite Hmd. destruct (decide _) as [_|?]; [reflexivity|lia]. }
  repeat apply conj; try reflexivity; [exact Hall|].
  destruct fuel as [|fuel]; [lia|].
  unfold find, doFind, umod. cbv zeta. cbn [capacity_].
  destruct (N.eqb_spec (capacity_ t) 0) as [?|_]; [contradiction|].
  cbn [obind doFind_loop]. unfold meta_get. cbn [metadata_].
  rewrite Hall by (apply N.mod_lt; assumption). cbn [obind].
  destruct (N.eqb_spec detail.Empty (detail.H2 (Hash k))) as [He|_].
  - pose proof (H2_lt (Hash k)) as Hlt. rewrite <- He in Hlt. discriminate.
  - cbn [obind]. reflexivity.
Qed.

(** ** Call sequences that break the invariants

    The tables below hold [size_t] keys under the hasher [IdHash] and the
    equality [N.eqb], and are reached from a constructor by public calls. *)

Local Open Scope string_scope.

Lemma reachable_by {K V : Type} (Hash : K -> N) (Eq : K -> K -> bool)
    (c : N) (cs : list (call K V)) (fuel : nat) (t : HashMap K V) :
  c < size_t_modulus ->
  run Hash Eq fuel cs (HashMap_new c) = Ret t -> reachable Hash Eq t.
Proof. intros Hc H. exists c, cs, fuel. auto. Qed.

(** C1 (broken by the code). [locationForInsertion] stops at the first free
    cell: with a tombstone in front of a live key, [insert] of that key
    fills the tombstone, and two live cells hold the key. *)
Theorem duplicate_key_behind_tombstone :
  exists t : HashMap N string,
    run IdHash N.eqb 32 reinsert_behind_tombstone HashMap_default = Ret t
    /\ reachable IdHash N.eqb t
    /\ live_key t 0 = Some 1 /\ live_key t 1 = Some 1
    /\ ~ no_duplicate_live_keys N.eqb t.
Proof.
  eexists. split; [vm_compute; reflexivity|].
  split; [eapply (reachable_by _ _ 16 reinsert_behind_tombstone 32);
          vm_compute; reflexivity|].
  split; [reflexivity|]. split; [reflexivity|].
  intros H. specialize (H 0%nat 1%nat 1 1 eq_refl eq_refl eq_refl). discriminate.
Qed.

(** C4 (broken by the code). Key 1 is present with value ["b"];
    [insert({1, "z"})] returns a position other than [end()], [size()]
    grows from 3 to 4 and [at(1)] now answers ["z"]. *)
Theorem insert_of_present_key_inserts_again :
  exists t t' : HashMap N string,
    run IdHash N.eqb 32 (four_keys ++ [Erase 0]) HashMap_default = Ret t
    /\ at_ IdHash N.eqb 32 1 t = Ret (1, "b", t)
    /\ insert IdHash N.eqb 32 (1, "z") t = Ret (Some 0, t')
    /\ 0 <> end_ t'
    /\ size t = 3 /\ size t' = 4
    /\ at_ IdHash N.eqb 32 1 t' = Ret (0, "z", t').
Proof.
  do 2 eexists. split; [vm_compute; reflexivity|].
  split; [vm_compute; reflexivity|].
  split; [vm_compute; reflexivity|].
  split; [discriminate|].
  repeat split; vm_compute; reflexivity.
Qed.

(** C3 (broken by the code). With key 1921 live in the cells 15 and 0,
    [reserve(32)] moves cell 0 first and rejects cell 15: [size()] drops
    from 4 to 3 and [at(1921)] answers ["b"] instead of ["z"]. *)
Theorem growth_drops_a_slot_and_changes_a_value :
  exists t t' : HashMap N string,
    run IdHash N.eqb 32 reinsert_wrapping HashMap_default = Ret t
    /\ reserve IdHash N.eqb 32 32 t = Ret t'
    /\ capacity_ t = 16 /\ capacity_ t' = 32
    /\ size t = 4 /\ size t' = 3
    /\ at_ IdHash N.eqb 32 1921 t = Ret (15, "z", t)
    /\ at_ IdHash N.eqb 32 1921 t' = Ret (15, "b", t').
Proof.
  do 2 eexists. split; [vm_compute; reflexivity|].
  split; [vm_compute; reflexivity|].
  repeat split; vm_compute; reflexivity.
Qed.

(** C8 (broken by the code, general part). With key 1 live in two cells,
    [erase(1)] removes one of them and rehashes; the following
    [insert({1, "new"})] finds the other one, answers [end()], and [at(1)]
    still answers ["b"]. *)
Theorem erase_then_insert_keeps_old_value :
  exists t t1 : HashMap N string,
    run IdHash N.eqb 32 reinsert_behind_tombstone HashMap_default = Ret t
    /\ at_ IdHash N.eqb 32 1 t = Ret (0, "z", t)
    /\ erase IdHash N.eqb 32 1 t = Ret (true, t1)
    /\ insert IdHash N.eqb 32 (1, "new") t1 = Ret (Some (end_ t1), t1)
    /\ at_ IdHash N.eqb 32 1 t1 = Ret (0, "b", t1).
Proof.
  do 2 eexists. split; [vm_compute; reflexivity|].
  split; [vm_compute; reflexivity|].
  split; [vm_compute; reflexivity|].
  split; vm_compute; reflexivity.
Qed.

(** C5 (broken by the code). The growth test reads the load factor before
    the insertion: at 13 slots of 16 it answers no and the insertion leaves
    14 slots, a load factor equal to [MaxLoadFactor]. The test of the other
    variant, which adds one to the size, answers yes on the same table. *)
Theorem load_factor_reaches_threshold_after_insert :
  exists t t' : HashMap N string,
    run IdHash N.eqb 32 (removelast fourteen_keys) HashMap_default = Ret t
    /\ needToGrowForInsert t = false
    /\ Sibling.needToGrowForInsert (size_ t) (capacity_ t) = true
    /\ insert IdHash N.eqb 32 (13, "v") t = Ret (Some 13, t')
    /\ capacity_ t' = 16 /\ size t' = 14
    /\ loadFactor t' = MaxLoadFactor
    /\ load_factor_bound t' = false.
Proof.
  do 2 eexists. split; [vm_compute; reflexivity|].
  split; [vm_compute; reflexivity|].
  split; [vm_compute; reflexivity|].
  split; [vm_compute; reflexivity|].
  repeat split; vm_compute; reflexivity.
Qed.

(** The table [HashMap(4)] takes four slots: load factor 1. *)
Lemma load_factor_one_after_insert :
  run IdHash N.eqb 32 one_to_four (HashMap_new 4) = Ret full_table
  /\ loadFactor full_table = float_of_size 1
  /\ load_factor_bound full_table = false.
Proof. repeat split; vm_compute; reflexivity. Qed.

(** C7 (broken by the code). [insertUnchecked] leaves [deletedCount_] as it
    is when it fills a tombstone, and [rehashEverything] returns at once
    on a table of size 0: 17 rounds of [insert], [erase] on one key leave
    one tombstone and a count of 17 in a table of 16 cells. *)
Theorem tombstone_count_exceeds_capacity :
  exists t : HashMap N string,
    run IdHash N.eqb 32 (insert_erase_cycles 17) HashMap_default = Ret t
    /\ capacity_ t = 16 /\ size t = 0 /\ deletedCount_ t = 17
    /\ tombstones t = 1%nat
    /\ ~ (size_ t + deletedCount_ t <= capacity_ t).
Proof.
  eexists. split; [vm_compute; reflexivity|].
  repeat split; try (vm_compute; reflexivity).
  vm_compute. intros H. apply H. reflexivity.
Qed.

(** The same after three calls on [HashMap(1)]. *)
Lemma tombstone_count_exceeds_capacity_one :
  exists t : HashMap N string,
    run IdHash N.eqb 32 [Insert (5, "a"); Erase 5; Insert (5, "b")] (HashMap_new 1) = Ret t
    /\ capacity_ t = 1 /\ size t = 1 /\ deletedCount_ t = 1.
Proof. eexists. repeat split; vm_compute; reflexivity. Qed.

(** ** Probe walks that do not stop *)

Lemma full_table_probe_diverges (fuel : nat) (idex : N) :
  (idex < 4)%N -> doFind_loop N.eqb fuel full_table 5 5 idex = OutOfFuel.
Proof.
  revert idex. induction fuel as [|fuel IH]; intros idex Hlt; [reflexivity|].
  assert (idex = 0 \/ idex = 1 \/ idex = 2 \/ idex = 3)%N
    as [->|[->|[->| ->]]] by lia;
    simpl; apply IH; reflexivity.
Qed.

(** C2 (broken by the code). Four insertions fill the four cells of
    [HashMap(4)]: no metadata byte is [Empty], and [find(5)] does not
    return, whatever the number of iterations allowed. *)
Theorem find_diverges_on_full_table :
  run IdHash N.eqb 32 one_to_four (HashMap_new 4) = Ret full_table
  /\ reachable IdHash N.eqb full_table
  /\ empties full_table = 0%nat
  /\ forall fuel : nat, find IdHash N.eqb fuel 5 full_table = OutOfFuel.
Proof.
  split; [vm_compute; reflexivity|].
  split; [eapply (reachable_by _ _ 4 one_to_four 32); vm_compute; reflexivity|].
  split; [reflexivity|].
  intros fuel. unfold find, doFind. simpl obind at 2.
  rewrite full_table_probe_diverges by reflexivity. reflexivity.
Qed.

Lemma churned_table_probe_diverges (fuel : nat) (idex : N) :
  (idex < 16)%N -> doFind_loop N.eqb fuel churned_table 99 99 idex = OutOfFuel.
Proof.
  revert idex. induction fuel as [|fuel IH]; intros idex Hlt; [reflexivity|].
  assert (idex = 0 \/ idex = 1 \/ idex = 2 \/ idex = 3 \/ idex = 4 \/ idex = 5
          \/ idex = 6 \/ idex = 7 \/ idex = 8 \/ idex = 9 \/ idex = 10
          \/ idex = 11 \/ idex = 12 \/ idex = 13 \/ idex = 14 \/ idex = 15)%N
    as H by lia.
  repeat (destruct H as [->|H]); [..|subst idex]; simpl; apply IH; reflexivity.
Qed.

(** In the default table the same happens with tombstones: 14 live slots
    and 2 tombstones cover the 16 cells. *)
Lemma find_diverges_on_churned_table :
  run IdHash N.eqb 32 churn HashMap_default = Ret churned_table
  /\ empties churned_table = 0%nat
  /\ tombstones churned_table = 2%nat
  /\ forall fuel : nat, find IdHash N.eqb fuel 99 churned_table = OutOfFuel.
Proof.
  split; [vm_compute; reflexivity|].
  split; [reflexivity|]. split; [reflexivity|].
  intros fuel. unfold find, doFind. simpl obind at 2.
  rewrite churned_table_probe_diverges by reflexivity. reflexivity.
Qed.

(** The same table makes [at] spin. *)
Lemma at_diverges_on_full_table (fuel : nat) :
  at_ IdHash N.eqb fuel 5 full_table = OutOfFuel.
Proof.
  unfold at_, doFind. simpl obind at 2.
  rewrite full_table_probe_diverges by reflexivity. reflexivity.
Qed.

Local Close Scope string_scope.

(** C9 (broken by the code). On a table of capacity 0, which a move leaves
    behind and [HashMap(0)] constructs, no key is present, and [at], [find]
    and [erase] compute a remainder modulo 0: the behaviour is undefined,
    where [KeyNotFound], [end()] and [false] were due. *)
Theorem lookup_on_capacity_zero_is_undefined
    {K V : Type} (Hash : K -> N) (Eq : K -> K -> bool)
    (other : HashMap K V) (fuel : nat) (k : K) :
  let src := snd (move other) in
  capacity_ src = 0
  /\ (forall j : nat, live src j = false)
  /\ at_ Hash Eq fuel k src = Undefined
  /\ find Hash Eq fuel k src = Undefined
  /\ erase Hash Eq fuel k src = Undefined
  /\ reachable Hash Eq (HashMap_new (K:=K) (V:=V) 0)
  /\ at_ Hash Eq fuel k (HashMap_new (V:=V) 0) = Undefined
  /\ find Hash Eq fuel k (HashMap_new (V:=V) 0) = Undefined
  /\ erase Hash Eq fuel k (HashMap_new (V:=V) 0) = Undefined.
Proof.
  repeat apply conj; try reflexivity.
  exists 0, [], 0%nat. split; reflexivity.
Qed.

(** ** The tombstone test after [erase] *)

Section Erase.

Context {K V : Type}.
Variable Hash : K -> N.
Variable Eq : K -> K -> bool.

Lemma insertUnchecked_deletedCount (fuel : nat) (s : Slot K V)
    (t t' : HashMap K V) (r : option N) :
  insertUnchecked Hash Eq fuel s t = Ret (r, t') ->
  deletedCount_ t' = deletedCount_ t.
Proof.
  unfold insertUnchecked. intros H.
  apply obind_Ret in H as ([l|] & _ & H).
  - apply obind_Ret in H as (md & _ & H). apply obind_Ret in H as (sl & _ & H).
    injection H as _ <-. reflexivity.
  - injection H as _ <-. reflexivity.
Qed.

Lemma move_slots_deletedCount (fuel : nat) (old : HashMap K V) (n : nat) (i : N)
    (newTable newTable' : HashMap K V) :
  move_slots Hash Eq fuel old n i newTable = Ret newTable' ->
  deletedCount_ newTable' = deletedCount_ newTable.
Proof.
  revert i newTable. induction n as [|n IH]; intros i newTable; simpl.
  - intros [= <-]. reflexivity.
  - intros H. apply obind_Ret in H as (m & _ & H).
    apply obind_Ret in H as (nt & Hnt & H).
    rewrite (IH _ _ H). destruct (negb (detail.IsFree m)).
    + apply obind_Ret in Hnt as (s & _ & Hnt).
      apply obind_Ret in Hnt as ([r t1] & Hins & Hnt).
      injection Hnt as <-. eapply insertUnchecked_deletedCount, Hins.
    + injection Hnt as <-. reflexivity.
Qed.

(** A rehash that does take place leaves no counted tombstone. *)
Lemma rehashEverything_deletedCount (fuel : nat) (t t' : HashMap K V) :
  rehashEverything Hash Eq fuel t = Ret t' ->
  size_ t <> 0 -> deletedCount_ t' = 0.
Proof.
  unfold rehashEverything, empty. intros H Hs.
  destruct (N.eqb_spec (size_ t) 0) as [?|_]; [contradiction|].
  apply obind_Ret in H as (nt & Hnt & H). injection H as <-.
  simpl. apply move_slots_deletedCount in Hnt. exact Hnt.
Qed.

Lemma rehashEverything_empty (fuel : nat) (t : HashMap K V) :
  size_ t = 0 -> rehashEverything Hash Eq fuel t = Ret t.
Proof. unfold rehashEverything, empty. intros ->. reflexivity. Qed.

Lemma erase_it_tombstone_bound (fuel : nat) (it : iterator) (t t' : HashMap K V) :
  erase_it Hash Eq fuel it t = Ret (true, t') ->
  size t' <> 0 -> tombstone_bound t' = true.
Proof.
  unfold erase_it, size. intros H Hs.
  destruct (it =? end_ t); [discriminate|].
  destruct (negb (it <? capacity_ t)); [discriminate|].
  apply obind_Ret in H as (t1 & _ & H).
  set (t2 := mkHashMap (capacity_ t1) (wrap (size_ t1 + (size_t_modulus - 1)))
               (metadata_ t1) (slots_ t1) (deletedCount_ t1)) in H.
  apply obind_Ret in H as (t3 & Hre & H). injection H as <-.
  unfold tombstone_bound. destruct (needRehash t2) eqn:Hneed.
  - destruct (N.eq_dec (size_ t2) 0) as [Hz|Hnz].
    + rewrite (rehashEverything_empty fuel t2 Hz) in Hre.
      injection Hre as <-. contradiction.
    + rewrite (rehashEverything_deletedCount fuel t2 t3 Hre Hnz).
      apply tombstone_bound_zero. exact Hs.
  - injection Hre as <-. apply not_fge_flt.
    + apply float_of_size_not_nan.
    + apply fmul_half_not_nan.
    + exact Hneed.
Qed.

End Erase.

(** C6 (amended). After a call of [erase], by key or by position, that
    removed an element and leaves the table with at least one live slot,
    [deletedCount_ < size() * MaxDeletedLoadFactor] holds in the binary32
    arithmetic of the test; for counts below [2^24], which binary32
    represents exactly, twice the count of tombstones is below [size()]. *)
Theorem tombstone_bound_after_erase
    {K V : Type} (Hash : K -> N) (Eq : K -> K -> bool)
    (fuel : nat) (k : K) (it : iterator) (t t' : HashMap K V) :
  erase Hash Eq fuel k t = Ret (true, t')
  \/ erase_it Hash Eq fuel it t = Ret (true, t') ->
  size t' <> 0 ->
  tombstone_bound t' = true
  /\ (deletedCount_ t' < 2 ^ 24 -> size t' < 2 ^ 24 ->
      2 * deletedCount_ t' < size t').
Proof.
  intros H Hs.
  assert (Hb : tombstone_bound t' = true).
  { destruct H as [H|H].
    - unfold erase in H. apply obind_Ret in H as (it' & _ & H).
      eapply erase_it_tombstone_bound; eassumption.
    - eapply erase_it_tombstone_bound; eassumption. }
  split; [exact Hb|]. intros Hd Hsz.
  apply tombstone_test_exact; assumption.
Qed.

Local Open Scope string_scope.

(** C6 (as stated, refuted). The bound fails after the last element was
    erased: [size()] is 0, the tombstone stays and is counted. *)
Lemma tombstone_bound_fails_on_emptied_table :
  exists t t' : HashMap N string,
    run IdHash N.eqb 32 [Insert (5, "a")] HashMap_default = Ret t
    /\ erase IdHash N.eqb 32 5 t = Ret (true, t')
    /\ size t' = 0 /\ deletedCount_ t' = 1 /\ tombstones t' = 1%nat
    /\ tombstone_bound t' = false.
Proof.
  do 2 eexists. split; [vm_compute; reflexivity|].
  split; [vm_compute; reflexivity|].
  repeat split; vm_compute; reflexivity.
Qed.

Lemma tombstone_bound_after_erase_witness :
  exists t t' : HashMap N string,
    run IdHash N.eqb 32 four_keys HashMap_default = Ret t
    /\ erase IdHash N.eqb 32 0 t = Ret (true, t')
    /\ size t' = 3 /\ deletedCount_ t' = 1
    /\ tombstone_bound t' = true.
Proof.
  do 2 eexists. split; [vm_compute; reflexivity|].
  split; [vm_compute; reflexivity|].
  split; [reflexivity|]. split; [reflexivity|].
  refine (proj1 (tombstone_bound_after_erase IdHash N.eqb 32 0 0
           (mkHashMap 16 4 [0; 1; 2; 3; 128; 128; 128; 128; 128; 128; 128; 128;
                            128; 128; 128; 128]
              (mkFixedUninitVec 16
                 [Some (mkSlot 0 "a"); Some (mkSlot 1 "b"); Some (mkSlot 2 "c");
                  Some (mkSlot 3 "d"); None; None; None; None; None; None; None;
                  None; None; None; None; None]) 0) _ _ _)).
  - left. vm_compute. reflexivity.
  - vm_compute. discriminate.
Defined.

Local Close Scope string_scope.

Local Open Scope string_scope.

Lemma moved_from_source_accepts_insert_witness :
  let other : HashMap N string :=
    mkHashMap 1 1 [1] (mkFixedUninitVec 1 [Some (mkSlot 1 "abc")]) 0 in
  let src := snd (move other) in
  capacity_ src = 0 /\ size src = 0 /\ deletedCount_ src = 0
  /\ fst (move other) = other
  /\ needToGrowForInsert src = true
  /\ exists t',
       insert IdHash N.eqb 1 (3, "world") src = Ret (Some 0, t')
       /\ insert IdHash N.eqb 1 (3, "world") (HashMap_new 0) = Ret (Some 0, t')
       /\ capacity_ t' = DefaultInitialCapacity /\ size t' = 1
       /\ deletedCount_ t' = 0
       /\ 0 <> end_ t'
       /\ find IdHash N.eqb 1 3 t' = Ret 0
       /\ at_ IdHash N.eqb 1 3 t' = Ret (0, "world", t').
Proof.
  exact (moved_from_source_accepts_insert IdHash N.eqb
           (mkHashMap 1 1 [1] (mkFixedUninitVec 1 [Some (mkSlot 1 "abc")]) 0)
           3 "world" 1 eq_refl (le_n 1)).
Defined.

Local Close Scope string_scope.

(** ** The scenarios of the test suite *)

Local Open Scope string_scope.

(** A table of capacity 4 grows on the fifth insertion, under the hasher of
    the tests and under the identity, and the five keys keep their values. *)
Theorem capacity_four_grows_on_fifth_insert :
  exists t t' : HashMap N string,
    run IntHasher N.eqb 32 one_to_five (HashMap_new 4) = Ret t
    /\ capacity_ t = 8 /\ size t = 5
    /\ map (value_at IntHasher t) [1; 2; 3; 4; 5]
       = [Some "v"; Some "v"; Some "v"; Some "v"; Some "w"]
    /\ run IdHash N.eqb 32 one_to_five (HashMap_new 4) = Ret t'
    /\ capacity_ t' = 8 /\ size t' = 5
    /\ map (value_at IdHash t') [1; 2; 3; 4; 5]
       = [Some "v"; Some "v"; Some "v"; Some "v"; Some "w"].
Proof.
  do 2 eexists. split; [vm_compute; reflexivity|].
  do 3 (split; [vm_compute; reflexivity|]).
  split; [vm_compute; reflexivity|].
  repeat split; vm_compute; reflexivity.
Qed.


Lemma erase_then_insert_on_fresh_table_witness :
  let i := detail.H1 (IntHasher 5) mod DefaultInitialCapacity in
  exists t1 t2 t3 : HashMap N string,
    insert IntHasher N.eqb 2 (5, "a") HashMap_default = Ret (Some i, t1)
    /\ erase IntHasher N.eqb 2 5 t1 = Ret (true, t2)
    /\ find IntHasher N.eqb 2 5 t2 = Ret (end_ t2)
    /\ insert IntHasher N.eqb 2 (5, "b") t2 = Ret (Some i, t3)
    /\ i <> end_ t3
    /\ find IntHasher N.eqb 2 5 t3 = Ret i
    /\ at_ IntHasher N.eqb 2 5 t3 = Ret (i, "b", t3)
    /\ size t3 = 1.
Proof.
  exact (erase_then_insert_on_fresh_table IntHasher N.eqb 5 "a" "b" 2
           eq_refl (le_n 2)).
Defined.

Lemma four_keys_table_no_tombstone : no_tombstone four_keys_table.
Proof.
  intros e m Hm Hfree.
  do 16 (destruct e as [|e];
         [injection Hm as <-; first [reflexivity|discriminate]|]).
  discriminate.
Defined.

Lemma insert_refuses_key_found_without_tombstone_witness :
  run IdHash N.eqb 32 four_keys HashMap_default = Ret four_keys_table
  /\ insert IdHash N.eqb 32 (1, "z") four_keys_table
     = Ret (Some (end_ four_keys_table), four_keys_table).
Proof.
  split; [vm_compute; reflexivity|].
  apply (insert_refuses_key_found_without_tombstone IdHash N.eqb 32 1 "z"
           four_keys_table 1).
  - exact four_keys_table_no_tombstone.
  - vm_compute. reflexivity.
  - vm_compute. reflexivity.
  - discriminate.
Defined.

Lemma clear_resets_the_table_witness :
  run IntHasher N.eqb 32 [Insert (1, "abc"); Insert (2, "def")] HashMap_default
  = Ret two_entries
  /\ size (HashMap_default : HashMap N string) = 0
  /\ deletedCount_ (HashMap_default : HashMap N string) = 0
  /\ capacity_ (HashMap_default : HashMap N string) = capacity_ two_entries
  /\ (forall j : N, j < capacity_ two_entries ->
        metadata_ (HashMap_default : HashMap N string) !! N.to_nat j
        = Some detail.Empty)
  /\ find IntHasher N.eqb 1 1 (HashMap_default : HashMap N string)
     = Ret (end_ (HashMap_default : HashMap N string)).
Proof.
  split; [vm_compute; reflexivity|].
  apply (clear_resets_the_table IntHasher N.eqb 1 1 two_entries HashMap_default).
  - vm_compute. reflexivity.
  - discriminate.
  - discriminate.
  - apply le_n.
Defined.

Lemma reachable_tables_are_well_formed_witness :
  reachable IdHash N.eqb four_keys_table /\ well_formed IdHash four_keys_table.
Proof.
  assert (H : reachable IdHash N.eqb four_keys_table).
  { exists 16, four_keys, 32%nat. split; vm_compute; reflexivity. }
  split; [exact H|].
  exact (reachable_tables_are_well_formed IdHash N.eqb four_keys_table H).
Defined.

Lemma find_finds_exactly_the_live_keys_witness :
  key_live N.eqb four_keys_table 2
  /\ exists (it : iterator) (v : string),
       find IdHash N.eqb 16 2 four_keys_table = Ret it
       /\ it <> end_ four_keys_table
       /\ at_ IdHash N.eqb 16 2 four_keys_table = Ret (it, v, four_keys_table).
Proof.
  assert (Hlive : key_live N.eqb four_keys_table 2).
  { exists 2%nat, (mkSlot 2 "c"). repeat split. }
  split; [exact Hlive|].
  refine (proj1 (proj2 (proj2 (proj2
            (find_finds_exactly_the_live_keys IdHash N.eqb 16 2 four_keys_table
               _ _)))) Hlive (le_n 16)).
  - exists 16, four_keys, 32%nat. split; vm_compute; reflexivity.
  - intros x y Hxy. apply N.eqb_eq in Hxy. unfold IdHash. exact Hxy.
Defined.

Local Close Scope string_scope.

(** * The count of live cells *)

Section Counting.

Context {K V : Type}.
Variable Hash : K -> N.
Variable Eq : K -> K -> bool.

Lemma live_count_update (md : list detail.metadata_t) (p : nat)
    (m m' : detail.metadata_t) :
  md !! p = Some m ->
  (length (filter (fun x => detail.IsFree x = false) (<[p := m']> md))
   + (if detail.IsFree m then 0 else 1)
   = length (filter (fun x => detail.IsFree x = false) md)
     + (if detail.IsFree m' then 0 else 1))%nat.
Proof.
  revert p. induction md as [|x md IH]; intros p Hp; [discriminate|].
  destruct p as [|p]; simpl in Hp.
  - injection Hp as ->. change (<[0%nat := m']> (m :: md)) with (m' :: md).
    rewrite !filter_cons.
    destruct (decide (detail.IsFree m' = false)) as [H1|H1];
      destruct (decide (detail.IsFree m = false)) as [H2|H2];
      destruct (detail.IsFree m'), (detail.IsFree m); simpl; try congruence; lia.
  - change (<[S p := m']> (x :: md)) with (x :: <[p := m']> md).
    rewrite !filter_cons. specialize (IH p Hp).
    destruct (decide (detail.IsFree x = false)); simpl; lia.
Qed.

Lemma live_count_le (t : HashMap K V) : (live_count t <= length (metadata_ t))%nat.
Proof. unfold live_count. apply length_filter. Qed.

End Counting.

(** * What [insert] and [erase] do to the table, on every table *)

Section Steps.

Context {K V : Type}.
Variable Hash : K -> N.
Variable Eq : K -> K -> bool.

(** The cell [locationForInsertion] answers is free. *)
Lemma locationForInsertion_loop_free (fuel : nat) (t : HashMap K V) (k : K)
    (hh i0 : N) (l : InsertionLoc) :
  locationForInsertion_loop Eq fuel t k hh i0 = Ret (Some l) ->
  h2 l = hh /\
  exists m : detail.metadata_t,
    metadata_ t !! N.to_nat (idex l) = Some m /\ detail.IsFree m = true.
Proof.
  revert i0. induction fuel as [|fuel IH]; intros i0;
    cbn [locationForInsertion_loop]; [discriminate|].
  unfold meta_get. destruct (metadata_ t !! N.to_nat i0) as [m|] eqn:Hm;
    cbn [obind]; [|discriminate].
  destruct (detail.IsFree m) eqn:Hfree.
  - intros [= <-]. cbn [h2 idex]. eauto.
  - intros H. apply obind_Ret in H as (found & _ & H).
    destruct found; [discriminate|].
    apply obind_Ret in H as (next & _ & H). eapply IH; eauto.
Qed.

(** [insertUnchecked] either leaves the table as it is or places the slot
    in a free cell. *)
Lemma insertUnchecked_Ret (fuel : nat) (s : Slot K V) (t t' : HashMap K V)
    (r : option N) :
  insertUnchecked Hash Eq fuel s t = Ret (r, t') ->
  capacity_ t <> 0 /\
  ((r = None /\ t' = t
    /\ locationForInsertion_loop Eq fuel t (key s) (detail.H2 (Hash (key s)))
         (bucket Hash t (key s)) = Ret None)
   \/ exists (p : N) (m : detail.metadata_t) (c : option (Slot K V)),
        r = Some p /\ t' = placed Hash t p s
        /\ locationForInsertion_loop Eq fuel t (key s) (detail.H2 (Hash (key s)))
             (bucket Hash t (key s))
           = Ret (Some (mkInsertionLoc p (detail.H2 (Hash (key s)))))
        /\ metadata_ t !! N.to_nat p = Some m /\ detail.IsFree m = true
        /\ p < fsize_ (slots_ t)
        /\ data_ (slots_ t) !! N.to_nat p = Some c).
Proof.
  intros H. unfold insertUnchecked, locationForInsertion in H. cbv zeta in H.
  apply obind_Ret in H as (l & Hloc & H).
  apply obind_Ret in Hloc as (i0 & Hi0 & Hloc).
  apply umod_Ret in Hi0 as [Hc Hi0]. fold (bucket Hash t (key s)) in Hi0. subst i0.
  split; [exact Hc|].
  destruct l as [l|]; [right|left; injection H as <- <-; auto].
  apply obind_Ret in H as (md & Hmd & H). apply obind_Ret in H as (sl & Hsl & H).
  injection H as <- <-.
  destruct (locationForInsertion_loop_free _ _ _ _ _ _ Hloc) as (Hh & m & Hm & Hfree).
  apply meta_set_Ret in Hmd as ->.
  pose proof (cell_write_Ret _ _ _ _ Hsl) as ->.
  unfold cell_write in Hsl. apply obind_Ret in Hsl as (c & Hc' & _).
  unfold cell in Hc'. destruct (idex l <? fsize_ (slots_ t)) eqn:Hlt; [|discriminate].
  apply N.ltb_lt in Hlt.
  destruct (data_ (slots_ t) !! N.to_nat (idex l)) as [c'|] eqn:Hd; [|discriminate].
  exists (idex l), m, c'. destruct l as [p hh]. cbn [idex h2] in *. subst hh.
  repeat split; auto.
Qed.

(** After a slot was placed in the cell that [locationForInsertion]
    answered, [doFind] stops at that cell. *)
Lemma doFind_loop_placed (fuel : nat) (t : HashMap K V) (k : K) (i0 p : N)
    (s : Slot K V) (c : option (Slot K V)) (sz dc : N) (hh : detail.metadata_t) :
  hh < 128 ->
  locationForInsertion_loop Eq fuel t k hh i0 = Ret (Some (mkInsertionLoc p hh)) ->
  p < fsize_ (slots_ t) ->
  data_ (slots_ t) !! N.to_nat p = Some c ->
  Eq k (key s) = true ->
  doFind_loop Eq fuel
    (mkHashMap (capacity_ t) sz (<[N.to_nat p := hh]> (metadata_ t))
       (mkFixedUninitVec (fsize_ (slots_ t)) (<[N.to_nat p := Some s]> (data_ (slots_ t))))
       dc) k hh i0
  = Ret (Some p).
Proof.
  intros Hh Hloc Hp Hc Hk.
  destruct (locationForInsertion_loop_free _ _ _ _ _ _ Hloc) as (_ & mp & Hmp & Hfp).
  cbn [idex] in Hmp.
  pose proof (lookup_lt_Some _ _ _ Hmp) as Hlen.
  pose proof (lookup_lt_Some _ _ _ Hc) as Hlen'.
  revert i0 Hloc. induction fuel as [|fuel IH]; intros i0;
    cbn [locationForInsertion_loop doFind_loop]; [discriminate|].
  unfold meta_get. cbn [metadata_ slots_ capacity_].
  destruct (metadata_ t !! N.to_nat i0) as [m|] eqn:Hm; cbn [obind]; [|discriminate].
  destruct (detail.IsFree m) eqn:Hfree.
  - intros [= ->]. rewrite list_lookup_insert_eq by assumption. cbn [obind].
    rewrite N.eqb_refl. unfold cell_read, cell. cbn [fsize_ data_].
    apply N.ltb_lt in Hp. rewrite Hp.
    rewrite list_lookup_insert_eq by assumption. cbn [obind]. rewrite Hk. reflexivity.
  - intros H.
    assert (Hne : N.to_nat p <> N.to_nat i0) by (intros E; rewrite E in Hmp; congruence).
    rewrite list_lookup_insert_ne by assumption. rewrite Hm. cbn [obind].
    assert (Hcr : cell_read
               (mkFixedUninitVec (fsize_ (slots_ t))
                  (<[N.to_nat p := Some s]> (data_ (slots_ t)))) i0
             = cell_read (slots_ t) i0).
    { unfold cell_read, cell. cbn [fsize_ data_].
      rewrite list_lookup_insert_ne by assumption. reflexivity. }
    rewrite Hcr.
    apply obind_Ret in H as (found & Hfound & H). rewrite Hfound. cbn [obind].
    destruct found; [discriminate|].
    destruct (N.eqb_spec m detail.Empty) as [->|_]; [discriminate|].
    apply obind_Ret in H as (next & Hnext & H). rewrite Hnext. cbn [obind].
    apply IH. exact H.
Qed.

(** Where [locationForInsertion] refuses, [doFind] finds the key. *)
Lemma doFind_loop_refused (fuel : nat) (t : HashMap K V) (k : K) (i0 : N)
    (hh : detail.metadata_t) :
  locationForInsertion_loop Eq fuel t k hh i0 = Ret None ->
  exists j : N, doFind_loop Eq fuel t k hh i0 = Ret (Some j).
Proof.
  revert i0. induction fuel as [|fuel IH]; intros i0;
    cbn [locationForInsertion_loop doFind_loop]; [discriminate|].
  destruct (meta_get t i0) as [m| | |]; cbn [obind]; try discriminate.
  destruct (detail.IsFree m) eqn:Hfree; [discriminate|].
  intros H. apply obind_Ret in H as (found & Hfound & H). rewrite Hfound. cbn [obind].
  destruct found; [eauto|].
  destruct (N.eqb_spec m detail.Empty) as [->|_]; [discriminate|].
  apply obind_Ret in H as (next & Hnext & H). rewrite Hnext. cbn [obind].
  apply IH. exact H.
Qed.

(** Where [doFind] reaches an [Empty] byte, [locationForInsertion] answers
    a free cell. *)
Lemma locationForInsertion_loop_absent (fuel : nat) (t : HashMap K V) (k : K) (i0 : N)
    (hh : detail.metadata_t) :
  doFind_loop Eq fuel t k hh i0 = Ret None ->
  exists l : InsertionLoc,
    locationForInsertion_loop Eq fuel t k hh i0 = Ret (Some l).
Proof.
  revert i0. induction fuel as [|fuel IH]; intros i0;
    cbn [locationForInsertion_loop doFind_loop]; [discriminate|].
  destruct (meta_get t i0) as [m| | |]; cbn [obind]; try discriminate.
  destruct (detail.IsFree m) eqn:Hfree; [eauto|].
  intros H. apply obind_Ret in H as (found & Hfound & H). rewrite Hfound. cbn [obind].
  destruct found; [discriminate|].
  destruct (N.eqb_spec m detail.Empty) as [->|_]; [discriminate|].
  apply obind_Ret in H as (next & Hnext & H). rewrite Hnext. cbn [obind].
  apply IH. exact H.
Qed.

Lemma insertUnchecked_then_doFind (fuel : nat) (s : Slot K V) (t t' : HashMap K V)
    (r : option N) :
  Eq (key s) (key s) = true ->
  insertUnchecked Hash Eq fuel s t = Ret (r, t') ->
  match r with
  | Some p => doFind Hash Eq fuel t' (key s) = Ret (Some p)
              /\ cell_read (slots_ t') p = Ret s
  | None => t' = t /\ exists j : N, doFind Hash Eq fuel t' (key s) = Ret (Some j)
  end.
Proof.
  intros Hk H. apply insertUnchecked_Ret in H as [Hc [(-> & -> & Hloc)|H]].
  - split; [reflexivity|]. apply doFind_loop_refused in Hloc as [j Hj].
    exists j. unfold doFind, umod. cbv zeta.
    destruct (N.eqb_spec (capacity_ t) 0) as [?|_]; [contradiction|]. exact Hj.
  - destruct H as (p & m & c & -> & -> & Hloc & Hm & Hfree & Hp & Hd). split.
    + unfold doFind, umod, placed. cbv zeta. cbn [capacity_].
      destruct (N.eqb_spec (capacity_ t) 0) as [?|_]; [contradiction|]. cbn [obind].
      eapply doFind_loop_placed; eauto. apply H2_lt.
    + unfold placed, cell_read, cell. cbn [slots_ fsize_ data_].
      apply N.ltb_lt in Hp. rewrite Hp.
      rewrite list_lookup_insert_eq by (eapply lookup_lt_Some; eauto). reflexivity.
Qed.

End Steps.

(** [insert] makes the key findable: where it answers a position other
    than [end()] the new slot is there, with the value given; where it
    answers [end()] the key was there already. *)
Lemma insert_findable
    {K V : Type} (Hash : K -> N) (Eq : K -> K -> bool)
    (fuel : nat) (k : K) (v : V) (t t' : HashMap K V) (r : option iterator) :
  Eq k k = true ->
  insert Hash Eq fuel (k, v) t = Ret (r, t') ->
  exists it : iterator,
    r = Some it
    /\ (it <> end_ t' ->
        find Hash Eq fuel k t' = Ret it /\ at_ Hash Eq fuel k t' = Ret (it, v, t'))
    /\ (it = end_ t' ->
        exists (j : iterator) (v0 : V),
          j <> end_ t' /\ find Hash Eq fuel k t' = Ret j
          /\ at_ Hash Eq fuel k t' = Ret (j, v0, t')).
Proof.
  intros Hk H. unfold insert in H.
  apply obind_Ret in H as (t1 & _ & H).
  apply obind_Ret in H as ([r1 t2] & Hins & H). cbn [fst snd] in H.
  injection H as <- <-.
  apply insertUnchecked_then_doFind in Hins; [|exact Hk]. cbn [key fst snd] in Hins.
  eexists. split; [reflexivity|].
  destruct r1 as [p|]; cbn [iteratorAt_opt].
  - destruct Hins as [Hf Hs]. split.
    + intros _. split; [apply find_found; exact Hf|].
      unfold at_. rewrite Hf. cbn [obind]. unfold iteratorAt. rewrite Hs. reflexivity.
    + intros E. apply find_found in Hf as [_ Hne]. contradiction.
  - destruct Hins as (-> & j & Hj). split; [intros E; contradiction|].
    intros _. destruct (doFind_Some _ _ _ _ _ _ Hj) as (s & _ & Hs & _).
    exists j, (value s). apply find_found in Hj as Hf. destruct Hf as [Hf Hne].
    repeat split; auto. unfold at_. rewrite Hj. cbn [obind]. rewrite Hs. reflexivity.
Qed.

(** * The data model is kept by every public call *)

Section DataModel.

Context {K V : Type}.
Variable Hash : K -> N.
Variable Eq : K -> K -> bool.

Lemma live_count_all_free (md : list detail.metadata_t) :
  (forall (j : nat) (m : detail.metadata_t),
     md !! j = Some m -> detail.IsFree m = true) ->
  length (filter (fun x => detail.IsFree x = false) md) = 0%nat.
Proof.
  induction md as [|x md IH]; intros H; [reflexivity|].
  rewrite filter_cons. pose proof (H 0%nat x eq_refl) as Hx.
  destruct (decide (detail.IsFree x = false)) as [E|_]; [congruence|].
  apply IH. intros j m Hj. apply (H (S j) m Hj).
Qed.

Lemma data_model_new (c : N) :
  c < size_t_modulus -> data_model Hash (HashMap_new (K:=K) (V:=V) c).
Proof.
  intros Hc. split; [apply well_formed_new; exact Hc|]. split.
  - intros j m Hm _. unfold HashMap_new, FixedUninitVec_new in *.
    cbn [metadata_ slots_ data_] in *.
    apply lookup_replicate in Hm as [_ Hj]. apply lookup_replicate_2. exact Hj.
  - unfold counted, live_count, HashMap_new. cbn [size_ metadata_].
    rewrite live_count_all_free; [reflexivity|].
    intros j m Hm. apply lookup_replicate in Hm as [-> _]. reflexivity.
Qed.

Lemma data_model_move (t : HashMap K V) :
  data_model Hash t -> data_model Hash (fst (move t)).
Proof. intros H. exact H. Qed.

Lemma placed_data_model (t : HashMap K V) (p : N) (s : Slot K V)
    (m : detail.metadata_t) (r : option N) (fuel : nat) :
  data_model Hash t ->
  insertUnchecked Hash Eq fuel s t = Ret (r, placed Hash t p s) ->
  metadata_ t !! N.to_nat p = Some m -> detail.IsFree m = true ->
  data_model Hash (placed Hash t p s).
Proof.
  intros (Hwf & Htidy & Hcount) Hins Hm Hfree.
  split; [eapply insertUnchecked_well_formed; eauto|]. split.
  - intros j m' Hj Hfree'. unfold placed in *. cbn [metadata_ slots_ data_] in *.
    destruct (decide (N.to_nat p = j)) as [<-|Hne].
    + rewrite list_lookup_insert_eq in Hj by (eapply lookup_lt_Some; eauto).
      injection Hj as <-. rewrite IsFree_H2 in Hfree'. discriminate.
    + rewrite list_lookup_insert_ne in Hj by assumption.
      rewrite list_lookup_insert_ne by assumption. eapply Htidy; eauto.
  - unfold counted, live_count in *. unfold placed. cbn [size_ metadata_].
    pose proof (live_count_update (metadata_ t) (N.to_nat p) m
                  (detail.H2 (Hash (key s))) Hm) as Hupd.
    rewrite Hfree, IsFree_H2 in Hupd. cbv iota in Hupd.
    pose proof (length_filter (fun x => detail.IsFree x = false)
                  (<[N.to_nat p := detail.H2 (Hash (key s))]> (metadata_ t))) as Hle.
    rewrite length_insert in Hle.
    destruct Hwf as (Hcap & Hlen & _).
    rewrite Hcount. unfold wrap. rewrite N.mod_small; lia.
Qed.

Lemma insertUnchecked_data_model (fuel : nat) (s : Slot K V) (t t' : HashMap K V)
    (r : option N) :
  data_model Hash t ->
  insertUnchecked Hash Eq fuel s t = Ret (r, t') -> data_model Hash t'.
Proof.
  intros Hdm H. pose proof H as H'.
  apply insertUnchecked_Ret in H' as [_ [(_ & -> & _)|H']]; [exact Hdm|].
  destruct H' as (p & m & c & -> & -> & _ & Hm & Hfree & _).
  eapply placed_data_model; eauto.
Qed.

Lemma move_slots_data_model (fuel : nat) (old : HashMap K V) (n : nat) (i : N)
    (newTable newTable' : HashMap K V) :
  data_model Hash newTable ->
  move_slots Hash Eq fuel old n i newTable = Ret newTable' ->
  data_model Hash newTable'.
Proof.
  revert i newTable. induction n as [|n IH]; intros i newTable Hdm; cbn [move_slots].
  - intros [= <-]. exact Hdm.
  - intros H. apply obind_Ret in H as (m & _ & H).
    apply obind_Ret in H as (nt & Hnt & H). apply (IH (i + 1) nt); [|exact H].
    destruct (negb (detail.IsFree m)).
    + apply obind_Ret in Hnt as (s & _ & Hnt).
      apply obind_Ret in Hnt as ([r t1] & Hins & Hnt). injection Hnt as <-.
      eapply insertUnchecked_data_model; eauto.
    + injection Hnt as <-. exact Hdm.
Qed.

Lemma growAndRehash_to_data_model (fuel : nat) (newCapacity : N) (t t' : HashMap K V) :
  data_model Hash t -> newCapacity < size_t_modulus ->
  growAndRehash_to Hash Eq fuel newCapacity t = Ret t' -> data_model Hash t'.
Proof.
  intros Hdm Hn H. unfold growAndRehash_to in H.
  destruct (newCapacity <=? capacity_ t); [injection H as <-; exact Hdm|].
  apply obind_Ret in H as (nt & Hnt & H). injection H as <-.
  apply data_model_move. destruct (negb (empty t)).
  - eapply move_slots_data_model; [|exact Hnt]. apply data_model_new. exact Hn.
  - injection Hnt as <-. apply data_model_new. exact Hn.
Qed.

Lemma growAndRehash_data_model (fuel : nat) (t t' : HashMap K V) :
  data_model Hash t -> growAndRehash Hash Eq fuel t = Ret t' -> data_model Hash t'.
Proof.
  intros Hdm H. unfold growAndRehash in H.
  eapply growAndRehash_to_data_model; [exact Hdm| |exact H].
  destruct (capacity_ t =? 0); [reflexivity|apply wrap_lt].
Qed.

Lemma rehashEverything_data_model (fuel : nat) (t t' : HashMap K V) :
  data_model Hash t -> rehashEverything Hash Eq fuel t = Ret t' -> data_model Hash t'.
Proof.
  intros Hdm H. unfold rehashEverything in H.
  destruct (empty t); [injection H as <-; exact Hdm|].
  apply obind_Ret in H as (nt & Hnt & H). injection H as <-.
  apply data_model_move. eapply move_slots_data_model; [|exact Hnt].
  apply data_model_new. apply Hdm.
Qed.

Lemma insert_data_model (fuel : nat) (kv : K * V) (t t' : HashMap K V)
    (r : option iterator) :
  data_model Hash t -> insert Hash Eq fuel kv t = Ret (r, t') -> data_model Hash t'.
Proof.
  intros Hdm H. unfold insert in H.
  apply obind_Ret in H as (t1 & Ht1 & H).
  apply obind_Ret in H as ([r1 t2] & Hins & H). injection H as _ <-.
  eapply insertUnchecked_data_model; [|exact Hins].
  destruct (needToGrowForInsert t).
  - eapply growAndRehash_data_model; eauto.
  - injection Ht1 as <-. exact Hdm.
Qed.

(** [erase(iterator)] either answers [false] at [end()], or turns a live
    cell into a tombstone and rehashes when [needRehash] says so. *)
Lemma erase_it_Ret (fuel : nat) (it : iterator) (t t' : HashMap K V) (b : bool) :
  erase_it Hash Eq fuel it t = Ret (b, t') ->
  (b = false /\ it = end_ t /\ t' = t)
  \/ (b = true /\ it <> end_ t /\ it < capacity_ t
      /\ (N.to_nat it < length (metadata_ t))%nat
      /\ it < fsize_ (slots_ t)
      /\ (exists s : Slot K V, data_ (slots_ t) !! N.to_nat it = Some (Some s))
      /\ ((needRehash (tombstoned t it) = false /\ t' = tombstoned t it)
          \/ (needRehash (tombstoned t it) = true
              /\ rehashEverything Hash Eq fuel (tombstoned t it) = Ret t'))).
Proof.
  intros H. unfold erase_it in H.
  destruct (N.eqb_spec it (end_ t)) as [->|Hne]; [injection H as <- <-; auto|].
  destruct (N.ltb_spec it (capacity_ t)) as [Hlt|?]; cbn [negb] in H; [|discriminate].
  apply obind_Ret in H as (t1 & Ht1 & H).
  apply obind_Ret in H as (t3 & Ht3 & H). injection H as <- <-. right.
  unfold deleteSlot in Ht1.
  apply obind_Ret in Ht1 as (md & Hmd & Ht1). apply obind_Ret in Ht1 as (s & Hs & Ht1).
  apply obind_Ret in Ht1 as (sl & Hsl & Ht1). injection Ht1 as <-.
  pose proof (meta_set_Ret _ _ _ _ Hmd) as ->.
  unfold meta_set in Hmd.
  destruct (Nat.ltb_spec (N.to_nat it) (length (metadata_ t))) as [Hlen|?];
    [|discriminate].
  apply cell_write_Ret in Hsl as ->. apply cell_read_lt in Hs as [Hfs Hs].
  cbn [capacity_ size_ metadata_ slots_ deletedCount_] in Ht3.
  fold (tombstoned t it) in Ht3.
  repeat split; eauto.
  destruct (needRehash (tombstoned t it)); [right|left]; split; auto.
  injection Ht3 as <-. reflexivity.
Qed.

Lemma tombstoned_data_model (t : HashMap K V) (p : N) (s : Slot K V) :
  data_model Hash t ->
  (N.to_nat p < length (metadata_ t))%nat ->
  data_ (slots_ t) !! N.to_nat p = Some (Some s) ->
  data_model Hash (tombstoned t p).
Proof.
  intros (Hwf & Htidy & Hcount) Hlen Hs.
  destruct (lookup_lt_is_Some_2 _ _ Hlen) as [m Hm].
  assert (Hlive : detail.IsFree m = false).
  { destruct (detail.IsFree m) eqn:E; [|reflexivity].
    rewrite (Htidy _ _ Hm E) in Hs. discriminate. }
  split; [|split].
  - unfold tombstoned. apply well_formed_update; [exact Hwf|discriminate|discriminate].
  - intros j m' Hj Hfree'. unfold tombstoned in *. cbn [metadata_ slots_ data_] in *.
    destruct (decide (N.to_nat p = j)) as [<-|Hne].
    + apply list_lookup_insert_eq. eapply lookup_lt_Some; eauto.
    + rewrite list_lookup_insert_ne in Hj by assumption.
      rewrite list_lookup_insert_ne by assumption. eapply Htidy; eauto.
  - unfold counted, live_count in *. unfold tombstoned. cbn [size_ metadata_].
    pose proof (live_count_update (metadata_ t) (N.to_nat p) m detail.Deleted Hm) as Hupd.
    rewrite Hlive in Hupd. change (detail.IsFree detail.Deleted) with true in Hupd.
    cbv iota in Hupd.
    pose proof (length_filter (fun x => detail.IsFree x = false) (metadata_ t)) as Hle.
    destruct Hwf as (Hcap & Hlen' & _).
    assert (HM : 1 <= size_t_modulus) by (apply N.leb_le; reflexivity).
    rewrite Hcount. unfold wrap.
    replace (N.of_nat (length (filter (fun x => detail.IsFree x = false) (metadata_ t)))
             + (size_t_modulus - 1))
      with (N.of_nat (length (filter (fun x => detail.IsFree x = false)
                                (<[N.to_nat p := detail.Deleted]> (metadata_ t))))
            + 1 * size_t_modulus) by lia.
    rewrite N.Div0.mod_add. apply N.mod_small. lia.
Qed.

Lemma erase_it_data_model (fuel : nat) (it : iterator) (t t' : HashMap K V) (b : bool) :
  data_model Hash t -> erase_it Hash Eq fuel it t = Ret (b, t') -> data_model Hash t'.
Proof.
  intros Hdm H.
  apply erase_it_Ret in H as [(_ & _ & ->)|(_ & _ & _ & Hlen & _ & [s Hs] & H)];
    [exact Hdm|].
  pose proof (tombstoned_data_model t it s Hdm Hlen Hs) as Hdm'.
  destruct H as [[_ ->]|[_ H]]; [exact Hdm'|].
  eapply rehashEverything_data_model; eauto.
Qed.

Lemma erase_data_model (fuel : nat) (k : K) (t t' : HashMap K V) (b : bool) :
  data_model Hash t -> erase Hash Eq fuel k t = Ret (b, t') -> data_model Hash t'.
Proof.
  intros Hdm H. unfold erase in H. apply obind_Ret in H as (it & _ & H).
  eapply erase_it_data_model; eauto.
Qed.

(** The loop of [clear] writes nothing but empty cells to the storage,
    and empties every cell that was live. *)
Lemma clear_loop_data (n : nat) (i : N) (md md' : list detail.metadata_t)
    (sl sl' : FixedUninitVec (Slot K V)) :
  clear_loop n i md sl = Ret (md', sl') ->
  (forall j : nat, data_ sl !! j = Some None -> data_ sl' !! j = Some None)
  /\ forall (j : nat) (m : detail.metadata_t),
       (N.to_nat i <= j < N.to_nat i + n)%nat ->
       md !! j = Some m -> detail.IsFree m = false ->
       data_ sl' !! j = Some None.
Proof.
  revert i md sl. induction n as [|n IH]; intros i md sl; cbn [clear_loop].
  - intros [= <- <-]. split; [auto|]. intros j m Hj. lia.
  - intros H. apply obind_Ret in H as (m & Hm & H).
    apply obind_Ret in H as (sl1 & Hsl1 & H).
    apply obind_Ret in H as (md1 & Hmd1 & H).
    apply IH in H as [Hkeep Hrange].
    destruct (md !! N.to_nat i) as [m0|] eqn:Hmi; [|discriminate].
    injection Hm as ->.
    apply meta_set_Ret in Hmd1 as ->.
    assert (Hstep : (forall j, data_ sl !! j = Some None -> data_ sl1 !! j = Some None)
                    /\ (detail.IsFree m = false -> data_ sl1 !! N.to_nat i = Some None)).
    { destruct (detail.IsFree m) eqn:Hfree; cbn [negb] in Hsl1.
      - injection Hsl1 as <-. split; [auto|discriminate].
      - apply obind_Ret in Hsl1 as (s & Hs & Hsl1).
        apply cell_read_lt in Hs as [_ Hs].
        apply cell_write_Ret in Hsl1 as ->. cbn [data_]. split.
        + intros j Hj. destruct (decide (N.to_nat i = j)) as [<-|Hne].
          * apply list_lookup_insert_eq. eapply lookup_lt_Some; eauto.
          * rewrite list_lookup_insert_ne by assumption. exact Hj.
        + intros _. apply list_lookup_insert_eq. eapply lookup_lt_Some; eauto. }
    destruct Hstep as [Hs1 Hs2]. split; [auto|].
    intros j m' Hj Hm' Hfree'.
    destruct (decide (j = N.to_nat i)) as [->|Hne].
    + apply Hkeep. apply Hs2. congruence.
    + apply (Hrange j m'); [lia| |exact Hfree'].
      rewrite list_lookup_insert_ne by lia. exact Hm'.
Qed.

Lemma clear_data_model (t t' : HashMap K V) :
  data_model Hash t -> clear t = Ret t' -> data_model Hash t'.
Proof.
  intros Hdm H. pose proof H as H'.
  destruct Hdm as (Hwf & Htidy & Hcount).
  split; [eapply clear_well_formed; eauto|].
  unfold clear in H. destruct (empty t); [injection H as <-; auto|].
  apply obind_Ret in H as ([md sl] & Hloop & H). injection H as <-.
  pose proof (clear_loop_lengths _ _ _ _ _ _ Hloop) as [Hl1 Hl2].
  pose proof (clear_loop_metadata _ _ _ _ _ _ Hloop) as [Hsz Hmd].
  pose proof (clear_loop_data _ _ _ _ _ _ Hloop) as [Hkeep Hrange].
  destruct Hwf as (Hcap & Hlmd & Hfs & Hlds & _).
  assert (Hall : forall (j : nat) (m : detail.metadata_t),
             md !! j = Some m -> m = detail.Empty).
  { intros j m Hj. pose proof (lookup_lt_Some _ _ _ Hj) as Hlt. rewrite Hmd in Hj.
    destruct (decide _) as [_|Hout]; [congruence|]. lia. }
  split.
  - intros j m Hj _. cbn [metadata_ slots_ fst snd] in *.
    pose proof (lookup_lt_Some _ _ _ Hj) as Hlt.
    destruct (lookup_lt_is_Some_2 (metadata_ t) j ltac:(lia)) as [m0 Hm0].
    destruct (detail.IsFree m0) eqn:Hfree.
    + apply Hkeep. eapply Htidy; eauto.
    + apply (Hrange j m0); [lia|exact Hm0|exact Hfree].
  - unfold counted, live_count. cbn [size_ metadata_ fst].
    rewrite live_count_all_free; [reflexivity|].
    intros j m Hj. rewrite (Hall j m Hj). reflexivity.
Qed.

Lemma reserve_data_model (fuel : nat) (n : N) (t t' : HashMap K V) :
  data_model Hash t -> n < size_t_modulus ->
  reserve Hash Eq fuel n t = Ret t' -> data_model Hash t'.
Proof.
  intros Hdm Hn H. unfold reserve in H.
  destruct (n <=? capacity_ t); [injection H as <-; exact Hdm|].
  eapply growAndRehash_to_data_model; eauto.
Qed.

Lemma run_call_data_model (fuel : nat) (c : call K V) (t t' : HashMap K V) :
  data_model Hash t -> run_call Hash Eq fuel c t = Ret t' -> data_model Hash t'.
Proof.
  intros Hdm H. destruct c as [kv|k|it| |n]; cbn [run_call] in H.
  - apply obind_Ret in H as ([r t1] & H1 & H). injection H as <-.
    eapply insert_data_model; eauto.
  - apply obind_Ret in H as ([r t1] & H1 & H). injection H as <-.
    eapply erase_data_model; eauto.
  - apply obind_Ret in H as ([r t1] & H1 & H). injection H as <-.
    eapply erase_it_data_model; eauto.
  - eapply clear_data_model; eauto.
  - eapply reserve_data_model; [exact Hdm|apply wrap_lt|exact H].
Qed.

Lemma run_data_model (fuel : nat) (cs : list (call K V)) (t t' : HashMap K V) :
  data_model Hash t -> run Hash Eq fuel cs t = Ret t' -> data_model Hash t'.
Proof.
  revert t. induction cs as [|c cs IH]; intros t Hdm; cbn [run].
  - intros [= <-]. exact Hdm.
  - intros H. apply obind_Ret in H as (t1 & H1 & H).
    eapply IH; [|exact H]. eapply run_call_data_model; eauto.
Qed.

Lemma reachable_data_model (t : HashMap K V) :
  reachable Hash Eq t -> data_model Hash t.
Proof.
  intros (c & cs & fuel & Hc & Hrun).
  eapply run_data_model; [|exact Hrun]. apply data_model_new. exact Hc.
Qed.

End DataModel.

(** * Rehashing moves every slot, when no two live keys are equal *)

Section Rehash.

Context {K V : Type}.
Variable Hash : K -> N.
Variable Eq : K -> K -> bool.

Lemma live_key_holds (t : HashMap K V) (j : nat) (k : K) :
  live_key t j = Some k <-> exists s : Slot K V, holds t j s /\ key s = k.
Proof.
  unfold live_key, holds. split.
  - destruct (live t j); [|discriminate].
    destruct (data_ (slots_ t) !! j) as [[s|]|]; try discriminate.
    intros [= <-]. eauto.
  - intros (s & [-> ->] & <-). reflexivity.
Qed.

Lemma holds_placed (t : HashMap K V) (p : N) (s : Slot K V)
    (m : detail.metadata_t) (c : option (Slot K V)) (j : nat) (x : Slot K V) :
  metadata_ t !! N.to_nat p = Some m -> detail.IsFree m = true ->
  data_ (slots_ t) !! N.to_nat p = Some c ->
  holds (placed Hash t p s) j x <-> holds t j x \/ (j = N.to_nat p /\ x = s).
Proof.
  intros Hm Hfree Hc.
  pose proof (lookup_lt_Some _ _ _ Hm) as Hl1.
  pose proof (lookup_lt_Some _ _ _ Hc) as Hl2.
  unfold holds, live, placed. cbn [metadata_ slots_ data_].
  destruct (decide (N.to_nat p = j)) as [<-|Hne].
  - rewrite !list_lookup_insert_eq by assumption. rewrite Hm, Hfree, IsFree_H2.
    cbn [negb]. split.
    + intros [_ [= ->]]. auto.
    + intros [[E _]|[_ ->]]; [discriminate|auto].
  - rewrite !list_lookup_insert_ne by assumption. split; [auto|].
    intros [H|[E _]]; [exact H|congruence].
Qed.

Lemma live_count_placed (t : HashMap K V) (p : N) (s : Slot K V)
    (m : detail.metadata_t) :
  metadata_ t !! N.to_nat p = Some m -> detail.IsFree m = true ->
  live_count (placed Hash t p s) = S (live_count t).
Proof.
  intros Hm Hfree. unfold live_count, placed. cbn [metadata_].
  pose proof (live_count_update (metadata_ t) (N.to_nat p) m
                (detail.H2 (Hash (key s))) Hm) as Hupd.
  rewrite Hfree, IsFree_H2 in Hupd. cbv iota in Hupd. lia.
Qed.

(** The loop of [growAndRehash] and [rehashEverything], from cell [i] on,
    when the old table holds no key twice: nothing is refused, so the new
    table receives every live slot of the cells visited and no other. *)
Lemma move_slots_slots (fuel : nat) (old : HashMap K V) (n : nat) (i : N)
    (newTable newTable' : HashMap K V) :
  no_duplicate_live_keys Eq old ->
  move_slots Hash Eq fuel old n i newTable = Ret newTable' ->
  no_duplicate_live_keys Eq newTable ->
  (forall (j : nat) (x : Slot K V), holds newTable j x ->
     exists j0 : nat, (j0 < N.to_nat i)%nat /\ holds old j0 x) ->
  no_duplicate_live_keys Eq newTable'
  /\ (forall (j : nat) (x : Slot K V), holds newTable' j x ->
        exists j0 : nat, (j0 < N.to_nat i + n)%nat /\ holds old j0 x)
  /\ (forall (j : nat) (x : Slot K V), holds newTable j x -> holds newTable' j x)
  /\ (forall (j0 : nat) (x : Slot K V),
        (N.to_nat i <= j0 < N.to_nat i + n)%nat -> holds old j0 x ->
        exists j : nat, holds newTable' j x)
  /\ live_count newTable'
     = (live_count newTable
        + length (filter (fun m => detail.IsFree m = false)
                    (take n (drop (N.to_nat i) (metadata_ old)))))%nat.
Proof.
  intros Hold. revert i newTable.
  induction n as [|n IH]; intros i nt; cbn [move_slots].
  - intros [= <-] Hnd Hfrom. split; [exact Hnd|]. split.
    { intros j x Hx. destruct (Hfrom j x Hx) as (j0 & ? & ?). exists j0. split; [lia|auto]. }
    split; [auto|]. split; [intros j0 x ?; lia|].
    rewrite take_0. cbn. lia.
  - intros H Hnd Hfrom.
    apply obind_Ret in H as (m & Hm & H).
    apply obind_Ret in H as (nt1 & Hnt1 & H).
    unfold meta_get in Hm.
    destruct (metadata_ old !! N.to_nat i) as [m0|] eqn:Hmi; [|discriminate].
    injection Hm as ->.
    assert (Hdrop : drop (N.to_nat i) (metadata_ old)
                    = m :: drop (N.to_nat (i + 1)) (metadata_ old)).
    { replace (N.to_nat (i + 1)) with (S (N.to_nat i)) by lia.
      apply drop_S. exact Hmi. }
    rewrite Hdrop. cbn [take]. rewrite filter_cons.
    destruct (detail.IsFree m) eqn:Hfree; cbn [negb] in Hnt1.
    + (* a free cell: nothing moves *)
      injection Hnt1 as <-.
      destruct (IH (i + 1) nt H Hnd) as (Hnd' & Hfrom' & Hkeep & Hinto & Hcount).
      { intros j x Hx. destruct (Hfrom j x Hx) as (j0 & ? & ?). exists j0.
        split; [lia|auto]. }
      split; [exact Hnd'|]. split.
      { intros j x Hx. destruct (Hfrom' j x Hx) as (j0 & ? & ?). exists j0.
        split; [lia|auto]. }
      split; [exact Hkeep|]. split.
      { intros j0 x Hj0 Hx. destruct (decide (j0 = N.to_nat i)) as [->|Hne].
        - destruct Hx as [Hl _]. unfold live in Hl. rewrite Hmi, Hfree in Hl. discriminate.
        - apply (Hinto j0 x); [lia|exact Hx]. }
      destruct (decide (true = false)) as [E|_]; [discriminate|]. exact Hcount.
    + (* a live cell: its slot is placed *)
      apply obind_Ret in Hnt1 as (s & Hs & Hnt1).
      apply obind_Ret in Hnt1 as ([r t1] & Hins & Hnt1). cbn [snd] in Hnt1.
      injection Hnt1 as ->.
      apply cell_read_lt in Hs as [_ Hs].
      assert (Hsi : holds old (N.to_nat i) s).
      { split; [|exact Hs]. unfold live. rewrite Hmi, Hfree. reflexivity. }
      apply insertUnchecked_Ret in Hins as [Hc [(-> & -> & Hloc)|Hins]].
      { (* a refusal would need a second slot with an equal key *)
        exfalso. apply doFind_loop_refused in Hloc as [j Hj].
        apply doFind_loop_Some in Hj as (s' & Hmj & Hs' & Hk).
        apply cell_read_lt in Hs' as [_ Hs'].
        assert (Hj' : holds nt (N.to_nat j) s').
        { split; [|exact Hs']. unfold live.
          rewrite (Hmj : metadata_ nt !! N.to_nat j = Some (detail.H2 (Hash (key s)))).
          rewrite IsFree_H2. reflexivity. }
        destruct (Hfrom _ _ Hj') as (j0 & Hlt & Hj0).
        assert (N.to_nat i = j0); [|lia].
        apply (Hold (N.to_nat i) j0 (key s) (key s')); [| |exact Hk];
          apply live_key_holds; eauto. }
      destruct Hins as (p & mp & c & -> & -> & _ & Hmp & Hfp & _ & Hcp).
      pose proof (fun j x => holds_placed nt p s mp c j x Hmp Hfp Hcp) as Hpl.
      destruct (IH (i + 1) (placed Hash nt p s) H) as (Hnd' & Hfrom' & Hkeep & Hinto & Hcount).
      { intros a b ka kb Ha Hb Hab.
        apply live_key_holds in Ha as (xa & Ha & <-).
        apply live_key_holds in Hb as (xb & Hb & <-).
        apply Hpl in Ha as [Ha|[-> ->]]; apply Hpl in Hb as [Hb|[-> ->]].
        - apply (Hnd a b (key xa) (key xb)); [| |exact Hab]; apply live_key_holds; eauto.
        - exfalso. destruct (Hfrom _ _ Ha) as (j0 & Hlt & Hj0).
          assert (j0 = N.to_nat i); [|lia].
          apply (Hold j0 (N.to_nat i) (key xa) (key s)); [| |exact Hab];
            apply live_key_holds; eauto.
        - exfalso. destruct (Hfrom _ _ Hb) as (j0 & Hlt & Hj0).
          assert (N.to_nat i = j0); [|lia].
          apply (Hold (N.to_nat i) j0 (key s) (key xb)); [| |exact Hab];
            apply live_key_holds; eauto.
        - reflexivity. }
      { intros j x Hx. apply Hpl in Hx as [Hx|[-> ->]].
        - destruct (Hfrom j x Hx) as (j0 & ? & ?). exists j0. split; [lia|auto].
        - exists (N.to_nat i). split; [lia|exact Hsi]. }
      split; [exact Hnd'|]. split.
      { intros j x Hx. destruct (Hfrom' j x Hx) as (j0 & ? & ?). exists j0.
        split; [lia|auto]. }
      split.
      { intros j x Hx. apply Hkeep. apply Hpl. left. exact Hx. }
      split.
      { intros j0 x Hj0 Hx. destruct (decide (j0 = N.to_nat i)) as [->|Hne].
        - assert (x = s) as ->.
          { destruct Hx as [_ Hx]. destruct Hsi as [_ Hsi]. congruence. }
          exists (N.to_nat p). apply Hkeep. apply Hpl. right. auto.
        - apply (Hinto j0 x); [lia|exact Hx]. }
      rewrite Hcount, (live_count_placed nt p s mp Hmp Hfp).
      destruct (decide (false = false)) as [_|E]; [|congruence]. cbn [length]. lia.
Qed.

End Rehash.

Section SameSlots.

Context {K V : Type}.
Variable Hash : K -> N.
Variable Eq : K -> K -> bool.

Hypothesis Eq_Hash : forall x y : K, Eq x y = true -> Hash x = Hash y.
Hypothesis Eq_sym : forall x y : K, Eq x y = true -> Eq y x = true.
Hypothesis Eq_trans : forall x y z : K, Eq x y = true -> Eq y z = true -> Eq x z = true.

Lemma holds_lt (t : HashMap K V) (j : nat) (x : Slot K V) :
  holds t j x -> (j < length (metadata_ t))%nat.
Proof.
  intros [Hl _]. unfold live in Hl.
  destruct (metadata_ t !! j) eqn:E; [|discriminate]. eapply lookup_lt_Some; eauto.
Qed.

Lemma holds_new (c : N) (j : nat) (x : Slot K V) :
  ~ holds (HashMap_new (K:=K) (V:=V) c) j x.
Proof.
  intros [Hl _]. unfold live, HashMap_new in Hl. cbn [metadata_] in Hl.
  destruct (replicate (N.to_nat c) detail.Empty !! j) eqn:E; [|discriminate].
  apply lookup_replicate in E as [-> _]. discriminate.
Qed.

(** Without duplicates, at most one live cell holds a key equal to [k]. *)
Lemma no_duplicate_unique (t : HashMap K V) (k : K) (i1 i2 : nat) (s1 s2 : Slot K V) :
  no_duplicate_live_keys Eq t ->
  holds t i1 s1 -> holds t i2 s2 ->
  Eq k (key s1) = true -> Eq k (key s2) = true -> i1 = i2.
Proof using Eq_sym Eq_trans.
  intros Hnd H1 H2 E1 E2. apply (Hnd i1 i2 (key s1) (key s2)).
  - apply live_key_holds. eauto.
  - apply live_key_holds. eauto.
  - eapply Eq_trans; [apply Eq_sym; exact E1|exact E2].
Qed.

(** A key found in a table is found, with the same value, in every
    well-formed table that holds the slots of the first and holds the key
    once. *)
Lemma at_same_slots (fuel fuel' : nat) (k : K) (t t' : HashMap K V) (j : N) (v : V) :
  well_formed Hash t' ->
  (forall (i1 i2 : nat) (s1 s2 : Slot K V),
     holds t' i1 s1 -> holds t' i2 s2 ->
     Eq k (key s1) = true -> Eq k (key s2) = true -> i1 = i2) ->
  (forall (i : nat) (x : Slot K V),
     holds t i x -> Eq k (key x) = true -> exists i' : nat, holds t' i' x) ->
  at_ Hash Eq fuel k t = Ret (j, v, t) ->
  (N.to_nat (capacity_ t') <= fuel')%nat ->
  exists j' : N,
    at_ Hash Eq fuel' k t' = Ret (j', v, t')
    /\ find Hash Eq fuel' k t' = Ret j' /\ j' <> end_ t'.
Proof using Eq_Hash.
  intros Hwf Huniq Hinto Hat Hfuel.
  unfold at_ in Hat. apply obind_Ret in Hat as ([i|] & Hd & Hat); [|discriminate].
  destruct (doFind_Some_at _ _ _ _ _ _ Hd) as (s & Hs & Hk & _ & Hat').
  unfold at_ in Hat'. rewrite Hd in Hat'. cbn [obind] in Hat'.
  rewrite Hat' in Hat. injection Hat as <- <-.
  destruct (Hinto _ _ Hs Hk) as (i1 & Hs1).
  destruct (doFind_finds Hash Eq Eq_Hash fuel' t' k i1 s Hwf Hs1 Hk Hfuel) as (i2 & Hi2).
  destruct (doFind_Some_at _ _ _ _ _ _ Hi2) as (s2 & Hs2 & Hk2 & _ & Hat2).
  assert (N.to_nat i2 = i1) as E by (eapply Huniq; eauto).
  assert (s2 = s) as ->.
  { rewrite E in Hs2. destruct Hs2 as [_ H2]. destruct Hs1 as [_ H1]. congruence. }
  exists i2. split; [exact Hat2|]. apply find_found. exact Hi2.
Qed.

(** A key that [find] reports absent stays absent in a table that holds
    no other slots. *)
Lemma find_end_same_slots (fuel fuel' : nat) (k : K) (t t' : HashMap K V) (it : iterator) :
  well_formed Hash t ->
  (forall (i : nat) (x : Slot K V),
     holds t' i x -> Eq k (key x) = true -> exists i0 : nat, holds t i0 x) ->
  find Hash Eq fuel k t = Ret (end_ t) ->
  find Hash Eq fuel' k t' = Ret it -> it = end_ t'.
Proof using Eq_Hash.
  intros Hwf Hfrom Hf Hf'. apply find_not_found in Hf.
  destruct (N.eq_dec it (end_ t')) as [E|Hne]; [exact E|exfalso].
  assert (Hd : doFind Hash Eq fuel' t' k = Ret (Some it))
    by (apply find_found; auto).
  destruct (doFind_Some_at _ _ _ _ _ _ Hd) as (s & Hs & Hk & _).
  destruct (Hfrom _ _ Hs Hk) as (i0 & Hs0).
  rewrite (doFind_None_sound Hash Eq Eq_Hash fuel t k i0 s Hwf Hf Hs0) in Hk.
  discriminate.
Qed.

(** The table that the rehashing loop builds from a table without
    duplicates holds the same slots and counts as many. *)
Lemma move_slots_all (fuel : nat) (c : N) (old nt : HashMap K V) :
  data_model Hash old -> no_duplicate_live_keys Eq old -> c < size_t_modulus ->
  move_slots Hash Eq fuel old (N.to_nat (capacity_ old)) 0 (HashMap_new c) = Ret nt ->
  data_model Hash nt /\ no_duplicate_live_keys Eq nt
  /\ (forall (j : nat) (x : Slot K V), holds nt j x -> exists j0 : nat, holds old j0 x)
  /\ (forall (j0 : nat) (x : Slot K V), holds old j0 x -> exists j : nat, holds nt j x)
  /\ size_ nt = size_ old.
Proof using Type.
  intros Hdm Hnd Hc Hmove.
  pose proof (move_slots_data_model Hash Eq _ _ _ _ _ _ (data_model_new Hash c Hc) Hmove)
    as Hdm'.
  destruct (move_slots_slots Hash Eq _ _ _ _ _ _ Hnd Hmove)
    as (Hnd' & Hfrom & _ & Hinto & Hcount).
  { intros a b ka kb Ha. apply live_key_holds in Ha as (x & Hx & _).
    destruct (holds_new _ _ _ Hx). }
  { intros j x Hx. destruct (holds_new _ _ _ Hx). }
  split; [exact Hdm'|]. split; [exact Hnd'|]. split.
  { intros j x Hx. destruct (Hfrom j x Hx) as (j0 & _ & H0). eauto. }
  destruct Hdm as ((_ & Hlen & _) & _ & Hsz). split.
  { intros j0 x Hx. apply (Hinto j0 x); [|exact Hx].
    apply holds_lt in Hx. lia. }
  destruct Hdm' as (_ & _ & Hsz'). unfold counted in *. rewrite Hsz, Hsz', Hcount.
  change (N.to_nat 0) with 0%nat. rewrite drop_0, <- Hlen, firstn_all.
  assert (E : live_count (HashMap_new (K:=K) (V:=V) c) = 0%nat).
  { unfold live_count, HashMap_new. cbn [metadata_]. apply live_count_all_free.
    intros j m Hm. apply lookup_replicate in Hm as [-> _]. reflexivity. }
  rewrite E. reflexivity.
Qed.

Lemma data_model_no_live (t : HashMap K V) (j : nat) (x : Slot K V) :
  data_model Hash t -> size_ t = 0 -> ~ holds t j x.
Proof using Type.
  intros (_ & _ & Hsz) H0 [Hl _]. unfold counted, live_count in Hsz.
  unfold live in Hl. destruct (metadata_ t !! j) as [m|] eqn:Hm; [|discriminate].
  apply negb_true_iff in Hl.
  assert (Hin : m ∈ filter (fun m => detail.IsFree m = false) (metadata_ t)).
  { apply list_elem_of_filter. split; [exact Hl|].
    apply list_elem_of_lookup. eauto. }
  destruct (filter (fun m => detail.IsFree m = false) (metadata_ t)) as [|y l];
    [inversion Hin|]. cbn [length] in Hsz. lia.
Qed.

(** [growAndRehash(newCapacity)] and [rehashEverything] on a table
    without duplicates. *)
Lemma growAndRehash_to_same_slots (fuel : nat) (n : N) (t t' : HashMap K V) :
  data_model Hash t -> no_duplicate_live_keys Eq t -> n < size_t_modulus ->
  growAndRehash_to Hash Eq fuel n t = Ret t' ->
  data_model Hash t' /\ no_duplicate_live_keys Eq t'
  /\ (forall (j : nat) (x : Slot K V), holds t' j x -> exists j0 : nat, holds t j0 x)
  /\ (forall (j0 : nat) (x : Slot K V), holds t j0 x -> exists j : nat, holds t' j x)
  /\ size_ t' = size_ t.
Proof using Type.
  intros Hdm Hnd Hn H. unfold growAndRehash_to in H.
  destruct (n <=? capacity_ t); [injection H as <-; split; [exact Hdm|]; split; [exact Hnd|]; eauto|].
  apply obind_Ret in H as (nt & Hnt & H). injection H as <-.
  unfold empty in Hnt. destruct (N.eqb_spec (size_ t) 0) as [E0|_]; cbn [negb] in Hnt.
  - injection Hnt as <-. split; [apply data_model_move, data_model_new; exact Hn|].
    split.
    { intros a b ka kb Ha. apply live_key_holds in Ha as (x & Hx & _).
      destruct (holds_new _ _ _ Hx). }
    split; [intros j x Hx; destruct (holds_new _ _ _ Hx)|].
    split; [|symmetry; exact E0].
    intros j0 x Hx. destruct (data_model_no_live _ _ _ Hdm E0 Hx).
  - apply (move_slots_all _ _ _ _ Hdm Hnd Hn Hnt).
Qed.

Lemma rehashEverything_same_slots (fuel : nat) (t t' : HashMap K V) :
  data_model Hash t -> no_duplicate_live_keys Eq t ->
  rehashEverything Hash Eq fuel t = Ret t' ->
  data_model Hash t' /\ no_duplicate_live_keys Eq t'
  /\ (forall (j : nat) (x : Slot K V), holds t' j x -> exists j0 : nat, holds t j0 x)
  /\ (forall (j0 : nat) (x : Slot K V), holds t j0 x -> exists j : nat, holds t' j x)
  /\ size_ t' = size_ t.
Proof using Type.
  intros Hdm Hnd H. unfold rehashEverything in H.
  destruct (empty t); [injection H as <-; split; [exact Hdm|]; split; [exact Hnd|]; eauto|].
  apply obind_Ret in H as (nt & Hnt & H). injection H as <-.
  apply (move_slots_all _ _ _ _ Hdm Hnd (proj1 (proj1 Hdm)) Hnt).
Qed.

End SameSlots.

Section Updates.

Context {K V : Type}.
Variable Hash : K -> N.
Variable Eq : K -> K -> bool.

Hypothesis Eq_Hash : forall x y : K, Eq x y = true -> Hash x = Hash y.
Hypothesis Eq_sym : forall x y : K, Eq x y = true -> Eq y x = true.
Hypothesis Eq_trans : forall x y z : K, Eq x y = true -> Eq y z = true -> Eq x z = true.

Lemma growAndRehash_same_slots (fuel : nat) (t t' : HashMap K V) :
  data_model Hash t -> no_duplicate_live_keys Eq t ->
  growAndRehash Hash Eq fuel t = Ret t' ->
  data_model Hash t' /\ no_duplicate_live_keys Eq t'
  /\ (forall (j : nat) (x : Slot K V), holds t' j x -> exists j0 : nat, holds t j0 x)
  /\ (forall (j0 : nat) (x : Slot K V), holds t j0 x -> exists j : nat, holds t' j x)
  /\ size_ t' = size_ t.
Proof using Type.
  intros Hdm Hnd H. unfold growAndRehash in H.
  eapply growAndRehash_to_same_slots; [exact Hdm|exact Hnd| |exact H].
  destruct (capacity_ t =? 0); [reflexivity|apply wrap_lt].
Qed.

Lemma holds_tombstoned (t : HashMap K V) (p : N) (j : nat) (x : Slot K V) :
  (N.to_nat p < length (metadata_ t))%nat ->
  holds (tombstoned t p) j x <-> holds t j x /\ j <> N.to_nat p.
Proof using Type.
  intros Hlen. unfold holds, live, tombstoned. cbn [metadata_ slots_ data_].
  destruct (decide (N.to_nat p = j)) as [<-|Hne].
  - rewrite list_lookup_insert_eq by assumption. cbn. split; [intros [? _]|intros [_ ?]];
      [discriminate|contradiction].
  - rewrite !list_lookup_insert_ne by assumption. split; [intros H|intros [H _]]; auto.
Qed.

Lemma no_duplicate_subset (t t' : HashMap K V) :
  no_duplicate_live_keys Eq t ->
  (forall (j : nat) (x : Slot K V), holds t' j x -> holds t j x) ->
  no_duplicate_live_keys Eq t'.
Proof using Type.
  intros Hnd Hsub a b ka kb Ha Hb Hab.
  apply live_key_holds in Ha as (xa & Ha & <-).
  apply live_key_holds in Hb as (xb & Hb & <-).
  apply (Hnd a b (key xa) (key xb)); [| |exact Hab]; apply live_key_holds; eauto.
Qed.

(** The table after an optional growth and the placement test of [insert]. *)
Lemma insert_Ret (fuel : nat) (k : K) (v : V) (t t' : HashMap K V) (r : option iterator) :
  data_model Hash t -> no_duplicate_live_keys Eq t ->
  insert Hash Eq fuel (k, v) t = Ret (r, t') ->
  exists t1 : HashMap K V,
    data_model Hash t1 /\ no_duplicate_live_keys Eq t1
    /\ (forall (j : nat) (x : Slot K V), holds t1 j x -> exists j0 : nat, holds t j0 x)
    /\ (forall (j0 : nat) (x : Slot K V), holds t j0 x -> exists j : nat, holds t1 j x)
    /\ size_ t1 = size_ t
    /\ ((r = Some (end_ t') /\ t' = t1
         /\ exists (j : nat) (x : Slot K V), holds t1 j x /\ Eq k (key x) = true)
        \/ exists p : N,
             r = Some p /\ p <> end_ t' /\ size_ t' = size_ t1 + 1
             /\ forall (j : nat) (x : Slot K V),
                  holds t' j x <-> holds t1 j x \/ (j = N.to_nat p /\ x = mkSlot k v)).
Proof using Type.
  intros Hdm Hnd H. unfold insert in H.
  apply obind_Ret in H as (t1 & Ht1 & H).
  apply obind_Ret in H as ([r1 t2] & Hins & H). cbn [fst snd] in H.
  injection H as <- <-. exists t1.
  assert (H1 : data_model Hash t1 /\ no_duplicate_live_keys Eq t1
    /\ (forall (j : nat) (x : Slot K V), holds t1 j x -> exists j0 : nat, holds t j0 x)
    /\ (forall (j0 : nat) (x : Slot K V), holds t j0 x -> exists j : nat, holds t1 j x)
    /\ size_ t1 = size_ t).
  { destruct (needToGrowForInsert t).
    - eapply growAndRehash_same_slots; eauto.
    - injection Ht1 as <-. split; [exact Hdm|]. split; [exact Hnd|]. eauto. }
  destruct H1 as (Hdm1 & Hnd1 & Hfrom & Hinto & Hsz).
  split; [exact Hdm1|]. split; [exact Hnd1|]. split; [exact Hfrom|].
  split; [exact Hinto|]. split; [exact Hsz|].
  pose proof (insertUnchecked_data_model Hash Eq _ _ _ _ _ Hdm1 Hins) as Hdm2.
  apply insertUnchecked_Ret in Hins as [Hc [(-> & -> & Hloc)|Hins]].
  - left. split; [reflexivity|]. split; [reflexivity|].
    apply doFind_loop_refused in Hloc as [j Hj].
    apply doFind_loop_Some in Hj as (s' & Hmj & Hs' & Hk).
    apply cell_read_lt in Hs' as [_ Hs'].
    exists (N.to_nat j), s'. split; [|exact Hk]. split; [|exact Hs'].
    unfold live.
    rewrite (Hmj : metadata_ t1 !! N.to_nat j = Some (detail.H2 (Hash k))).
    rewrite IsFree_H2. reflexivity.
  - right. destruct Hins as (p & mp & c & -> & -> & _ & Hmp & Hfp & Hp & Hcp).
    exists p. split; [reflexivity|]. split.
    { unfold end_, iteratorAt, placed. cbn [slots_ fsize_]. lia. }
    split.
    { destruct Hdm1 as (_ & _ & Hc1). destruct Hdm2 as (_ & _ & Hc2).
      unfold counted in *. rewrite Hc2, Hc1.
      rewrite (live_count_placed Hash t1 p _ mp Hmp Hfp). lia. }
    intros j x. apply (holds_placed Hash t1 p _ mp c j x Hmp Hfp Hcp).
Qed.

End Updates.

Section UpdateTheorems.

Context {K V : Type}.
Variable Hash : K -> N.
Variable Eq : K -> K -> bool.

Hypothesis Eq_Hash : forall x y : K, Eq x y = true -> Hash x = Hash y.
Hypothesis Eq_sym : forall x y : K, Eq x y = true -> Eq y x = true.
Hypothesis Eq_trans : forall x y z : K, Eq x y = true -> Eq y z = true -> Eq x z = true.

Lemma Eq_false_trans (k k' x : K) :
  Eq k' k = false -> Eq k x = true -> Eq k' x = false.
Proof using Eq_sym Eq_trans.
  intros Hne Hk. destruct (Eq k' x) eqn:E; [|reflexivity].
  rewrite (Eq_trans k' x k E (Eq_sym _ _ Hk)) in Hne. discriminate.
Qed.

Lemma insert_others (fuel fuel1 fuel2 : nat) (k k' : K) (v : V)
    (t t' : HashMap K V) (r : option iterator) :
  data_model Hash t -> no_duplicate_live_keys Eq t ->
  insert Hash Eq fuel (k, v) t = Ret (r, t') ->
  Eq k' k = false ->
  (forall (j : N) (v' : V),
     at_ Hash Eq fuel1 k' t = Ret (j, v', t) ->
     (N.to_nat (capacity_ t') <= fuel2)%nat ->
     exists j' : N,
       at_ Hash Eq fuel2 k' t' = Ret (j', v', t')
       /\ find Hash Eq fuel2 k' t' = Ret j' /\ j' <> end_ t')
  /\ (forall it : iterator,
        find Hash Eq fuel1 k' t = Ret (end_ t) ->
        find Hash Eq fuel2 k' t' = Ret it -> it = end_ t').
Proof using Eq_Hash Eq_sym Eq_trans.
  intros Hdm Hnd Hins Hne.
  pose proof (insert_data_model Hash Eq _ _ _ _ _ Hdm Hins) as (Hwf' & _).
  destruct (insert_Ret Hash Eq _ _ _ _ _ _ Hdm Hnd Hins)
    as (t1 & Hdm1 & Hnd1 & Hfrom & Hinto & Hsz & Hcase).
  assert (Hold : forall (j : nat) (x : Slot K V),
             holds t' j x -> Eq k' (key x) = true -> holds t1 j x).
  { intros j x Hx Hk. destruct Hcase as [(_ & -> & _)|(p & _ & _ & _ & Hpl)];
      [exact Hx|].
    apply Hpl in Hx as [Hx|[_ ->]]; [exact Hx|]. cbn [key] in Hk. congruence. }
  assert (Hnew : forall (j : nat) (x : Slot K V), holds t1 j x -> holds t' j x).
  { intros j x Hx. destruct Hcase as [(_ & -> & _)|(p & _ & _ & _ & Hpl)];
      [exact Hx|]. apply Hpl. left. exact Hx. }
  split.
  - intros j v' Hat Hfuel.
    apply (at_same_slots Hash Eq Eq_Hash fuel1 fuel2 k' t t' j v'); auto.
    + intros i1 i2 s1 s2 H1 H2 E1 E2.
      apply (no_duplicate_unique Eq Eq_sym Eq_trans t1 k' i1 i2 s1 s2); auto.
    + intros i x Hx _. destruct (Hinto i x Hx) as (i' & Hx'). eauto.
  - intros it Hf Hf'.
    apply (find_end_same_slots Hash Eq Eq_Hash fuel1 fuel2 k' t t' it); auto.
    + apply Hdm.
    + intros i x Hx Hk. apply (Hfrom i x). auto.
Qed.

Lemma insert_absent (fuel fuel1 : nat) (k : K) (v : V)
    (t t' : HashMap K V) (r : option iterator) :
  data_model Hash t -> no_duplicate_live_keys Eq t ->
  insert Hash Eq fuel (k, v) t = Ret (r, t') ->
  find Hash Eq fuel1 k t = Ret (end_ t) ->
  (exists p : iterator, r = Some p /\ p <> end_ t')
  /\ size t' = size t + 1
  /\ no_duplicate_live_keys Eq t'.
Proof using Eq_Hash Eq_sym.
  intros Hdm Hnd Hins Hf. apply find_not_found in Hf.
  destruct (insert_Ret Hash Eq _ _ _ _ _ _ Hdm Hnd Hins)
    as (t1 & Hdm1 & Hnd1 & Hfrom & Hinto & Hsz & Hcase).
  assert (Habs : forall (j : nat) (x : Slot K V), holds t1 j x -> Eq k (key x) = false).
  { intros j x Hx. destruct (Hfrom j x Hx) as (j0 & Hx0).
    apply (doFind_None_sound Hash Eq Eq_Hash fuel1 t k j0 x); auto. apply Hdm. }
  destruct Hcase as [(_ & _ & j & x & Hx & Hk)|(p & -> & Hp & Hsz' & Hpl)].
  { rewrite (Habs j x Hx) in Hk. discriminate. }
  split; [eauto|]. split; [unfold size; lia|].
  intros a b ka kb Ha Hb Hab.
  apply live_key_holds in Ha as (xa & Ha & <-).
  apply live_key_holds in Hb as (xb & Hb & <-).
  apply Hpl in Ha as [Ha|[-> ->]]; apply Hpl in Hb as [Hb|[-> ->]].
  - apply (Hnd1 a b (key xa) (key xb)); [| |exact Hab]; apply live_key_holds; eauto.
  - exfalso. cbn [key] in Hab. apply Eq_sym in Hab.
    rewrite (Habs a xa Ha) in Hab. discriminate.
  - exfalso. cbn [key] in Hab. rewrite (Habs b xb Hb) in Hab. discriminate.
  - reflexivity.
Qed.

Lemma insert_refused (fuel fuel1 fuel2 : nat) (k k0 : K) (v : V)
    (t t' : HashMap K V) :
  data_model Hash t -> no_duplicate_live_keys Eq t ->
  insert Hash Eq fuel (k, v) t = Ret (Some (end_ t'), t') ->
  size t' = size t
  /\ no_duplicate_live_keys Eq t'
  /\ key_live Eq t k
  /\ (forall (j : N) (v0 : V),
        at_ Hash Eq fuel1 k0 t = Ret (j, v0, t) ->
        (N.to_nat (capacity_ t') <= fuel2)%nat ->
        exists j' : N,
          at_ Hash Eq fuel2 k0 t' = Ret (j', v0, t')
          /\ find Hash Eq fuel2 k0 t' = Ret j' /\ j' <> end_ t')
  /\ (forall it : iterator,
        find Hash Eq fuel1 k0 t = Ret (end_ t) ->
        find Hash Eq fuel2 k0 t' = Ret it -> it = end_ t').
Proof using Eq_Hash Eq_sym Eq_trans.
  intros Hdm Hnd Hins.
  destruct (insert_Ret Hash Eq _ _ _ _ _ _ Hdm Hnd Hins)
    as (t1 & Hdm1 & Hnd1 & Hfrom & Hinto & Hsz & Hcase).
  destruct Hcase as [(_ & -> & j & x & Hx & Hk)|(p & [= <-] & Hp & _)];
    [|contradiction].
  split; [exact Hsz|]. split; [exact Hnd1|]. split.
  { destruct (Hfrom j x Hx) as (j0 & Hx0). exists j0, x. auto. }
  split.
  - intros j1 v0 Hat Hfuel.
    apply (at_same_slots Hash Eq Eq_Hash fuel1 fuel2 k0 t t1 j1 v0); auto.
    + apply Hdm1.
    + intros i1 i2 s1 s2 H1 H2 E1 E2.
      apply (no_duplicate_unique Eq Eq_sym Eq_trans t1 k0 i1 i2 s1 s2); auto.
    + intros i y Hy _. apply (Hinto i y Hy).
  - intros it Hf Hf'.
    apply (find_end_same_slots Hash Eq Eq_Hash fuel1 fuel2 k0 t t1 it); auto.
    + apply Hdm.
    + intros i y Hy _. apply (Hfrom i y Hy).
Qed.

Lemma live_count_tombstoned (t : HashMap K V) (p : N) (m : detail.metadata_t) :
  metadata_ t !! N.to_nat p = Some m -> detail.IsFree m = false ->
  S (live_count (tombstoned t p)) = live_count t.
Proof using Type.
  intros Hm Hlive. unfold live_count, tombstoned. cbn [metadata_].
  pose proof (live_count_update (metadata_ t) (N.to_nat p) m detail.Deleted Hm) as Hupd.
  rewrite Hlive in Hupd. change (detail.IsFree detail.Deleted) with true in Hupd.
  cbv iota in Hupd. lia.
Qed.

Lemma erase_it_slots (fuel : nat) (it : iterator) (t t' : HashMap K V) :
  data_model Hash t -> no_duplicate_live_keys Eq t ->
  erase_it Hash Eq fuel it t = Ret (true, t') ->
  data_model Hash t' /\ no_duplicate_live_keys Eq t'
  /\ size t' + 1 = size t
  /\ (exists s : Slot K V, holds t (N.to_nat it) s)
  /\ (forall (j : nat) (x : Slot K V),
        holds t' j x -> exists j0 : nat, j0 <> N.to_nat it /\ holds t j0 x)
  /\ (forall (j0 : nat) (x : Slot K V),
        holds t j0 x -> j0 <> N.to_nat it -> exists j : nat, holds t' j x).
Proof using Type.
  intros Hdm Hnd H.
  apply erase_it_Ret in H as [(? & _)|(_ & _ & _ & Hlen & _ & [s Hs] & H)];
    [discriminate|].
  pose proof (tombstoned_data_model Hash t it s Hdm Hlen Hs) as Hdm2.
  pose proof (fun j x => holds_tombstoned t it j x Hlen) as Hts.
  destruct (lookup_lt_is_Some_2 _ _ Hlen) as [m Hm].
  assert (Hlive : detail.IsFree m = false).
  { destruct (detail.IsFree m) eqn:E; [|reflexivity].
    destruct Hdm as (_ & Htidy & _). rewrite (Htidy _ _ Hm E) in Hs. discriminate. }
  assert (Hsz2 : size_ (tombstoned t it) + 1 = size_ t).
  { destruct Hdm as (_ & _ & Hc). destruct Hdm2 as (_ & _ & Hc2).
    unfold counted in *. rewrite Hc, Hc2.
    rewrite <- (live_count_tombstoned t it m Hm Hlive). lia. }
  assert (Hnd2 : no_duplicate_live_keys Eq (tombstoned t it)).
  { apply (no_duplicate_subset Eq t); [exact Hnd|]. intros j x Hx.
    apply Hts in Hx. tauto. }
  assert (Hit : exists s : Slot K V, holds t (N.to_nat it) s).
  { exists s. split; [|exact Hs]. unfold live. rewrite Hm, Hlive. reflexivity. }
  destruct H as [[_ ->]|[_ H]].
  - split; [exact Hdm2|]. split; [exact Hnd2|]. split; [exact Hsz2|].
    split; [exact Hit|]. split.
    + intros j x Hx. apply Hts in Hx as [Hx Hne]. eauto.
    + intros j0 x Hx Hne. exists j0. apply Hts. auto.
  - destruct (rehashEverything_same_slots Hash Eq _ _ _ Hdm2 Hnd2 H)
      as (Hdm' & Hnd' & Hfrom & Hinto & Hsz).
    split; [exact Hdm'|]. split; [exact Hnd'|]. split; [unfold size; lia|].
    split; [exact Hit|]. split.
    + intros j x Hx. destruct (Hfrom j x Hx) as (j0 & Hx0).
      apply Hts in Hx0 as [Hx0 Hne]. eauto.
    + intros j0 x Hx Hne. apply (Hinto j0 x). apply Hts. auto.
Qed.

Lemma erase_key (fuel fuel1 fuel2 : nat) (k k' : K) (t t' : HashMap K V) :
  data_model Hash t -> no_duplicate_live_keys Eq t ->
  erase Hash Eq fuel k t = Ret (true, t') ->
  size t' + 1 = size t
  /\ no_duplicate_live_keys Eq t'
  /\ ~ key_live Eq t' k
  /\ (forall it : iterator, find Hash Eq fuel2 k t' = Ret it -> it = end_ t')
  /\ (Eq k' k = false ->
      (forall (j : N) (v' : V),
         at_ Hash Eq fuel1 k' t = Ret (j, v', t) ->
         (N.to_nat (capacity_ t') <= fuel2)%nat ->
         exists j' : N,
           at_ Hash Eq fuel2 k' t' = Ret (j', v', t')
           /\ find Hash Eq fuel2 k' t' = Ret j' /\ j' <> end_ t')
      /\ (forall it : iterator,
            find Hash Eq fuel1 k' t = Ret (end_ t) ->
            find Hash Eq fuel2 k' t' = Ret it -> it = end_ t')).
Proof using Eq_Hash Eq_sym Eq_trans.
  intros Hdm Hnd H. unfold erase in H. apply obind_Ret in H as (it & Hf & H).
  destruct (erase_it_slots _ _ _ _ Hdm Hnd H)
    as (Hdm' & Hnd' & Hsz & [s Hs] & Hfrom & Hinto).
  assert (Hit : it <> end_ t).
  { apply erase_it_Ret in H as [(? & _)|(_ & ? & _)]; [discriminate|assumption]. }
  assert (Hd : doFind Hash Eq fuel t k = Ret (Some it)) by (apply find_found; auto).
  destruct (doFind_Some_at _ _ _ _ _ _ Hd) as (s' & Hs' & Hk & _).
  assert (s' = s) as -> by (destruct Hs as [_ Hs]; destruct Hs' as [_ Hs']; congruence).
  assert (Hgone : ~ key_live Eq t' k).
  { intros (j & x & Hx & Hkx). destruct (Hfrom j x Hx) as (j0 & Hne & Hx0).
    apply Hne.
    apply (no_duplicate_unique Eq Eq_sym Eq_trans t k j0 (N.to_nat it) x s); auto. }
  split; [exact Hsz|]. split; [exact Hnd'|]. split; [exact Hgone|]. split.
  { intros it' Hf'. destruct (N.eq_dec it' (end_ t')) as [E|Hne]; [exact E|].
    exfalso. apply Hgone.
    assert (Hd' : doFind Hash Eq fuel2 t' k = Ret (Some it')) by (apply find_found; auto).
    destruct (doFind_Some_at _ _ _ _ _ _ Hd') as (x & Hx & Hkx & _).
    exists (N.to_nat it'), x. auto. }
  intros Hne. split.
  - intros j v' Hat Hfuel.
    apply (at_same_slots Hash Eq Eq_Hash fuel1 fuel2 k' t t' j v'); auto.
    + apply Hdm'.
    + intros i1 i2 s1 s2 H1 H2 E1 E2.
      apply (no_duplicate_unique Eq Eq_sym Eq_trans t' k' i1 i2 s1 s2); auto.
    + intros i x Hx Hkx. apply (Hinto i x Hx). intros ->.
      assert (x = s) as -> by (destruct Hs as [_ Hs]; destruct Hx as [_ Hx]; congruence).
      rewrite (Eq_false_trans k k' (key s) Hne Hk) in Hkx. discriminate.
  - intros it' Hfe Hf'.
    apply (find_end_same_slots Hash Eq Eq_Hash fuel1 fuel2 k' t t' it'); auto.
    + apply Hdm.
    + intros i x Hx _. destruct (Hfrom i x Hx) as (j0 & _ & Hx0). eauto.
Qed.

End UpdateTheorems.

(** * Calls that always return *)

Section Returns.

Context {K V : Type}.
Variable Hash : K -> N.
Variable Eq : K -> K -> bool.





Lemma insertUnchecked_capacity (fuel : nat) (s : Slot K V) (t t' : HashMap K V)
    (r : option N) :
  insertUnchecked Hash Eq fuel s t = Ret (r, t') ->
  capacity_ t' = capacity_ t /\ size_ t' <= size_ t + 1.
Proof.
  intros H. apply insertUnchecked_Ret in H as [_ [(_ & -> & _)|H]]; [lia|].
  destruct H as (p & m & c & _ & -> & _). unfold placed. cbn [capacity_ size_].
  split; [reflexivity|]. unfold wrap. apply N.Div0.mod_le.
Qed.




End Returns.

Section MoreReturns.

Context {K V : Type}.
Variable Hash : K -> N.
Variable Eq : K -> K -> bool.

Lemma clear_loop_returns (n : nat) (i : N) (md : list detail.metadata_t)
    (sl : FixedUninitVec (Slot K V)) :
  (N.to_nat i + n <= length md)%nat ->
  N.of_nat (length md) <= fsize_ sl ->
  (forall (j : nat) (m : detail.metadata_t),
     (N.to_nat i <= j)%nat -> md !! j = Some m -> detail.IsFree m = false ->
     exists s : Slot K V, data_ sl !! j = Some (Some s)) ->
  exists r, clear_loop n i md sl = Ret r.
Proof.
  revert i md sl. induction n as [|n IH]; intros i md sl Hrange Hfs Hlive;
    cbn [clear_loop]; [eauto|].
  destruct (lookup_lt_is_Some_2 md (N.to_nat i) ltac:(lia)) as [m Hm].
  rewrite Hm. cbn [obind].
  assert (Hset : meta_set md i detail.Empty = Ret (<[N.to_nat i := detail.Empty]> md)).
  { unfold meta_set. destruct (Nat.ltb_spec (N.to_nat i) (length md)); [reflexivity|lia]. }
  destruct (detail.IsFree m) eqn:Hfree; cbn [negb obind].
  - rewrite Hset. cbn [obind]. apply IH.
    + rewrite length_insert. lia.
    + rewrite length_insert. exact Hfs.
    + intros j m' Hj Hm' Hf'. rewrite list_lookup_insert_ne in Hm' by lia.
      apply (Hlive j m'); [lia|exact Hm'|exact Hf'].
  - destruct (Hlive (N.to_nat i) m ltac:(lia) Hm Hfree) as (s & Hs).
    unfold cell_read, cell_write, cell.
    destruct (N.ltb_spec i (fsize_ sl)); [|lia]. rewrite Hs. cbn [obind].
    rewrite Hset. cbn [obind]. apply IH.
    + rewrite length_insert. lia.
    + rewrite length_insert. exact Hfs.
    + intros j m' Hj Hm' Hf'. rewrite list_lookup_insert_ne in Hm' by lia.
      cbn [data_]. rewrite list_lookup_insert_ne by lia.
      apply (Hlive j m'); [lia|exact Hm'|exact Hf'].
Qed.

(** [clear] on a table that is not empty gives the table that the
    constructor builds for the same capacity. *)
Lemma clear_fresh (t : HashMap K V) :
  data_model Hash t -> size_ t <> 0 ->
  clear t = Ret (HashMap_new (capacity_ t)).
Proof.
  intros Hdm Hsz. pose proof Hdm as ((Hcap & Hlen & Hfs & Hlds & Hlive) & Htidy & _).
  destruct (clear_loop_returns (N.to_nat (capacity_ t)) 0 (metadata_ t) (slots_ t))
    as ([md sl] & Hloop).
  { lia. }
  { lia. }
  { intros j m _ Hm Hf. destruct (Hlive j m Hm Hf) as (s & _ & Hs & _). eauto. }
  unfold clear, empty. destruct (N.eqb_spec (size_ t) 0) as [?|_]; [contradiction|].
  rewrite Hloop. cbn [obind fst snd]. f_equal. unfold HashMap_new. f_equal.
  - apply list_eq. intros j.
    pose proof (clear_loop_metadata _ _ _ _ _ _ Hloop) as [_ Hmd]. rewrite Hmd.
    destruct (decide (N.to_nat 0 <= j < N.to_nat 0 + N.to_nat (capacity_ t))%nat)
      as [Hin|Hout].
    + symmetry. apply lookup_replicate_2. lia.
    + rewrite lookup_ge_None_2 by lia. symmetry. apply lookup_ge_None_2.
      rewrite length_replicate. lia.
  - pose proof (clear_loop_metadata _ _ _ _ _ _ Hloop) as [Hfs' _].
    pose proof (clear_loop_lengths _ _ _ _ _ _ Hloop) as [_ Hl2].
    pose proof (clear_loop_data _ _ _ _ _ _ Hloop) as [Hkeep Hrange].
    destruct sl as [fs ds]. cbn [fsize_ data_] in *. unfold FixedUninitVec_new.
    f_equal; [congruence|]. apply list_eq. intros j.
    destruct (Nat.lt_ge_cases j (N.to_nat (capacity_ t))) as [Hin|Hout].
    + rewrite lookup_replicate_2 by lia.
      destruct (lookup_lt_is_Some_2 (metadata_ t) j ltac:(lia)) as [m Hm].
      destruct (detail.IsFree m) eqn:Hf.
      * apply Hkeep. eapply Htidy; eauto.
      * apply (Hrange j m); [lia|exact Hm|exact Hf].
    + rewrite lookup_ge_None_2 by lia. symmetry. apply lookup_ge_None_2.
      rewrite length_replicate. lia.
Qed.



Lemma move_slots_no_tombstone (fuel : nat) (old : HashMap K V) (n : nat) (i : N)
    (newTable newTable' : HashMap K V) :
  no_tombstone newTable ->
  move_slots Hash Eq fuel old n i newTable = Ret newTable' ->
  no_tombstone newTable'.
Proof.
  revert i newTable. induction n as [|n IH]; intros i nt Hnt; cbn [move_slots].
  - intros [= <-]. exact Hnt.
  - intros H. apply obind_Ret in H as (m & _ & H).
    apply obind_Ret in H as (nt1 & Hnt1 & H). apply (IH (i + 1) nt1); [|exact H].
    destruct (negb (detail.IsFree m)); [|injection Hnt1 as <-; exact Hnt].
    apply obind_Ret in Hnt1 as (s & _ & Hnt1).
    apply obind_Ret in Hnt1 as ([r t1] & Hins & Hnt1). injection Hnt1 as <-.
    apply insertUnchecked_Ret in Hins as [_ [(_ & -> & _)|Hins]]; [exact Hnt|].
    destruct Hins as (p & mp & c & _ & -> & _ & Hmp & _).
    intros e m' He Hf. unfold placed in He. cbn [metadata_] in He.
    destruct (decide (N.to_nat p = e)) as [<-|Hne].
    + rewrite list_lookup_insert_eq in He by (eapply lookup_lt_Some; eauto).
      injection He as <-. rewrite IsFree_H2 in Hf. discriminate.
    + rewrite list_lookup_insert_ne in He by assumption. eapply Hnt; eauto.
Qed.

Lemma no_tombstone_new (c : N) : no_tombstone (HashMap_new (K:=K) (V:=V) c).
Proof.
  intros e m He _. unfold HashMap_new in He. cbn [metadata_] in He.
  apply lookup_replicate in He as [-> _]. reflexivity.
Qed.

Lemma move_slots_capacity (fuel : nat) (old : HashMap K V) (n : nat) (i : N)
    (newTable newTable' : HashMap K V) :
  move_slots Hash Eq fuel old n i newTable = Ret newTable' ->
  capacity_ newTable' = capacity_ newTable.
Proof.
  revert i newTable. induction n as [|n IH]; intros i nt; cbn [move_slots].
  - intros [= <-]. reflexivity.
  - intros H. apply obind_Ret in H as (m & _ & H).
    apply obind_Ret in H as (nt1 & Hnt1 & H). rewrite (IH _ _ H).
    destruct (negb (detail.IsFree m)); [|injection Hnt1 as <-; reflexivity].
    apply obind_Ret in Hnt1 as (s & _ & Hnt1).
    apply obind_Ret in Hnt1 as ([r t1] & Hins & Hnt1). injection Hnt1 as <-.
    apply (insertUnchecked_capacity Hash Eq _ _ _ _ _ Hins).
Qed.

(** What a growth leaves: the capacity asked for and no tombstone. *)
Lemma growAndRehash_to_grown (fuel : nat) (n : N) (t t' : HashMap K V) :
  growAndRehash_to Hash Eq fuel n t = Ret t' -> capacity_ t < n ->
  capacity_ t' = n /\ deletedCount_ t' = 0 /\ no_tombstone t'.
Proof.
  intros H Hlt. unfold growAndRehash_to in H.
  destruct (N.leb_spec n (capacity_ t)); [lia|].
  apply obind_Ret in H as (nt & Hnt & H). injection H as <-.
  cbn [move fst capacity_ deletedCount_].
  change (no_tombstone (mkHashMap (capacity_ nt) (size_ nt) (metadata_ nt)
                          (slots_ nt) (deletedCount_ nt)))
    with (no_tombstone nt).
  destruct (negb (empty t)).
  - split; [exact (move_slots_capacity _ _ _ _ _ _ Hnt)|].
    split; [exact (move_slots_deletedCount Hash Eq _ _ _ _ _ _ Hnt)|].
    eapply move_slots_no_tombstone; [apply no_tombstone_new|exact Hnt].
  - injection Hnt as <-. split; [reflexivity|]. split; [reflexivity|].
    apply no_tombstone_new.
Qed.

End MoreReturns.

Section Subscript.

Context {K V : Type}.
Variable Hash : K -> N.
Variable Eq : K -> K -> bool.

Hypothesis Eq_Hash : forall x y : K, Eq x y = true -> Hash x = Hash y.





End Subscript.

Section Capacity.

Context {K V : Type}.
Variable Hash : K -> N.
Variable Eq : K -> K -> bool.

Lemma growAndRehash_to_capacity (fuel : nat) (n : N) (t t' : HashMap K V) :
  growAndRehash_to Hash Eq fuel n t = Ret t' ->
  capacity_ t' = N.max n (capacity_ t).
Proof.
  intros H. destruct (N.le_gt_cases n (capacity_ t)) as [Hle|Hgt].
  - unfold growAndRehash_to in H. destruct (N.leb_spec n (capacity_ t)); [|lia].
    injection H as <-. lia.
  - destruct (growAndRehash_to_grown Hash Eq _ _ _ _ H Hgt) as [-> _]. lia.
Qed.

Lemma rehashEverything_capacity (fuel : nat) (t t' : HashMap K V) :
  rehashEverything Hash Eq fuel t = Ret t' -> capacity_ t' = capacity_ t.
Proof.
  unfold rehashEverything. destruct (empty t); [intros [= <-]; reflexivity|].
  intros H. apply obind_Ret in H as (nt & Hnt & H). injection H as <-.
  cbn [move fst capacity_]. apply (move_slots_capacity Hash Eq _ _ _ _ _ _ Hnt).
Qed.

Lemma insert_capacity (fuel : nat) (kv : K * V) (t t' : HashMap K V)
    (r : option iterator) :
  insert Hash Eq fuel kv t = Ret (r, t') -> capacity_ t <= capacity_ t'.
Proof.
  intros H. unfold insert in H. apply obind_Ret in H as (t1 & Ht1 & H).
  apply obind_Ret in H as ([r1 t2] & Hins & H). injection H as _ <-.
  destruct (insertUnchecked_capacity Hash Eq _ _ _ _ _ Hins) as [-> _].
  destruct (needToGrowForInsert t); [|injection Ht1 as <-; lia].
  unfold growAndRehash in Ht1. apply growAndRehash_to_capacity in Ht1. lia.
Qed.

Lemma erase_it_capacity (fuel : nat) (it : iterator) (t t' : HashMap K V) (b : bool) :
  erase_it Hash Eq fuel it t = Ret (b, t') -> capacity_ t' = capacity_ t.
Proof.
  intros H. apply erase_it_Ret in H as [(_ & _ & ->)|(_ & _ & _ & _ & _ & _ & H)];
    [reflexivity|].
  destruct H as [[_ ->]|[_ H]]; [reflexivity|].
  apply rehashEverything_capacity in H. exact H.
Qed.

Lemma clear_capacity (t t' : HashMap K V) :
  clear t = Ret t' -> capacity_ t' = capacity_ t.
Proof.
  unfold clear. destruct (empty t); [intros [= <-]; reflexivity|].
  intros H. apply obind_Ret in H as (r & _ & H). injection H as <-. reflexivity.
Qed.

Lemma reserve_capacity (fuel : nat) (n : N) (t t' : HashMap K V) :
  reserve Hash Eq fuel n t = Ret t' -> capacity_ t' = N.max n (capacity_ t).
Proof.
  unfold reserve. destruct (N.leb_spec n (capacity_ t)); [intros [= <-]; lia|].
  apply growAndRehash_to_capacity.
Qed.

Lemma run_capacity (fuel : nat) (cs : list (call K V)) (t t' : HashMap K V) :
  run Hash Eq fuel cs t = Ret t' -> capacity_ t <= capacity_ t'.
Proof.
  revert t. induction cs as [|c cs IH]; intros t; cbn [run].
  - intros [= <-]. lia.
  - intros H. apply obind_Ret in H as (t1 & H1 & H). apply IH in H.
    assert (capacity_ t <= capacity_ t1); [|lia].
    destruct c as [kv|k|it| |n]; cbn [run_call] in H1.
    + apply obind_Ret in H1 as ([r t2] & H1 & E). injection E as <-.
      eapply insert_capacity; eauto.
    + apply obind_Ret in H1 as ([r t2] & H1 & E). injection E as <-.
      unfold erase in H1. apply obind_Ret in H1 as (it & _ & H1).
      apply erase_it_capacity in H1. cbn [snd]. lia.
    + apply obind_Ret in H1 as ([r t2] & H1 & E). injection E as <-.
      apply erase_it_capacity in H1. cbn [snd]. lia.
    + apply clear_capacity in H1. lia.
    + apply reserve_capacity in H1. lia.
Qed.


Lemma data_model_size (t : HashMap K V) :
  data_model Hash t ->
  size t = N.of_nat (live_count t)
  /\ size t <= capacity_ t
  /\ tidy t
  /\ (empty t = true <-> forall j : nat, live t j = false).
Proof.
  intros Hdm. pose proof Hdm as ((_ & Hlen & _ & _ & Hlive) & Htidy & Hc).
  split; [exact Hc|]. split.
  { unfold size. rewrite Hc. pose proof (live_count_le t). lia. }
  split; [exact Htidy|]. unfold empty. split.
  - intros H0 j. apply N.eqb_eq in H0.
    destruct (live t j) eqn:Hl; [exfalso|reflexivity].
    pose proof Hl as Hl'. unfold live in Hl'.
    destruct (metadata_ t !! j) as [m|] eqn:Hm; [|discriminate].
    apply negb_true_iff in Hl'. destruct (Hlive _ _ Hm Hl') as (s & _ & Hs & _).
    apply (data_model_no_live Hash t j s Hdm H0). split; assumption.
  - intros Hnone. apply N.eqb_eq. unfold counted, live_count in Hc. rewrite Hc.
    rewrite live_count_all_free; [reflexivity|].
    intros j m Hm. specialize (Hnone j). unfold live in Hnone. rewrite Hm in Hnone.
    apply negb_false_iff in Hnone. exact Hnone.
Qed.

End Capacity.

(** * The control bytes, the storage and the hasher of the tests *)

Lemma H1_H2_split (hash : N) : hash = detail.H1 hash * 128 + detail.H2 hash.
Proof.
  unfold detail.H1, detail.H2. rewrite N.shiftr_div_pow2.
  change 127 with (N.ones 7). rewrite N.land_ones.
  change (2 ^ 7) with 128. rewrite N.mul_comm. apply N.div_mod. discriminate.
Qed.

Lemma cell_write_cells {T : Type} (v v' : FixedUninitVec T) (n : N) (c : option T) :
  cell_write v n c = Ret v' ->
  fsize_ v' = fsize_ v /\ cell v' n = Ret c
  /\ forall n' : N, n' <> n -> cell v' n' = cell v n'.
Proof.
  intros H. pose proof (cell_write_Ret _ _ _ _ H) as ->.
  unfold cell_write in H. apply obind_Ret in H as (c0 & Hc0 & _).
  unfold cell in *. cbn [fsize_ data_].
  destruct (n <? fsize_ v) eqn:Hlt; [|discriminate].
  destruct (data_ v !! N.to_nat n) as [c1|] eqn:Hd; [|discriminate].
  split; [reflexivity|]. split.
  - rewrite list_lookup_insert_eq by (eapply lookup_lt_Some; eauto). reflexivity.
  - intros n' Hne. rewrite list_lookup_insert_ne by lia. reflexivity.
Qed.

Lemma lxor_lt_pow2 (a b n : N) : a < 2 ^ n -> b < 2 ^ n -> N.lxor a b < 2 ^ n.
Proof.
  intros Ha Hb.
  assert (E : N.lxor a b mod 2 ^ n = N.lxor a b).
  { rewrite <- (N.mod_small a (2 ^ n)) at 2 by assumption.
    rewrite <- (N.mod_small b (2 ^ n)) at 2 by assumption.
    rewrite <- !N.land_ones. apply N.bits_inj. intros i.
    rewrite !N.land_spec, !N.lxor_spec, !N.land_spec.
    destruct (N.testbit a i), (N.testbit b i), (N.testbit (N.ones n) i); reflexivity. }
  rewrite <- E. apply N.mod_lt. apply N.pow_nonzero. discriminate.
Qed.

Lemma xorshift16_involutive (x : N) :
  x < 2 ^ 32 ->
  N.lxor (N.shiftr (N.lxor (N.shiftr x 16) x) 16) (N.lxor (N.shiftr x 16) x) = x.
Proof.
  intros Hx. rewrite N.shiftr_lxor, N.shiftr_shiftr.
  change (16 + 16) with 32.
  assert (E : N.shiftr x 32 = 0).
  { destruct (N.eq_dec x 0) as [->|Hx0]; [reflexivity|].
    apply N.shiftr_eq_0. apply N.log2_lt_pow2; lia. }
  rewrite E, N.lxor_0_l, <- N.lxor_assoc, N.lxor_nilpotent, N.lxor_0_l. reflexivity.
Qed.

Lemma xorshift16_lt (x : N) : x < 2 ^ 32 -> N.lxor (N.shiftr x 16) x < 2 ^ 32.
Proof.
  intros Hx. apply lxor_lt_pow2; [|exact Hx].
  rewrite N.shiftr_div_pow2.
  apply N.le_lt_trans with x; [|exact Hx]. apply N.Div0.div_le_upper_bound.
  change (2 ^ 16) with 65536. lia.
Qed.

Lemma xorshift16_injective (x y : N) :
  x < 2 ^ 32 -> y < 2 ^ 32 ->
  N.lxor (N.shiftr x 16) x = N.lxor (N.shiftr y 16) y -> x = y.
Proof.
  intros Hx Hy E. rewrite <- (xorshift16_involutive x Hx), <- (xorshift16_involutive y Hy).
  rewrite E. reflexivity.
Qed.

Lemma mul_73244475_injective (x y : N) :
  x < 2 ^ 32 -> y < 2 ^ 32 ->
  (x * 73244475) mod 2 ^ 32 = (y * 73244475) mod 2 ^ 32 -> x = y.
Proof.
  intros Hx Hy E.
  assert (Hinv : forall a : N, a < 2 ^ 32 ->
            ((a * 73244475) mod 2 ^ 32 * 295559667) mod 2 ^ 32 = a).
  { intros a Ha. rewrite N.Div0.mul_mod_idemp_l, <- N.mul_assoc.
    rewrite <- N.Div0.mul_mod_idemp_r.
    change ((73244475 * 295559667) mod 2 ^ 32) with 1.
    rewrite N.mul_1_r. apply N.mod_small. exact Ha. }
  rewrite <- (Hinv x Hx), <- (Hinv y Hy), E. reflexivity.
Qed.

Lemma IntHasher_injective_lemma (y1 y2 : N) :
  y1 < 2 ^ 32 -> y2 < 2 ^ 32 -> IntHasher y1 = IntHasher y2 -> y1 = y2.
Proof.
  intros H1 H2. unfold IntHasher. cbv zeta.
  rewrite (N.mod_small y1), (N.mod_small y2) by assumption.
  intros E.
  assert (Hm : forall a : N, a mod 2 ^ 32 < 2 ^ 32)
    by (intros a; apply N.mod_lt; discriminate).
  apply xorshift16_injective in E; [|apply Hm|apply Hm].
  apply mul_73244475_injective in E; [|apply xorshift16_lt, Hm|apply xorshift16_lt, Hm].
  apply xorshift16_injective in E; [|apply Hm|apply Hm].
  apply mul_73244475_injective in E;
    [|apply xorshift16_lt; assumption|apply xorshift16_lt; assumption].
  apply xorshift16_injective in E; assumption.
Qed.

Lemma IntHasher_lt (y : N) : IntHasher y < 2 ^ 32.
Proof.
  unfold IntHasher. cbv zeta. apply xorshift16_lt. apply N.mod_lt. discriminate.
Qed.

(** * Tables built without erasure *)

Section NoErasure.

Context {K V : Type}.
Variable Hash : K -> N.
Variable Eq : K -> K -> bool.

Hypothesis Eq_Hash : forall x y : K, Eq x y = true -> Hash x = Hash y.
Hypothesis Eq_sym : forall x y : K, Eq x y = true -> Eq y x = true.

(** Without tombstones the free cell that [locationForInsertion] answers
    is the [Empty] byte at which [doFind] gives up. *)
Lemma doFind_loop_placed_absent (fuel : nat) (t : HashMap K V) (k : K)
    (hh : detail.metadata_t) (i0 : N) (l : InsertionLoc) :
  no_tombstone t -> hh < 128 ->
  locationForInsertion_loop Eq fuel t k hh i0 = Ret (Some l) ->
  doFind_loop Eq fuel t k hh i0 = Ret None.
Proof using Type.
  intros Hnt Hh. revert i0. induction fuel as [|fuel IH]; intros i0;
    cbn [locationForInsertion_loop doFind_loop]; [discriminate|].
  unfold meta_get. destruct (metadata_ t !! N.to_nat i0) as [m|] eqn:Hm;
    cbn [obind]; [|discriminate].
  destruct (detail.IsFree m) eqn:Hfree.
  - intros _. rewrite (Hnt _ _ Hm Hfree).
    destruct (N.eqb_spec detail.Empty hh) as [E|_];
      [unfold detail.Empty in E; lia|]. reflexivity.
  - intros H. apply obind_Ret in H as (found & Hfound & H). rewrite Hfound.
    cbn [obind]. destruct found; [discriminate|].
    destruct (N.eqb_spec m detail.Empty) as [->|_]; [discriminate|].
    apply obind_Ret in H as (next & Hnext & H). rewrite Hnext. cbn [obind].
    apply IH. exact H.
Qed.

Lemma insertUnchecked_no_erasure (fuel : nat) (s : Slot K V) (t t' : HashMap K V)
    (r : option N) :
  well_formed Hash t -> no_tombstone t -> no_duplicate_live_keys Eq t ->
  insertUnchecked Hash Eq fuel s t = Ret (r, t') ->
  no_tombstone t' /\ no_duplicate_live_keys Eq t'.
Proof using Eq_Hash Eq_sym.
  intros Hwf Hnt Hnd H.
  apply insertUnchecked_Ret in H as [Hc [(_ & -> & _)|H]]; [auto|].
  destruct H as (p & mp & c & _ & -> & Hloc & Hmp & Hfp & _ & Hcp). split.
  - intros e m' He Hf. unfold placed in He. cbn [metadata_] in He.
    destruct (decide (N.to_nat p = e)) as [<-|Hne].
    + rewrite list_lookup_insert_eq in He by (eapply lookup_lt_Some; eauto).
      injection He as <-. rewrite IsFree_H2 in Hf. discriminate.
    + rewrite list_lookup_insert_ne in He by assumption. eapply Hnt; eauto.
  - apply doFind_loop_placed_absent in Hloc; [|exact Hnt|apply H2_lt].
    assert (Hd : doFind Hash Eq fuel t (key s) = Ret None).
    { unfold doFind, umod. cbv zeta.
      destruct (N.eqb_spec (capacity_ t) 0) as [?|_]; [contradiction|]. exact Hloc. }
    assert (Habs : forall (j : nat) (x : Slot K V),
               holds t j x -> Eq (key s) (key x) = false).
    { intros j x Hx. apply (doFind_None_sound Hash Eq Eq_Hash fuel t (key s) j x); auto. }
    pose proof (fun j x => holds_placed Hash t p s mp c j x Hmp Hfp Hcp) as Hpl.
    intros a b ka kb Ha Hb Hab.
    apply live_key_holds in Ha as (xa & Ha & <-).
    apply live_key_holds in Hb as (xb & Hb & <-).
    apply Hpl in Ha as [Ha|[-> ->]]; apply Hpl in Hb as [Hb|[-> ->]].
    + apply (Hnd a b (key xa) (key xb)); [| |exact Hab]; apply live_key_holds; eauto.
    + exfalso. apply Eq_sym in Hab. rewrite (Habs a xa Ha) in Hab. discriminate.
    + exfalso. rewrite (Habs b xb Hb) in Hab. discriminate.
    + reflexivity.
Qed.

Lemma no_duplicate_new (c : N) : no_duplicate_live_keys Eq (HashMap_new (K:=K) (V:=V) c).
Proof using Type.
  intros a b ka kb Ha. apply live_key_holds in Ha as (x & Hx & _).
  destruct (holds_new _ _ _ Hx).
Qed.

Lemma growAndRehash_to_no_erasure (fuel : nat) (n : N) (t t' : HashMap K V) :
  data_model Hash t -> no_tombstone t -> no_duplicate_live_keys Eq t ->
  n < size_t_modulus ->
  growAndRehash_to Hash Eq fuel n t = Ret t' ->
  data_model Hash t' /\ no_tombstone t' /\ no_duplicate_live_keys Eq t'.
Proof using Type.
  intros Hdm Hnt Hnd Hn H.
  destruct (growAndRehash_to_same_slots Hash Eq _ _ _ _ Hdm Hnd Hn H) as (Hdm' & Hnd' & _).
  split; [exact Hdm'|]. split; [|exact Hnd'].
  destruct (N.le_gt_cases n (capacity_ t)) as [Hle|Hgt].
  - unfold growAndRehash_to in H. destruct (N.leb_spec n (capacity_ t)); [|lia].
    injection H as <-. exact Hnt.
  - apply (growAndRehash_to_grown Hash Eq _ _ _ _ H Hgt).
Qed.

Lemma run_call_no_erasure (fuel : nat) (c : call K V) (t t' : HashMap K V) :
  erases c = false ->
  data_model Hash t -> no_tombstone t -> no_duplicate_live_keys Eq t ->
  run_call Hash Eq fuel c t = Ret t' ->
  data_model Hash t' /\ no_tombstone t' /\ no_duplicate_live_keys Eq t'.
Proof using Eq_Hash Eq_sym.
  intros Hc Hdm Hnt Hnd H.
  destruct c as [kv|k|it| |n]; cbn [erases] in Hc; try discriminate;
    cbn [run_call] in H.
  - apply obind_Ret in H as ([r t2] & H & E). injection E as <-. cbn [snd].
    pose proof (insert_data_model Hash Eq _ _ _ _ _ Hdm H) as Hdm'.
    split; [exact Hdm'|].
    unfold insert in H. apply obind_Ret in H as (t1 & Ht1 & H).
    apply obind_Ret in H as ([r1 t3] & Hins & H). injection H as _ <-.
    assert (H1 : data_model Hash t1 /\ no_tombstone t1 /\ no_duplicate_live_keys Eq t1).
    { destruct (needToGrowForInsert t); [|injection Ht1 as <-; auto].
      unfold growAndRehash in Ht1.
      eapply growAndRehash_to_no_erasure; [exact Hdm|exact Hnt|exact Hnd| |exact Ht1].
      destruct (capacity_ t =? 0); [reflexivity|apply wrap_lt]. }
    destruct H1 as (Hdm1 & Hnt1 & Hnd1).
    apply (insertUnchecked_no_erasure _ _ _ _ _ (proj1 Hdm1) Hnt1 Hnd1 Hins).
  - pose proof (clear_data_model Hash _ _ Hdm H) as Hdm'. split; [exact Hdm'|].
    destruct (N.eq_dec (size_ t) 0) as [E0|Hne].
    + unfold clear, empty in H. rewrite E0 in H. injection H as <-. auto.
    + rewrite (clear_fresh Hash t Hdm Hne) in H. injection H as <-.
      split; [apply no_tombstone_new|apply no_duplicate_new].
  - unfold reserve in H. destruct (wrap n <=? capacity_ t); [injection H as <-; auto|].
    eapply growAndRehash_to_no_erasure; [exact Hdm|exact Hnt|exact Hnd| |exact H].
    apply wrap_lt.
Qed.

Lemma run_call_no_erasure_deletedCount (fuel : nat) (c : call K V) (t t' : HashMap K V) :
  erases c = false -> deletedCount_ t = 0 ->
  run_call Hash Eq fuel c t = Ret t' -> deletedCount_ t' = 0.
Proof using Type.
  intros Hc H0 H.
  assert (Hgrow : forall (n : N) (t1 : HashMap K V),
             growAndRehash_to Hash Eq fuel n t = Ret t1 -> deletedCount_ t1 = 0).
  { intros n t1 H1. destruct (N.le_gt_cases n (capacity_ t)) as [Hle|Hgt].
    - unfold growAndRehash_to in H1. destruct (N.leb_spec n (capacity_ t)); [|lia].
      injection H1 as <-. exact H0.
    - apply (growAndRehash_to_grown Hash Eq _ _ _ _ H1 Hgt). }
  destruct c as [kv|k|it| |n]; cbn [erases] in Hc; try discriminate;
    cbn [run_call] in H.
  - apply obind_Ret in H as ([r t2] & H & E). injection E as <-. cbn [snd].
    unfold insert in H. apply obind_Ret in H as (t1 & Ht1 & H).
    apply obind_Ret in H as ([r1 t3] & Hins & H). injection H as _ <-.
    rewrite (insertUnchecked_deletedCount Hash Eq _ _ _ _ _ Hins).
    destruct (needToGrowForInsert t); [|injection Ht1 as <-; exact H0].
    apply (Hgrow _ _ Ht1).
  - unfold clear in H. destruct (empty t); [injection H as <-; exact H0|].
    apply obind_Ret in H as (r & _ & H). injection H as <-. reflexivity.
  - unfold reserve in H. destruct (wrap n <=? capacity_ t);
      [injection H as <-; exact H0|]. apply (Hgrow _ _ H).
Qed.

Lemma run_no_erasure (fuel : nat) (cs : list (call K V)) (t t' : HashMap K V) :
  forallb (fun c => negb (erases c)) cs = true ->
  data_model Hash t -> no_tombstone t -> no_duplicate_live_keys Eq t ->
  run Hash Eq fuel cs t = Ret t' ->
  data_model Hash t' /\ no_tombstone t' /\ no_duplicate_live_keys Eq t'.
Proof using Eq_Hash Eq_sym.
  revert t. induction cs as [|c cs IH]; intros t Hcs Hdm Hnt Hnd; cbn [run].
  - intros [= <-]. auto.
  - intros H. apply obind_Ret in H as (t1 & H1 & H).
    cbn [forallb] in Hcs. apply andb_true_iff in Hcs as [Hc Hcs].
    apply negb_true_iff in Hc.
    destruct (run_call_no_erasure _ _ _ _ Hc Hdm Hnt Hnd H1) as (Hdm1 & Hnt1 & Hnd1).
    apply (IH t1); auto.
Qed.

Lemma run_no_erasure_deletedCount (fuel : nat) (cs : list (call K V))
    (t t' : HashMap K V) :
  forallb (fun c => negb (erases c)) cs = true -> deletedCount_ t = 0 ->
  run Hash Eq fuel cs t = Ret t' -> deletedCount_ t' = 0.
Proof using Type.
  revert t. induction cs as [|c cs IH]; intros t Hcs H0; cbn [run].
  - intros [= <-]. exact H0.
  - intros H. apply obind_Ret in H as (t1 & H1 & H).
    cbn [forallb] in Hcs. apply andb_true_iff in Hcs as [Hc Hcs].
    apply negb_true_iff in Hc. apply (IH t1); auto.
    eapply run_call_no_erasure_deletedCount; eauto.
Qed.

End NoErasure.

(** * The metadata bytes and the walks that stop *)

Section Bytes.

Context {K V : Type}.
Variable Hash : K -> N.
Variable Eq : K -> K -> bool.

Lemma metadata_bytes_new (c : N) : metadata_bytes (HashMap_new (K:=K) (V:=V) c).
Proof.
  intros j m Hm. unfold HashMap_new in Hm. cbn [metadata_] in Hm.
  apply lookup_replicate in Hm as [-> _]. auto.
Qed.

Lemma metadata_bytes_update (t t' : HashMap K V) (p : nat) (m : detail.metadata_t) :
  metadata_bytes t ->
  m < 128 \/ m = detail.Empty \/ m = detail.Deleted ->
  metadata_ t' = <[p := m]> (metadata_ t) ->
  metadata_bytes t'.
Proof.
  intros Hb Hm E j m' Hj. rewrite E in Hj.
  destruct (decide (p = j)) as [<-|Hne].
  - apply list_lookup_insert_Some in Hj as [(_ & <- & _)|[? _]]; [exact Hm|contradiction].
  - rewrite list_lookup_insert_ne in Hj by assumption. eapply Hb; eauto.
Qed.

Lemma insertUnchecked_metadata_bytes (fuel : nat) (s : Slot K V) (t t' : HashMap K V)
    (r : option N) :
  metadata_bytes t ->
  insertUnchecked Hash Eq fuel s t = Ret (r, t') -> metadata_bytes t'.
Proof.
  intros Hb H. apply insertUnchecked_Ret in H as [_ [(_ & -> & _)|H]]; [exact Hb|].
  destruct H as (p & m & c & _ & -> & _).
  apply (metadata_bytes_update t _ (N.to_nat p) (detail.H2 (Hash (key s))) Hb);
    [left; apply H2_lt|reflexivity].
Qed.

Lemma move_slots_metadata_bytes (fuel : nat) (old : HashMap K V) (n : nat) (i : N)
    (newTable newTable' : HashMap K V) :
  metadata_bytes newTable ->
  move_slots Hash Eq fuel old n i newTable = Ret newTable' ->
  metadata_bytes newTable'.
Proof.
  revert i newTable. induction n as [|n IH]; intros i nt Hb; cbn [move_slots].
  - intros [= <-]. exact Hb.
  - intros H. apply obind_Ret in H as (m & _ & H).
    apply obind_Ret in H as (nt1 & Hnt1 & H). apply (IH (i + 1) nt1); [|exact H].
    destruct (negb (detail.IsFree m)); [|injection Hnt1 as <-; exact Hb].
    apply obind_Ret in Hnt1 as (s & _ & Hnt1).
    apply obind_Ret in Hnt1 as ([r t1] & Hins & Hnt1). injection Hnt1 as <-.
    eapply insertUnchecked_metadata_bytes; eauto.
Qed.

Lemma growAndRehash_to_metadata_bytes (fuel : nat) (n : N) (t t' : HashMap K V) :
  metadata_bytes t ->
  growAndRehash_to Hash Eq fuel n t = Ret t' -> metadata_bytes t'.
Proof.
  intros Hb H. unfold growAndRehash_to in H.
  destruct (n <=? capacity_ t); [injection H as <-; exact Hb|].
  apply obind_Ret in H as (nt & Hnt & H). injection H as <-.
  change (metadata_bytes nt). destruct (negb (empty t)).
  - eapply move_slots_metadata_bytes; [apply metadata_bytes_new|exact Hnt].
  - injection Hnt as <-. apply metadata_bytes_new.
Qed.

Lemma rehashEverything_metadata_bytes (fuel : nat) (t t' : HashMap K V) :
  metadata_bytes t ->
  rehashEverything Hash Eq fuel t = Ret t' -> metadata_bytes t'.
Proof.
  intros Hb H. unfold rehashEverything in H.
  destruct (empty t); [injection H as <-; exact Hb|].
  apply obind_Ret in H as (nt & Hnt & H). injection H as <-.
  change (metadata_bytes nt).
  eapply move_slots_metadata_bytes; [apply metadata_bytes_new|exact Hnt].
Qed.

Lemma run_call_metadata_bytes (fuel : nat) (c : call K V) (t t' : HashMap K V) :
  metadata_bytes t -> run_call Hash Eq fuel c t = Ret t' -> metadata_bytes t'.
Proof.
  intros Hb H.
  assert (Herase : forall (it : iterator) (b : bool) (t1 : HashMap K V),
             erase_it Hash Eq fuel it t = Ret (b, t1) -> metadata_bytes t1).
  { intros it b t1 H1.
    apply erase_it_Ret in H1 as [(_ & _ & ->)|(_ & _ & _ & _ & _ & _ & H1)];
      [exact Hb|].
    assert (Hb2 : metadata_bytes (tombstoned t it)).
    { apply (metadata_bytes_update t _ (N.to_nat it) detail.Deleted Hb); auto. }
    destruct H1 as [[_ ->]|[_ H1]]; [exact Hb2|].
    eapply rehashEverything_metadata_bytes; eauto. }
  destruct c as [kv|k|it| |n]; cbn [run_call] in H.
  - apply obind_Ret in H as ([r t2] & H & E). injection E as <-. cbn [snd].
    unfold insert in H. apply obind_Ret in H as (t1 & Ht1 & H).
    apply obind_Ret in H as ([r1 t3] & Hins & H). injection H as _ <-.
    eapply insertUnchecked_metadata_bytes; [|exact Hins].
    destruct (needToGrowForInsert t); [|injection Ht1 as <-; exact Hb].
    unfold growAndRehash in Ht1. eapply growAndRehash_to_metadata_bytes; eauto.
  - apply obind_Ret in H as ([r t2] & H & E). injection E as <-. cbn [snd].
    unfold erase in H. apply obind_Ret in H as (it & _ & H). eapply Herase; eauto.
  - apply obind_Ret in H as ([r t2] & H & E). injection E as <-. cbn [snd].
    eapply Herase; eauto.
  - unfold clear in H. destruct (empty t); [injection H as <-; exact Hb|].
    apply obind_Ret in H as ([md sl] & Hloop & H). injection H as <-.
    pose proof (clear_loop_metadata _ _ _ _ _ _ Hloop) as [_ Hmd].
    intros j m Hj. cbn [metadata_ fst] in Hj. rewrite Hmd in Hj.
    destruct (decide _); [injection Hj as <-; auto|]. eapply Hb; eauto.
  - unfold reserve in H. destruct (wrap n <=? capacity_ t); [injection H as <-; exact Hb|].
    eapply growAndRehash_to_metadata_bytes; eauto.
Qed.

Lemma reachable_metadata_bytes (t : HashMap K V) :
  reachable Hash Eq t -> metadata_bytes t.
Proof.
  intros (c & cs & fuel & _ & Hrun).
  assert (Hb : metadata_bytes (HashMap_new (K:=K) (V:=V) c)) by apply metadata_bytes_new.
  revert Hrun Hb. generalize (HashMap_new (K:=K) (V:=V) c) as t0.
  induction cs as [|c0 cs IH]; intros t0; cbn [run].
  - intros [= <-] Hb. exact Hb.
  - intros H Hb. apply obind_Ret in H as (t1 & H1 & H).
    apply (IH t1 H). eapply run_call_metadata_bytes; eauto.
Qed.

(** The bytes of a metadata array are live, tombstones or [Empty]. *)
Lemma metadata_count (md : list detail.metadata_t) :
  (forall (j : nat) (m : detail.metadata_t),
     md !! j = Some m -> m < 128 \/ m = detail.Empty \/ m = detail.Deleted) ->
  length md
  = (length (filter (fun m => detail.IsFree m = false) md)
     + length (filter (fun m => m = detail.Deleted) md)
     + length (filter (fun m => m = detail.Empty) md))%nat.
Proof.
  induction md as [|x md IH]; intros H; [reflexivity|].
  rewrite !filter_cons. cbn [length].
  rewrite IH by (intros j m Hj; apply (H (S j) m Hj)).
  destruct (H 0%nat x eq_refl) as [Hx | [-> | ->]].
  - assert (Hf : detail.IsFree x = false) by (apply N.leb_gt; exact Hx).
    destruct (decide (detail.IsFree x = false)); [|contradiction].
    destruct (decide (x = detail.Deleted)) as [->|_]; [discriminate|].
    destruct (decide (x = detail.Empty)) as [->|_]; [discriminate|].
    cbn [length]. lia.
  - destruct (decide (detail.IsFree detail.Empty = false)); [discriminate|].
    destruct (decide (detail.Empty = detail.Deleted)); [discriminate|].
    destruct (decide (detail.Empty = detail.Empty)); [|contradiction].
    cbn [length]. lia.
  - destruct (decide (detail.IsFree detail.Deleted = false)); [discriminate|].
    destruct (decide (detail.Deleted = detail.Deleted)); [|contradiction].
    destruct (decide (detail.Deleted = detail.Empty)); [discriminate|].
    cbn [length]. lia.
Qed.




End Bytes.

(** ** The growth test on capacities that are powers of two *)

Section LoadFactor.

Local Open Scope Z_scope.

(** Dividing a normal number by a power of two is exact. *)
Lemma fdiv_pow2_normal (m : positive) (e k : Z) :
  normal24 m e -> -23 <= e <= 0 -> 0 <= k <= 23 ->
  fdiv (S754_finite false m e) (S754_finite false 8388608 (k - 23))
  = S754_finite false m (e - k).
Proof.
  intros [Hd He] Hlo Hk. unfold fdiv, SFdiv, SFdiv_core_binary. cbn [xorb].
  rewrite Hd. change (Zdigits2 (Zpos 8388608)) with 24.
  assert (Hmin : Z.min (fexp prec emax (24 + e - (24 + (k - 23)))) (e - (k - 23))
                 = e - k - 1) by (unfold fexp, SpecFloat.emin, prec, emax; lia).
  rewrite Hmin. replace (e - (k - 23) - (e - k - 1)) with 24 by lia.
  assert (Hdiv : Z.div_eucl (Z.shiftl (Zpos m) 24) (Zpos 8388608) = (Zpos m~0, 0)).
  { rewrite Z.shiftl_mul_pow2 by lia.
    pose proof (Z.div_eucl_eq (Zpos m * 2 ^ 24) (Zpos 8388608) ltac:(lia)) as Heq.
    pose proof (Z.mod_pos_bound (Zpos m * 2 ^ 24) (Zpos 8388608) ltac:(lia)) as Hb.
    unfold Z.modulo in Hb.
    destruct (Z.div_eucl (Zpos m * 2 ^ 24) (Zpos 8388608)) as [q r].
    change (2 ^ 24) with 16777216 in Heq.
    assert (q = Zpos m~0 /\ r = 0) as [-> ->] by lia. reflexivity. }
  rewrite Hdiv. change (new_location (Zpos 8388608) 0) with loc_Exact.
  unfold binary_round_aux.
  assert (Hd' : Zdigits2 (Zpos m~0) = 25).
  { rewrite Zdigits2_log2 in *. rewrite Pos2Z.inj_xO, Z.mul_comm.
    change 2 with (2 ^ 1) at 1. rewrite Z.log2_mul_pow2 by lia. lia. }
  assert (Hshift : shr_fexp prec emax (Zpos m~0) (e - k - 1) loc_Exact
                   = (shr_record_of_loc (Zpos m) loc_Exact, e - k)).
  { unfold shr_fexp. rewrite Hd'. unfold fexp, SpecFloat.emin, prec, emax.
    replace (Z.max (25 + (e - k - 1) - 24) (3 - 128 - 24) - (e - k - 1)) with 1 by lia.
    unfold shr. cbn. f_equal. lia. }
  rewrite Hshift.
  cbn [shr_record_of_loc shr_m loc_of_shr_record round_nearest_even].
  apply round_normal. split; [exact Hd|lia].
Qed.

Lemma float_of_size_pow2 (k : N) :
  (k <= 23)%N ->
  float_of_size (2 ^ k) = S754_finite false 8388608 (Z.of_N k - 23).
Proof.
  intros Hk.
  assert (Hlt : (0 < 2 ^ k < 2 ^ 24)%N).
  { split; [apply N.neq_0_lt_0, N.pow_nonzero; discriminate|].
    apply N.pow_lt_mono_r; lia. }
  destruct (float_of_size_exact (2 ^ k) Hlt) as (m & e & -> & Hn & He & Hm).
  pose proof (normal24_bounds m e Hn) as Hb.
  rewrite N2Z.inj_pow in Hm. change (Z.of_N 2) with 2 in Hm.
  rewrite <- Z.pow_add_r in Hm by lia.
  assert (Hke : Z.of_N k + - e = 23).
  { destruct (Z.lt_trichotomy (Z.of_N k + - e) 23) as [H|[H|H]]; [|exact H|].
    - assert (2 ^ (Z.of_N k + - e) <= 2 ^ 22) by (apply Z.pow_le_mono_r; lia).
      change (2 ^ 23) with (2 * 2 ^ 22) in Hb. lia.
    - assert (2 ^ 24 <= 2 ^ (Z.of_N k + - e)) by (apply Z.pow_le_mono_r; lia). lia. }
  rewrite Hke in Hm. change (2 ^ 23) with (Zpos 8388608) in Hm.
  injection Hm as ->. f_equal. lia.
Qed.

(** On numbers that are not NaN, [>=] is the negation of [<]. *)
Lemma fge_negb_flt (x y : float) :
  x <> S754_nan -> y <> S754_nan -> fge x y = negb (flt x y).
Proof.
  intros Hx Hy. unfold fge, flt, SFleb, SFltb.
  destruct (SFcompare y x) as [c|] eqn:Hc.
  - rewrite (SFcompare_antisym x y c Hc). destruct c; reflexivity.
  - destruct x, y; simpl in Hc; try discriminate; congruence.
Qed.

(** With a capacity [2^k] and fewer than [2^24] slots the comparison of
    the load factor with [0.875] is the comparison of the integers. *)
Lemma load_factor_test_exact (s k : N) :
  (s < 2 ^ 24)%N -> (k <= 23)%N ->
  fge (fdiv (float_of_size s) (float_of_size (2 ^ k))) MaxLoadFactor
  = (7 * 2 ^ k <=? 8 * s)%N.
Proof.
  intros Hs Hk. rewrite (float_of_size_pow2 k Hk).
  assert (Hpos : (0 < 2 ^ k)%N) by (apply N.neq_0_lt_0, N.pow_nonzero; discriminate).
  destruct (N.eq_dec s 0%N) as [->|Hs0].
  - cbn. symmetry. apply N.leb_gt. lia.
  - destruct (float_of_size_exact s ltac:(lia)) as (m & e & -> & Hn & He & Hm).
    rewrite (fdiv_pow2_normal m e (Z.of_N k) Hn He ltac:(lia)).
    rewrite fge_negb_flt by discriminate.
    assert (Hmax : normal24 14680064 (-24)) by (split; [reflexivity|lia]).
    assert (Hres : normal24 m (e - Z.of_N k)) by (destruct Hn; split; [assumption|lia]).
    pose proof (flt_normal m 14680064 (e - Z.of_N k) (-24) (-47) Hres Hmax
                  ltac:(lia) ltac:(lia)) as Hflt.
    unfold MaxLoadFactor.
    assert (Hval : Zpos m * 2 ^ (e - Z.of_N k - -47) < 14680064 * 2 ^ (-24 - -47)
                   <-> (8 * s < 7 * 2 ^ k)%N).
    { rewrite Hm.
      replace (e - Z.of_N k - -47) with ((47 - Z.of_N k + e)) by lia.
      rewrite <- Z.mul_assoc, <- Z.pow_add_r by lia.
      replace (- e + (47 - Z.of_N k + e)) with (47 - Z.of_N k) by lia.
      change (-24 - -47) with 23. change 14680064 with (7 * 2 ^ 21).
      rewrite <- Z.mul_assoc, <- Z.pow_add_r by lia. change (21 + 23) with 44.
      assert (Hsplit : 2 ^ 47 = 2 ^ (47 - Z.of_N k) * 2 ^ Z.of_N k).
      { rewrite <- Z.pow_add_r by lia. f_equal. lia. }
      assert (Hp : 0 < 2 ^ (47 - Z.of_N k)) by (apply Z.pow_pos_nonneg; lia).
      assert (HkZ : Z.of_N (2 ^ k) = 2 ^ Z.of_N k) by (rewrite N2Z.inj_pow; reflexivity).
      change (2 ^ 44) with (2 ^ 47 / 8). 
      split; intros H.
      - assert (8 * Z.of_N s < 7 * 2 ^ Z.of_N k); [|lia].
        change (2 ^ 47 / 8) with 17592186044416 in H.
        change (2 ^ 47) with 140737488355328 in Hsplit. nia.
      - assert (8 * Z.of_N s < 7 * 2 ^ Z.of_N k) by lia.
        change (2 ^ 47 / 8) with 17592186044416.
        change (2 ^ 47) with 140737488355328 in Hsplit. nia. }
    destruct (N.leb_spec (7 * 2 ^ k) (8 * s)) as [Hle|Hgt].
    + apply negb_true_iff. apply not_true_is_false. intros E.
      apply Hflt in E. apply Hval in E. lia.
    + apply negb_false_iff. apply Hflt. apply Hval. exact Hgt.
Qed.

End LoadFactor.

(** * The load factor on capacities that are powers of two *)

Section LoadBound.

Context {K V : Type}.
Variable Hash : K -> N.
Variable Eq : K -> K -> bool.

Lemma needToGrowForInsert_exact (t : HashMap K V) (k : N) :
  capacity_ t = 2 ^ k -> k <= 23 -> size_ t < 2 ^ 24 ->
  needToGrowForInsert t
  = (7 * 2 ^ k <=? 8 * size_ t) || (size_ t =? capacity_ t).
Proof.
  intros Hc Hk Hs. unfold needToGrowForInsert, loadFactor. rewrite Hc.
  rewrite (load_factor_test_exact (size_ t) k Hs Hk). reflexivity.
Qed.

(** The rehashing loop places at most the live slots of the old table. *)
Lemma move_slots_live_count (fuel : nat) (old : HashMap K V) (n : nat) (i : N)
    (newTable newTable' : HashMap K V) :
  move_slots Hash Eq fuel old n i newTable = Ret newTable' ->
  (live_count newTable'
   <= live_count newTable
      + length (filter (fun m => detail.IsFree m = false)
                  (take n (drop (N.to_nat i) (metadata_ old)))))%nat.
Proof.
  revert i newTable. induction n as [|n IH]; intros i nt; cbn [move_slots].
  - intros [= <-]. lia.
  - intros H. apply obind_Ret in H as (m & Hm & H).
    apply obind_Ret in H as (nt1 & Hnt1 & H). apply IH in H.
    unfold meta_get in Hm.
    destruct (metadata_ old !! N.to_nat i) as [m0|] eqn:Hmi; [|discriminate].
    injection Hm as ->.
    rewrite (drop_S _ _ _ Hmi). cbn [take]. rewrite filter_cons.
    replace (N.to_nat (i + 1)) with (S (N.to_nat i)) in H by lia.
    destruct (detail.IsFree m) eqn:Hfree; cbn [negb] in Hnt1.
    + injection Hnt1 as <-.
      destruct (decide (true = false)) as [E|_]; [discriminate|]. lia.
    + apply obind_Ret in Hnt1 as (s & _ & Hnt1).
      apply obind_Ret in Hnt1 as ([r t1] & Hins & Hnt1). injection Hnt1 as <-.
      destruct (decide (false = false)) as [_|E]; [|congruence]. cbn [length snd] in *.
      apply insertUnchecked_Ret in Hins as [_ [(_ & -> & _)|Hins]]; [lia|].
      destruct Hins as (p & mp & c & _ & -> & _ & Hmp & Hfp & _).
      rewrite (live_count_placed Hash nt p s mp Hmp Hfp) in H. lia.
Qed.

Lemma live_count_new (c : N) : live_count (HashMap_new (K:=K) (V:=V) c) = 0%nat.
Proof.
  unfold live_count, HashMap_new. cbn [metadata_]. apply live_count_all_free.
  intros j m Hm. apply lookup_replicate in Hm as [-> _]. reflexivity.
Qed.

Lemma growAndRehash_to_size (fuel : nat) (n : N) (t t' : HashMap K V) :
  data_model Hash t -> n < size_t_modulus ->
  growAndRehash_to Hash Eq fuel n t = Ret t' -> size_ t' <= size_ t.
Proof.
  intros Hdm Hn H.
  pose proof (growAndRehash_to_data_model Hash Eq _ _ _ _ Hdm Hn H) as (_ & _ & Hc').
  unfold growAndRehash_to in H.
  destruct (n <=? capacity_ t); [injection H as <-; lia|].
  apply obind_Ret in H as (nt & Hnt & H). injection H as <-.
  change (counted nt) in Hc'. cbn [move fst size_].
  destruct Hdm as ((_ & Hlen & _) & _ & Hc). unfold counted in *.
  destruct (negb (empty t)).
  - apply move_slots_live_count in Hnt. rewrite live_count_new in Hnt.
    change (N.to_nat 0) with 0%nat in Hnt.
    rewrite drop_0, <- Hlen, firstn_all in Hnt. fold (live_count t) in Hnt. lia.
  - injection Hnt as <-. cbn [HashMap_new size_]. lia.
Qed.

Lemma rehashEverything_size (fuel : nat) (t t' : HashMap K V) :
  data_model Hash t ->
  rehashEverything Hash Eq fuel t = Ret t' -> size_ t' <= size_ t.
Proof.
  intros Hdm H.
  pose proof (rehashEverything_data_model Hash Eq _ _ _ Hdm H) as (_ & _ & Hc').
  unfold rehashEverything in H. destruct (empty t); [injection H as <-; lia|].
  apply obind_Ret in H as (nt & Hnt & H). injection H as <-.
  change (counted nt) in Hc'. cbn [move fst size_].
  destruct Hdm as ((_ & Hlen & _) & _ & Hc). unfold counted in *.
  apply move_slots_live_count in Hnt. rewrite live_count_new in Hnt.
  change (N.to_nat 0) with 0%nat in Hnt.
  rewrite drop_0, <- Hlen, firstn_all in Hnt. fold (live_count t) in Hnt. lia.
Qed.

Lemma erase_it_size (fuel : nat) (it : iterator) (t t' : HashMap K V) (b : bool) :
  data_model Hash t ->
  erase_it Hash Eq fuel it t = Ret (b, t') -> size_ t' <= size_ t.
Proof.
  intros Hdm H.
  apply erase_it_Ret in H as [(_ & _ & ->)|(_ & _ & _ & Hlen & _ & [s Hs] & H)]; [lia|].
  pose proof (tombstoned_data_model Hash t it s Hdm Hlen Hs) as Hdm2.
  assert (Hsz : size_ (tombstoned t it) <= size_ t).
  { destruct (lookup_lt_is_Some_2 _ _ Hlen) as [m Hm].
    assert (Hlive : detail.IsFree m = false).
    { destruct (detail.IsFree m) eqn:E; [|reflexivity].
      destruct Hdm as (_ & Htidy & _). rewrite (Htidy _ _ Hm E) in Hs. discriminate. }
    destruct Hdm as (_ & _ & Hc). destruct Hdm2 as (_ & _ & Hc2).
    unfold counted in *. rewrite Hc, Hc2.
    rewrite <- (live_count_tombstoned t it m Hm Hlive). lia. }
  destruct H as [[_ ->]|[_ H]]; [exact Hsz|].
  apply (rehashEverything_size _ _ _ Hdm2) in H. lia.
Qed.

(** What the calls other than [reserve] keep, from a capacity [2^k] with
    [3 <= k] and as long as the capacity stays at most [2^23]. *)
Lemma run_call_load_bound (fuel : nat) (c : call K V) (t t' : HashMap K V) (k : N) :
  reserves c = false ->
  data_model Hash t -> 3 <= k -> capacity_ t = 2 ^ k ->
  8 * size_ t <= 7 * capacity_ t ->
  run_call Hash Eq fuel c t = Ret t' -> capacity_ t' <= 2 ^ 23 ->
  exists k' : N,
    k <= k' /\ capacity_ t' = 2 ^ k' /\ 8 * size_ t' <= 7 * capacity_ t'.
Proof.
  intros Hc Hdm Hk Hcap Hload H Htop.
  assert (Hle : capacity_ t <= capacity_ t').
  { apply (run_capacity Hash Eq fuel [c] t t'). cbn [run]. rewrite H. reflexivity. }
  assert (Hk23 : k <= 23).
  { apply (N.pow_le_mono_r_iff 2); [lia|]. rewrite <- Hcap. lia. }
  assert (H8 : 2 ^ k = 8 * 2 ^ (k - 3)).
  { change 8 with (2 ^ 3). rewrite <- N.pow_add_r. f_equal. lia. }
  assert (Hpos : 0 < 2 ^ (k - 3)) by (apply N.neq_0_lt_0, N.pow_nonzero; discriminate).
  assert (Hsz24 : size_ t < 2 ^ 24).
  { change (2 ^ 24) with (2 * 2 ^ 23). lia. }
  destruct c as [kv|key|it| |n]; cbn [reserves] in Hc; try discriminate;
    cbn [run_call] in H.
  - apply obind_Ret in H as ([r t2] & H & E). injection E as <-. cbn [snd] in *.
    unfold insert in H. apply obind_Ret in H as (t1 & Ht1 & H).
    apply obind_Ret in H as ([r1 t3] & Hins & H). injection H as _ <-.
    destruct (insertUnchecked_capacity Hash Eq _ _ _ _ _ Hins) as [Hc3 Hs3].
    rewrite (needToGrowForInsert_exact t k Hcap Hk23 Hsz24) in Ht1.
    destruct (N.leb_spec (7 * 2 ^ k) (8 * size_ t)) as [Hfull|Hroom]; cbn [orb] in Ht1.
    + unfold growAndRehash in Ht1. cbv zeta in Ht1.
      destruct (N.eqb_spec (capacity_ t) 0) as [?|_]; [lia|].
      assert (Hw : wrap (capacity_ t * 2) = 2 ^ (k + 1)).
      { unfold wrap. rewrite Hcap, N.add_1_r, N.pow_succ_r'.
        rewrite N.mod_small; [lia|]. unfold size_t_modulus.
        change (2 ^ 64) with (2 ^ 41 * 2 ^ 23). lia. }
      rewrite Hw in Ht1.
      assert (Hn : 2 ^ (k + 1) < size_t_modulus) by (rewrite <- Hw; apply wrap_lt).
      pose proof (growAndRehash_to_size fuel _ t t1 Hdm Hn Ht1) as Hs1.
      destruct (growAndRehash_to_grown Hash Eq _ _ _ _ Ht1) as (Hc1 & _).
      { rewrite Hcap, N.add_1_r, N.pow_succ_r'. lia. }
      exists (k + 1). split; [lia|]. split; [congruence|].
      rewrite Hc3, Hc1, N.add_1_r, N.pow_succ_r'. lia.
    + destruct (N.eqb_spec (size_ t) (capacity_ t)) as [?|_]; [lia|].
      injection Ht1 as <-. exists k. split; [lia|]. split; [congruence|].
      rewrite Hc3, Hcap. lia.
  - apply obind_Ret in H as ([r t2] & H & E). injection E as <-. cbn [snd] in *.
    unfold erase in H. apply obind_Ret in H as (it & _ & H).
    pose proof (erase_it_size _ _ _ _ _ Hdm H) as Hs.
    apply erase_it_capacity in H. exists k. split; [lia|]. split; [congruence|].
    rewrite H. lia.
  - apply obind_Ret in H as ([r t2] & H & E). injection E as <-. cbn [snd] in *.
    pose proof (erase_it_size _ _ _ _ _ Hdm H) as Hs.
    apply erase_it_capacity in H. exists k. split; [lia|]. split; [congruence|].
    rewrite H. lia.
  - exists k. split; [lia|]. unfold clear in H.
    destruct (empty t); [injection H as <-; auto|].
    apply obind_Ret in H as (r & _ & H). injection H as <-. cbn [capacity_ size_].
    split; [exact Hcap|lia].
Qed.

Lemma run_load_bound (fuel : nat) (cs : list (call K V)) (t t' : HashMap K V) (k : N) :
  forallb (fun c => negb (reserves c)) cs = true ->
  data_model Hash t -> 3 <= k -> capacity_ t = 2 ^ k ->
  8 * size_ t <= 7 * capacity_ t ->
  run Hash Eq fuel cs t = Ret t' -> capacity_ t' <= 2 ^ 23 ->
  exists k' : N,
    k <= k' /\ capacity_ t' = 2 ^ k' /\ 8 * size_ t' <= 7 * capacity_ t'.
Proof.
  revert t k. induction cs as [|c cs IH]; intros t k Hcs Hdm Hk Hcap Hload; cbn [run].
  - intros [= <-] _. exists k. split; [lia|auto].
  - intros H Htop. apply obind_Ret in H as (t1 & H1 & H).
    cbn [forallb] in Hcs. apply andb_true_iff in Hcs as [Hc Hcs].
    apply negb_true_iff in Hc.
    pose proof (run_capacity Hash Eq fuel cs t1 t' H) as Hle.
    destruct (run_call_load_bound fuel c t t1 k Hc Hdm Hk Hcap Hload H1 ltac:(lia))
      as (k1 & Hk1 & Hc1 & Hl1).
    pose proof (run_call_data_model Hash Eq _ _ _ _ Hdm H1) as Hdm1.
    destruct (IH t1 k1 Hcs Hdm1 ltac:(lia) Hc1 Hl1 H Htop) as (k' & Hk' & Hc' & Hl').
    exists k'. split; [lia|auto].
Qed.



End LoadBound.

Section GrowthTests.

Context {K V : Type}.

Lemma fdiv_size_pow2_not_nan (s k : N) :
  s < 2 ^ 24 -> k <= 23 ->
  fdiv (float_of_size s) (float_of_size (2 ^ k)) <> S754_nan.
Proof.
  intros Hs Hk. rewrite (float_of_size_pow2 k Hk).
  destruct (N.eq_dec s 0) as [->|Hs0]; [discriminate|].
  destruct (float_of_size_exact s ltac:(lia)) as (m & e & -> & Hn & He & _).
  rewrite (fdiv_pow2_normal m e (Z.of_N k) Hn He ltac:(lia)). discriminate.
Qed.

Lemma growth_tests_exact (t : HashMap K V) (k : N) :
  capacity_ t = 2 ^ k -> k <= 23 -> size_ t + 1 < 2 ^ 24 ->
  needToGrowForInsert t
  = (7 * capacity_ t <=? 8 * size_ t) || (size_ t =? capacity_ t)
  /\ Sibling.needToGrowForInsert (size_ t) (capacity_ t)
     = (7 * capacity_ t <=? 8 * (size_ t + 1)) || (size_ t =? capacity_ t)
  /\ load_factor_bound t = (8 * size_ t <? 7 * capacity_ t).
Proof.
  intros Hc Hk Hs. split; [|split].
  - rewrite (needToGrowForInsert_exact t k Hc Hk ltac:(lia)), Hc. reflexivity.
  - unfold Sibling.needToGrowForInsert, Sibling.loadFactor_extra. rewrite Hc.
    assert (Hw : wrap (size_ t + 1) = size_ t + 1).
    { unfold wrap. apply N.mod_small. unfold size_t_modulus.
      change (2 ^ 64) with (2 ^ 40 * 2 ^ 24). lia. }
    rewrite Hw, (load_factor_test_exact (size_ t + 1) k Hs Hk). reflexivity.
  - unfold load_factor_bound, loadFactor. rewrite Hc.
    pose proof (fge_negb_flt _ MaxLoadFactor
                  (fdiv_size_pow2_not_nan (size_ t) k ltac:(lia) Hk)
                  ltac:(discriminate)) as Hneg.
    rewrite (load_factor_test_exact (size_ t) k ltac:(lia) Hk) in Hneg.
    rewrite N.ltb_antisym, Hneg, negb_involutive. reflexivity.
Qed.

End GrowthTests.

(** * The growth test of the other variant keeps the load factor strict *)

Section SiblingBound.

Context {K V : Type}.
Variable Hash : K -> N.
Variable Eq : K -> K -> bool.

Lemma sibling_insert_load_bound (fuel : nat) (kv : K * V) (t t' : HashMap K V)
    (r : option iterator) (k : N) :
  data_model Hash t -> capacity_ t = 2 ^ k -> k <= 22 ->
  8 * size_ t < 7 * capacity_ t ->
  SiblingTable.insert Hash Eq fuel kv t = Ret (r, t') ->
  8 * size_ t' < 7 * capacity_ t'
  /\ (exists k' : N, k <= k' <= k + 1 /\ capacity_ t' = 2 ^ k')
  /\ load_factor_bound t' = true.
Proof.
  intros Hdm Hcap Hk Hload H.
  assert (Hpos : 0 < 2 ^ k) by (apply N.neq_0_lt_0, N.pow_nonzero; discriminate).
  assert (Htop : 2 ^ k <= 2 ^ 22) by (apply N.pow_le_mono_r; lia).
  assert (Hbound : 8 * size_ t' < 7 * capacity_ t'
                   /\ exists k' : N, k <= k' <= k + 1 /\ capacity_ t' = 2 ^ k').
  { unfold SiblingTable.insert in H. apply obind_Ret in H as (t1 & Ht1 & H).
    apply obind_Ret in H as ([r1 t3] & Hins & H). injection H as _ <-. cbn [snd].
    destruct (insertUnchecked_capacity Hash Eq _ _ _ _ _ Hins) as [Hc3 Hs3].
    destruct (growth_tests_exact t k Hcap ltac:(lia)) as (_ & Hsib & _).
    { change (2 ^ 24) with (4 * 2 ^ 22). lia. }
    rewrite Hsib in Ht1.
    destruct (N.leb_spec (7 * capacity_ t) (8 * (size_ t + 1))) as [Hfull|Hroom];
      cbn [orb] in Ht1.
    - unfold SiblingTable.growAndRehash in Ht1. cbv zeta in Ht1.
      destruct (N.eqb_spec (capacity_ t) 0) as [?|_]; [lia|].
      assert (Hw : wrap (capacity_ t * 2) = 2 ^ (k + 1)).
      { unfold wrap. rewrite Hcap, N.add_1_r, N.pow_succ_r'.
        rewrite N.mod_small; [lia|]. unfold size_t_modulus.
        change (2 ^ 64) with (2 ^ 42 * 2 ^ 22). lia. }
      rewrite Hw in Ht1. apply obind_Ret in Ht1 as (nt & Hnt & Ht1).
      injection Ht1 as <-.
      assert (Hn : 2 ^ (k + 1) < size_t_modulus) by (rewrite <- Hw; apply wrap_lt).
      pose proof (move_slots_data_model Hash Eq _ _ _ _ _ _
                    (data_model_new Hash (2 ^ (k + 1)) Hn) Hnt) as (_ & _ & Hc1).
      pose proof (move_slots_capacity Hash Eq _ _ _ _ _ _ Hnt) as Hcap1.
      cbn [HashMap_new capacity_] in Hcap1.
      pose proof (move_slots_live_count Hash Eq _ _ _ _ _ _ Hnt) as Hlc.
      rewrite live_count_new in Hlc. change (N.to_nat 0) with 0%nat in Hlc.
      destruct Hdm as ((_ & Hlen & _) & _ & Hc).
      rewrite drop_0, <- Hlen, firstn_all in Hlc. fold (live_count t) in Hlc.
      unfold counted in *. split.
      + rewrite Hc3, Hcap1, N.add_1_r, N.pow_succ_r'. lia.
      + exists (k + 1). split; [lia|congruence].
    - destruct (N.eqb_spec (size_ t) (capacity_ t)) as [?|_]; [lia|].
      injection Ht1 as <-. split; [lia|]. exists k. split; [lia|congruence]. }
  destruct Hbound as [Hb (k' & Hk' & Hc')]. split; [exact Hb|].
  split; [exists k'; auto|].
  assert (Hpos' : 0 < 2 ^ k') by (apply N.neq_0_lt_0, N.pow_nonzero; discriminate).
  assert (Htop' : 2 ^ k' <= 2 ^ 23) by (apply N.pow_le_mono_r; lia).
  destruct (growth_tests_exact t' k' Hc' ltac:(lia)) as (_ & _ & ->).
  { change (2 ^ 24) with (2 * 2 ^ 23). lia. }
  apply N.ltb_lt. exact Hb.
Qed.

End SiblingBound.

(** * Further properties of the public member functions *)

(** [insert] makes the key findable: where it answers a position other
    than [end()] the new slot is at that position, with the value given;
    where it answers [end()] the key was there already, with some value. *)
Theorem insert_then_find
    {K V : Type} (Hash : K -> N) (Eq : K -> K -> bool)
    (fuel : nat) (k : K) (v : V) (t t' : HashMap K V) (r : option iterator) :
  Eq k k = true ->
  insert Hash Eq fuel (k, v) t = Ret (r, t') ->
  exists it : iterator,
    r = Some it
    /\ (it <> end_ t' ->
        find Hash Eq fuel k t' = Ret it /\ at_ Hash Eq fuel k t' = Ret (it, v, t'))
    /\ (it = end_ t' ->
        exists (j : iterator) (v0 : V),
          j <> end_ t' /\ find Hash Eq fuel k t' = Ret j
          /\ at_ Hash Eq fuel k t' = Ret (j, v0, t')).
Proof. apply insert_findable. Qed.

(** In every table that public calls reach, [size()] is the number of live
    cells and is at most the capacity, the live cells, the tombstones and
    the [Empty] bytes together are the capacity, no free cell holds a
    slot, and [empty()] says that no cell is live. *)
Theorem size_is_the_number_of_live_cells
    {K V : Type} (Hash : K -> N) (Eq : K -> K -> bool) (t : HashMap K V) :
  reachable Hash Eq t ->
  size t = N.of_nat (live_count t)
  /\ size t <= capacity_ t
  /\ (N.to_nat (size t) + tombstones t + empties t = N.to_nat (capacity_ t))%nat
  /\ tidy t
  /\ (empty t = true <-> forall j : nat, live t j = false).
Proof.
  intros H. pose proof (reachable_data_model Hash Eq t H) as Hdm.
  destruct (data_model_size Hash t Hdm) as (H1 & H2 & H3 & H4).
  split; [exact H1|]. split; [exact H2|]. split; [|split; assumption].
  pose proof (metadata_count (metadata_ t) (reachable_metadata_bytes Hash Eq t H))
    as Hcount.
  destruct Hdm as ((_ & Hlen & _) & _). unfold tombstones, empties.
  unfold live_count in H1. lia.
Qed.

(** Rehashing a table in which no two live keys are equal, by [reserve],
    by the growth that precedes an insertion or by the rehash that follows
    an erasure: [size()] stays, the keys stay distinct, every key found
    before is found with the same value, and a key that was absent stays
    absent. *)
Theorem rehashing_keeps_the_associations
    {K V : Type} (Hash : K -> N) (Eq : K -> K -> bool)
    (fuel : nat) (n : N) (t t' : HashMap K V) :
  reachable Hash Eq t ->
  (forall x y : K, Eq x y = true -> Hash x = Hash y) ->
  (forall x y : K, Eq x y = true -> Eq y x = true) ->
  (forall x y z : K, Eq x y = true -> Eq y z = true -> Eq x z = true) ->
  no_duplicate_live_keys Eq t ->
  n < size_t_modulus ->
  reserve Hash Eq fuel n t = Ret t'
  \/ growAndRehash Hash Eq fuel t = Ret t'
  \/ rehashEverything Hash Eq fuel t = Ret t' ->
  size t' = size t
  /\ no_duplicate_live_keys Eq t'
  /\ (forall (fuel1 fuel2 : nat) (k : K) (j : N) (v : V),
        at_ Hash Eq fuel1 k t = Ret (j, v, t) ->
        (N.to_nat (capacity_ t') <= fuel2)%nat ->
        exists j' : N,
          at_ Hash Eq fuel2 k t' = Ret (j', v, t')
          /\ find Hash Eq fuel2 k t' = Ret j' /\ j' <> end_ t')
  /\ (forall (fuel1 fuel2 : nat) (k : K) (it : iterator),
        find Hash Eq fuel1 k t = Ret (end_ t) ->
        find Hash Eq fuel2 k t' = Ret it -> it = end_ t').
Proof.
  intros Hreach HEq Hsym Htrans Hnd Hn H.
  pose proof (reachable_data_model Hash Eq t Hreach) as Hdm.
  assert (Hs : data_model Hash t' /\ no_duplicate_live_keys Eq t'
    /\ (forall (j : nat) (x : Slot K V), holds t' j x -> exists j0 : nat, holds t j0 x)
    /\ (forall (j0 : nat) (x : Slot K V), holds t j0 x -> exists j : nat, holds t' j x)
    /\ size_ t' = size_ t).
  { destruct H as [H|[H|H]].
    - unfold reserve in H. destruct (n <=? capacity_ t).
      + injection H as <-. split; [exact Hdm|]. split; [exact Hnd|]. eauto.
      + eapply growAndRehash_to_same_slots; eauto.
    - eapply growAndRehash_same_slots; eauto.
    - eapply rehashEverything_same_slots; eauto. }
  destruct Hs as (Hdm' & Hnd' & Hfrom & Hinto & Hsz).
  split; [exact Hsz|]. split; [exact Hnd'|]. split.
  - intros fuel1 fuel2 k j v Hat Hfuel.
    apply (at_same_slots Hash Eq HEq fuel1 fuel2 k t t' j v); auto.
    + apply Hdm'.
    + intros i1 i2 s1 s2. apply (no_duplicate_unique Eq Hsym Htrans t' k). exact Hnd'.
    + intros i x Hx _. apply (Hinto i x Hx).
  - intros fuel1 fuel2 k it Hf Hf'.
    apply (find_end_same_slots Hash Eq HEq fuel1 fuel2 k t t' it); auto.
    + apply Hdm.
    + intros i x Hx _. apply (Hfrom i x Hx).
Qed.

(** [insert] of one key leaves the other keys as they were, also when the
    table grows: a key found before is found with the same value, and a
    key that was absent stays absent. *)
Theorem insert_keeps_the_other_keys
    {K V : Type} (Hash : K -> N) (Eq : K -> K -> bool)
    (fuel fuel1 fuel2 : nat) (k k' : K) (v : V) (t t' : HashMap K V)
    (r : option iterator) :
  reachable Hash Eq t ->
  (forall x y : K, Eq x y = true -> Hash x = Hash y) ->
  (forall x y : K, Eq x y = true -> Eq y x = true) ->
  (forall x y z : K, Eq x y = true -> Eq y z = true -> Eq x z = true) ->
  no_duplicate_live_keys Eq t ->
  insert Hash Eq fuel (k, v) t = Ret (r, t') ->
  Eq k' k = false ->
  (forall (j : N) (v' : V),
     at_ Hash Eq fuel1 k' t = Ret (j, v', t) ->
     (N.to_nat (capacity_ t') <= fuel2)%nat ->
     exists j' : N,
       at_ Hash Eq fuel2 k' t' = Ret (j', v', t')
       /\ find Hash Eq fuel2 k' t' = Ret j' /\ j' <> end_ t')
  /\ (forall it : iterator,
        find Hash Eq fuel1 k' t = Ret (end_ t) ->
        find Hash Eq fuel2 k' t' = Ret it -> it = end_ t').
Proof.
  intros Hreach HEq Hsym Htrans Hnd Hins Hne.
  apply (insert_others Hash Eq HEq Hsym Htrans fuel fuel1 fuel2 k k' v t t' r); auto.
  apply (reachable_data_model Hash Eq). exact Hreach.
Qed.

(** [insert] of a key that [find] reports absent, into a table in which no
    two live keys are equal: a slot is placed, [size()] grows by one and
    the keys stay distinct. *)
Theorem insert_of_absent_key_adds_one_slot
    {K V : Type} (Hash : K -> N) (Eq : K -> K -> bool)
    (fuel fuel1 : nat) (k : K) (v : V) (t t' : HashMap K V) (r : option iterator) :
  reachable Hash Eq t ->
  (forall x y : K, Eq x y = true -> Hash x = Hash y) ->
  (forall x y : K, Eq x y = true -> Eq y x = true) ->
  no_duplicate_live_keys Eq t ->
  find Hash Eq fuel1 k t = Ret (end_ t) ->
  insert Hash Eq fuel (k, v) t = Ret (r, t') ->
  (exists p : iterator, r = Some p /\ p <> end_ t')
  /\ size t' = size t + 1
  /\ no_duplicate_live_keys Eq t'.
Proof.
  intros Hreach HEq Hsym Hnd Hf Hins.
  apply (insert_absent Hash Eq HEq Hsym fuel fuel1 k v t t' r); auto.
  apply (reachable_data_model Hash Eq). exact Hreach.
Qed.

(** An [insert] that answers [end()] stored nothing: the key was present,
    [size()] is unchanged, and every key has the value it had, also when
    the call made the table grow first. *)
Theorem refused_insert_changes_no_association
    {K V : Type} (Hash : K -> N) (Eq : K -> K -> bool)
    (fuel fuel1 fuel2 : nat) (k k0 : K) (v : V) (t t' : HashMap K V) :
  reachable Hash Eq t ->
  (forall x y : K, Eq x y = true -> Hash x = Hash y) ->
  (forall x y : K, Eq x y = true -> Eq y x = true) ->
  (forall x y z : K, Eq x y = true -> Eq y z = true -> Eq x z = true) ->
  no_duplicate_live_keys Eq t ->
  insert Hash Eq fuel (k, v) t = Ret (Some (end_ t'), t') ->
  size t' = size t
  /\ no_duplicate_live_keys Eq t'
  /\ key_live Eq t k
  /\ (forall (j : N) (v0 : V),
        at_ Hash Eq fuel1 k0 t = Ret (j, v0, t) ->
        (N.to_nat (capacity_ t') <= fuel2)%nat ->
        exists j' : N,
          at_ Hash Eq fuel2 k0 t' = Ret (j', v0, t')
          /\ find Hash Eq fuel2 k0 t' = Ret j' /\ j' <> end_ t')
  /\ (forall it : iterator,
        find Hash Eq fuel1 k0 t = Ret (end_ t) ->
        find Hash Eq fuel2 k0 t' = Ret it -> it = end_ t').
Proof.
  intros Hreach HEq Hsym Htrans Hnd Hins.
  apply (insert_refused Hash Eq HEq Hsym Htrans fuel fuel1 fuel2 k k0 v t t'); auto.
  apply (reachable_data_model Hash Eq). exact Hreach.
Qed.

(** [erase(key)] that answers [true], on a table in which no two live keys
    are equal: [size()] drops by one, the key is gone, and every other
    key keeps its value, also when the erasure is followed by a rehash. *)
Theorem erase_removes_the_key_and_no_other
    {K V : Type} (Hash : K -> N) (Eq : K -> K -> bool)
    (fuel fuel1 fuel2 : nat) (k k' : K) (t t' : HashMap K V) :
  reachable Hash Eq t ->
  (forall x y : K, Eq x y = true -> Hash x = Hash y) ->
  (forall x y : K, Eq x y = true -> Eq y x = true) ->
  (forall x y z : K, Eq x y = true -> Eq y z = true -> Eq x z = true) ->
  no_duplicate_live_keys Eq t ->
  erase Hash Eq fuel k t = Ret (true, t') ->
  size t' + 1 = size t
  /\ no_duplicate_live_keys Eq t'
  /\ ~ key_live Eq t' k
  /\ (forall it : iterator, find Hash Eq fuel2 k t' = Ret it -> it = end_ t')
  /\ (Eq k' k = false ->
      (forall (j : N) (v' : V),
         at_ Hash Eq fuel1 k' t = Ret (j, v', t) ->
         (N.to_nat (capacity_ t') <= fuel2)%nat ->
         exists j' : N,
           at_ Hash Eq fuel2 k' t' = Ret (j', v', t')
           /\ find Hash Eq fuel2 k' t' = Ret j' /\ j' <> end_ t')
      /\ (forall it : iterator,
            find Hash Eq fuel1 k' t = Ret (end_ t) ->
            find Hash Eq fuel2 k' t' = Ret it -> it = end_ t')).
Proof.
  intros Hreach HEq Hsym Htrans Hnd Her.
  apply (erase_key Hash Eq HEq Hsym Htrans fuel fuel1 fuel2 k k' t t'); auto.
  apply (reachable_data_model Hash Eq). exact Hreach.
Qed.



(** [clear()] returns on every reachable table: a table that is empty is
    left as it is, with its tombstones, and any other becomes the table
    that the constructor builds for the same capacity. *)
Theorem clear_gives_the_constructed_table
    {K V : Type} (Hash : K -> N) (Eq : K -> K -> bool) (t : HashMap K V) :
  reachable Hash Eq t ->
  clear t = Ret (if empty t then t else HashMap_new (capacity_ t)).
Proof.
  intros H. pose proof (reachable_data_model Hash Eq t H) as Hdm.
  destruct (empty t) eqn:He.
  - unfold clear. rewrite He. reflexivity.
  - apply (clear_fresh Hash t Hdm). unfold empty in He. apply N.eqb_neq. exact He.
Qed.



(** The control bytes: a hash is split into [H1] and [H2] without loss,
    [H2] is below 128 and never reads as free, so it is neither [Empty]
    nor [Deleted], which both read as free. *)
Theorem hash_fragments_are_never_free (hash : N) :
  hash = detail.H1 hash * 128 + detail.H2 hash
  /\ detail.H2 hash < 128
  /\ detail.IsFree (detail.H2 hash) = false
  /\ detail.IsFree detail.Empty = true
  /\ detail.IsFree detail.Deleted = true
  /\ (detail.H2 hash =? detail.Empty) = false
  /\ (detail.H2 hash =? detail.Deleted) = false.
Proof.
  pose proof (H2_lt hash) as Hlt.
  split; [apply H1_H2_split|]. split; [exact Hlt|].
  split; [apply N.leb_gt; exact Hlt|]. split; [reflexivity|]. split; [reflexivity|].
  unfold detail.Empty, detail.Deleted. split; apply N.eqb_neq; lia.
Qed.

(** [FixedUninitVec]: a write through [operator[]] is read back from the
    same cell and leaves size and the other cells; an index at or beyond
    [size()] is refused; and a vector that was moved from keeps its size
    while no cell of it can be accessed. *)
Theorem FixedUninitVec_write_then_read
    {T : Type} (v v' : FixedUninitVec T) (n : N) (c : option T) :
  cell_write v n c = Ret v' ->
  n < fsize_ v
  /\ fsize_ v' = fsize_ v
  /\ cell v' n = Ret c
  /\ (forall n' : N, n' <> n -> cell v' n' = cell v n')
  /\ (forall n' : N, fsize_ v <= n' -> cell v' n' = Undefined)
  /\ fsize_ (FixedUninitVec_moved_from v') = fsize_ v
  /\ (forall n' : N, cell (FixedUninitVec_moved_from v') n' = Undefined).
Proof.
  intros H. destruct (cell_write_cells v v' n c H) as (Hfs & Hc & Hother).
  assert (Hn : n < fsize_ v).
  { unfold cell_write, cell in H. destruct (N.ltb_spec n (fsize_ v)); [assumption|].
    discriminate. }
  split; [exact Hn|]. split; [exact Hfs|]. split; [exact Hc|].
  split; [exact Hother|]. split.
  { intros n' Hge. unfold cell. rewrite Hfs.
    destruct (N.ltb_spec n' (fsize_ v)); [lia|reflexivity]. }
  split; [exact Hfs|].
  intros n'. unfold cell, FixedUninitVec_moved_from. cbn [fsize_ data_].
  destruct (n' <? fsize_ v'); reflexivity.
Qed.

(** No sequence of [insert], [erase], [clear] and [reserve] calls makes
    the capacity smaller. *)
Theorem capacity_never_shrinks
    {K V : Type} (Hash : K -> N) (Eq : K -> K -> bool)
    (fuel : nat) (cs : list (call K V)) (t t' : HashMap K V) :
  run Hash Eq fuel cs t = Ret t' -> capacity_ t <= capacity_ t'.
Proof. apply run_capacity. Qed.

(** The hasher of the test suite sends different 32-bit keys to
    different hashes, each below [2 ^ 32]. *)
Theorem IntHasher_is_injective (y1 y2 : N) :
  y1 < 2 ^ 32 -> y2 < 2 ^ 32 -> y1 <> y2 ->
  IntHasher y1 <> IntHasher y2
  /\ IntHasher y1 < 2 ^ 32 /\ IntHasher y2 < 2 ^ 32.
Proof.
  intros H1 H2 Hne. split; [|split; apply IntHasher_lt].
  intros E. apply Hne. apply IntHasher_injective_lemma; assumption.
Qed.

(** A table built from a constructor by [insert], [clear] and [reserve]
    calls alone has no tombstone, counts none, and holds no key twice. *)
Theorem tables_built_without_erasure_keep_keys_distinct
    {K V : Type} (Hash : K -> N) (Eq : K -> K -> bool)
    (fuel : nat) (c : N) (cs : list (call K V)) (t : HashMap K V) :
  (forall x y : K, Eq x y = true -> Hash x = Hash y) ->
  (forall x y : K, Eq x y = true -> Eq y x = true) ->
  c < size_t_modulus ->
  forallb (fun call => negb (erases call)) cs = true ->
  run Hash Eq fuel cs (HashMap_new c) = Ret t ->
  no_tombstone t /\ deletedCount_ t = 0 /\ no_duplicate_live_keys Eq t.
Proof.
  intros HEq Hsym Hc Hcs Hrun.
  destruct (run_no_erasure Hash Eq HEq Hsym fuel cs (HashMap_new c) t Hcs)
    as (_ & Hnt & Hnd); auto.
  - apply data_model_new. exact Hc.
  - apply no_tombstone_new.
  - apply no_duplicate_new.
  - split; [exact Hnt|]. split; [|exact Hnd].
    apply (run_no_erasure_deletedCount Hash Eq fuel cs (HashMap_new c) t Hcs); auto.
Qed.



(** From a capacity [2^k] with [3 <= k] (the default is [2^4]), as long as
    [reserve] is not called and the capacity stays at most [2^23]: the
    capacity stays a power of two, and [size()] never exceeds seven
    eighths of it, so that no insertion fills the table. *)
Theorem load_factor_is_at_most_seven_eighths
    {K V : Type} (Hash : K -> N) (Eq : K -> K -> bool)
    (fuel : nat) (k : N) (cs : list (call K V)) (t : HashMap K V) :
  3 <= k ->
  forallb (fun c => negb (reserves c)) cs = true ->
  run Hash Eq fuel cs (HashMap_new (2 ^ k)) = Ret t ->
  capacity_ t <= 2 ^ 23 ->
  8 * size t <= 7 * capacity_ t
  /\ size t < capacity_ t
  /\ exists k' : N, k <= k' /\ capacity_ t = 2 ^ k'.
Proof.
  intros Hk Hcs Hrun Htop.
  pose proof (run_capacity Hash Eq fuel cs _ t Hrun) as Hle. cbn [HashMap_new capacity_] in Hle.
  assert (Hc : 2 ^ k < size_t_modulus).
  { unfold size_t_modulus. change (2 ^ 64) with (2 ^ 41 * 2 ^ 23). lia. }
  destruct (run_load_bound Hash Eq fuel cs (HashMap_new (2 ^ k)) t k Hcs
              (data_model_new Hash (2 ^ k) Hc) Hk eq_refl) as (k' & Hk' & Hc' & Hl);
    [cbn [HashMap_new size_ capacity_]; lia|exact Hrun|exact Htop|].
  assert (Hpos : 0 < 2 ^ k') by (apply N.neq_0_lt_0, N.pow_nonzero; discriminate).
  unfold size. split; [exact Hl|]. split; [lia|]. exists k'. auto.
Qed.


(** The two growth tests of the repository, on a capacity [2^k] and below
    [2^24] slots, where binary32 is exact: this table's test compares the
    load factor before the insertion with seven eighths, the test of the
    other [HashMap.hpp] the load factor after it. *)
Theorem growth_tests_compare_integers
    {K V : Type} (t : HashMap K V) (k : N) :
  capacity_ t = 2 ^ k -> k <= 23 -> size_ t + 1 < 2 ^ 24 ->
  needToGrowForInsert t
  = (7 * capacity_ t <=? 8 * size_ t) || (size_ t =? capacity_ t)
  /\ Sibling.needToGrowForInsert (size_ t) (capacity_ t)
     = (7 * capacity_ t <=? 8 * (size_ t + 1)) || (size_ t =? capacity_ t)
  /\ load_factor_bound t = (8 * size_ t <? 7 * capacity_ t).
Proof. apply growth_tests_exact. Qed.

(** [insert] of the other [HashMap.hpp], whose growth test counts the
    slot about to be added: on a table of capacity [2^k] whose load factor
    is below seven eighths, the insertion returns a table whose load factor
    is again strictly below seven eighths, as integers and as the binary32
    comparison [loadFactor() < MaxLoadFactor], and whose capacity is [2^k]
    or [2^(k+1)]. *)
Theorem sibling_insert_keeps_the_load_factor_below_seven_eighths
    {K V : Type} (Hash : K -> N) (Eq : K -> K -> bool)
    (fuel : nat) (kv : K * V) (t t' : HashMap K V) (r : option iterator) (k : N) :
  data_model Hash t -> capacity_ t = 2 ^ k -> k <= 22 ->
  8 * size_ t < 7 * capacity_ t ->
  SiblingTable.insert Hash Eq fuel kv t = Ret (r, t') ->
  8 * size_ t' < 7 * capacity_ t'
  /\ (exists k' : N, k <= k' <= k + 1 /\ capacity_ t' = 2 ^ k')
  /\ load_factor_bound t' = true.
Proof. apply sibling_insert_load_bound. Qed.

(** ** The further properties on the table of four keys *)

Local Open Scope string_scope.

Lemma Neqb_IdHash (x y : N) : N.eqb x y = true -> IdHash x = IdHash y.
Proof. intros H. apply N.eqb_eq in H. unfold IdHash. exact H. Qed.

Lemma Neqb_sym (x y : N) : N.eqb x y = true -> N.eqb y x = true.
Proof. intros H. rewrite N.eqb_sym. exact H. Qed.

Lemma Neqb_trans (x y z : N) : N.eqb x y = true -> N.eqb y z = true -> N.eqb x z = true.
Proof. intros H1 H2. apply N.eqb_eq in H1, H2. apply N.eqb_eq. congruence. Qed.

Lemma four_keys_table_reachable : reachable IdHash N.eqb four_keys_table.
Proof. exists 16, four_keys, 32%nat. split; vm_compute; reflexivity. Qed.

Lemma four_keys_table_unique : no_duplicate_live_keys N.eqb four_keys_table.
Proof.
  intros i j ki kj Hi Hj Hij.
  do 17 (try (destruct i as [|i])); vm_compute in Hi; try discriminate Hi;
    do 17 (try (destruct j as [|j])); vm_compute in Hj; try discriminate Hj;
    injection Hi as <-; injection Hj as <-;
    first [reflexivity|discriminate Hij].
Qed.

Lemma insert_then_find_witness :
  exists t' : HashMap N string,
    insert IdHash N.eqb 32 (9, "z") four_keys_table = Ret (Some 4, t')
    /\ find IdHash N.eqb 32 9 t' = Ret 4
    /\ at_ IdHash N.eqb 32 9 t' = Ret (4, "z", t').
Proof.
  eexists. split; [vm_compute; reflexivity|].
  match goal with
  | |- find _ _ _ _ ?t' = _ /\ _ =>
      destruct (insert_then_find IdHash N.eqb 32 9 "z" four_keys_table t' (Some 4)
                  eq_refl eq_refl) as (it & Hit & Hin & _)
  end.
  injection Hit as <-. apply Hin. discriminate.
Defined.

Lemma size_is_the_number_of_live_cells_witness :
  reachable IdHash N.eqb four_keys_table
  /\ size four_keys_table = N.of_nat (live_count four_keys_table)
  /\ size four_keys_table <= capacity_ four_keys_table
  /\ (N.to_nat (size four_keys_table) + tombstones four_keys_table
      + empties four_keys_table = N.to_nat (capacity_ four_keys_table))%nat.
Proof.
  split; [exact four_keys_table_reachable|].
  destruct (size_is_the_number_of_live_cells IdHash N.eqb four_keys_table
              four_keys_table_reachable) as (H1 & H2 & H3 & _).
  split; [exact H1|]. split; [exact H2|exact H3].
Defined.

Lemma rehashing_keeps_the_associations_witness :
  exists t' : HashMap N string,
    reserve IdHash N.eqb 32 32 four_keys_table = Ret t'
    /\ capacity_ t' = 32
    /\ size t' = size four_keys_table
    /\ no_duplicate_live_keys N.eqb t'
    /\ exists j' : N, at_ IdHash N.eqb 32 2 t' = Ret (j', "c", t').
Proof.
  eexists. split; [vm_compute; reflexivity|]. split; [reflexivity|].
  match goal with
  | |- size ?t' = _ /\ _ =>
      destruct (rehashing_keeps_the_associations IdHash N.eqb 32 32 four_keys_table t'
                  four_keys_table_reachable Neqb_IdHash Neqb_sym Neqb_trans
                  four_keys_table_unique eq_refl (or_introl eq_refl))
        as (Hsz & Hnd & Hat & _)
  end.
  split; [exact Hsz|]. split; [exact Hnd|].
  destruct (Hat 32%nat 32%nat 2 2 "c" eq_refl ltac:(vm_compute; lia)) as (j' & Hj' & _).
  exists j'. exact Hj'.
Defined.

Lemma insert_keeps_the_other_keys_witness :
  exists t' : HashMap N string,
    insert IdHash N.eqb 32 (9, "z") four_keys_table = Ret (Some 4, t')
    /\ at_ IdHash N.eqb 32 2 four_keys_table = Ret (2, "c", four_keys_table)
    /\ exists j' : N, at_ IdHash N.eqb 32 2 t' = Ret (j', "c", t').
Proof.
  eexists. split; [vm_compute; reflexivity|]. split; [reflexivity|].
  match goal with
  | |- exists j', at_ _ _ _ _ ?t' = _ =>
      destruct (insert_keeps_the_other_keys IdHash N.eqb 32 32 32 9 2 "z"
                  four_keys_table t' (Some 4)
                  four_keys_table_reachable Neqb_IdHash Neqb_sym Neqb_trans
                  four_keys_table_unique eq_refl eq_refl) as (Hat & _)
  end.
  destruct (Hat 2 "c" eq_refl ltac:(vm_compute; lia)) as (j' & Hj' & _).
  exists j'. exact Hj'.
Defined.

Lemma insert_of_absent_key_adds_one_slot_witness :
  exists t' : HashMap N string,
    find IdHash N.eqb 32 9 four_keys_table = Ret (end_ four_keys_table)
    /\ insert IdHash N.eqb 32 (9, "z") four_keys_table = Ret (Some 4, t')
    /\ size t' = size four_keys_table + 1
    /\ no_duplicate_live_keys N.eqb t'.
Proof.
  eexists. split; [reflexivity|]. split; [vm_compute; reflexivity|].
  match goal with
  | |- size ?t' = _ /\ _ =>
      destruct (insert_of_absent_key_adds_one_slot IdHash N.eqb 32 32 9 "z"
                  four_keys_table t' (Some 4)
                  four_keys_table_reachable Neqb_IdHash Neqb_sym
                  four_keys_table_unique eq_refl eq_refl) as (_ & Hsz & Hnd)
  end.
  split; assumption.
Defined.

Lemma refused_insert_changes_no_association_witness :
  insert IdHash N.eqb 32 (1, "z") four_keys_table
  = Ret (Some (end_ four_keys_table), four_keys_table)
  /\ key_live N.eqb four_keys_table 1
  /\ exists j' : N,
       at_ IdHash N.eqb 32 1 four_keys_table = Ret (j', "b", four_keys_table).
Proof.
  split; [vm_compute; reflexivity|].
  destruct (refused_insert_changes_no_association IdHash N.eqb 32 32 32 1 1 "z"
              four_keys_table four_keys_table
              four_keys_table_reachable Neqb_IdHash Neqb_sym Neqb_trans
              four_keys_table_unique eq_refl) as (_ & _ & Hlive & Hat & _).
  split; [exact Hlive|].
  destruct (Hat 1 "b" eq_refl ltac:(vm_compute; lia)) as (j' & Hj' & _).
  exists j'. exact Hj'.
Defined.

Lemma erase_removes_the_key_and_no_other_witness :
  exists t' : HashMap N string,
    erase IdHash N.eqb 32 0 four_keys_table = Ret (true, t')
    /\ size t' + 1 = size four_keys_table
    /\ find IdHash N.eqb 32 0 t' = Ret (end_ t')
    /\ exists j' : N, at_ IdHash N.eqb 32 2 t' = Ret (j', "c", t').
Proof.
  eexists. split; [vm_compute; reflexivity|].
  match goal with
  | |- size ?t' + 1 = _ /\ _ =>
      destruct (erase_removes_the_key_and_no_other IdHash N.eqb 32 32 32 0 2
                  four_keys_table t'
                  four_keys_table_reachable Neqb_IdHash Neqb_sym Neqb_trans
                  four_keys_table_unique eq_refl) as (Hsz & _ & _ & _ & Hother)
  end.
  split; [exact Hsz|]. split; [reflexivity|].
  destruct (Hother eq_refl) as [Hat _].
  destruct (Hat 2 "c" eq_refl ltac:(vm_compute; lia)) as (j' & Hj' & _).
  exists j'. exact Hj'.
Defined.



Lemma clear_gives_the_constructed_table_witness :
  reachable IdHash N.eqb four_keys_table
  /\ clear four_keys_table = Ret (HashMap_new 16).
Proof.
  split; [exact four_keys_table_reachable|].
  exact (clear_gives_the_constructed_table IdHash N.eqb four_keys_table
           four_keys_table_reachable).
Defined.



Lemma FixedUninitVec_write_then_read_witness :
  let v : FixedUninitVec string := FixedUninitVec_new 4 in
  exists v' : FixedUninitVec string,
    cell_write v 2 (Some "abc") = Ret v'
    /\ cell_read v' 2 = Ret "abc"
    /\ cell v' 3 = Ret None
    /\ cell v' 4 = Undefined
    /\ cell (FixedUninitVec_moved_from v') 2 = Undefined.
Proof.
  intros v. eexists. split; [vm_compute; reflexivity|].
  match goal with
  | |- cell_read ?v' _ = _ /\ _ =>
      destruct (FixedUninitVec_write_then_read v v' 2 (Some "abc") eq_refl)
        as (_ & _ & Hc & Hother & Hout & _ & Hmoved)
  end.
  split; [unfold cell_read; rewrite Hc; reflexivity|].
  split; [rewrite Hother; [reflexivity|discriminate]|].
  split; [apply Hout; discriminate|apply Hmoved].
Defined.

Lemma capacity_never_shrinks_witness :
  exists t' : HashMap N string,
    run IntHasher N.eqb 32 one_to_five (HashMap_new 4) = Ret t'
    /\ capacity_ (HashMap_new (K:=N) (V:=string) 4) <= capacity_ t'.
Proof.
  eexists. split; [vm_compute; reflexivity|].
  apply (capacity_never_shrinks IntHasher N.eqb 32 one_to_five). vm_compute. reflexivity.
Defined.

Lemma IntHasher_is_injective_witness :
  IntHasher 1 <> IntHasher 2 /\ IntHasher 1 < 2 ^ 32 /\ IntHasher 2 < 2 ^ 32.
Proof.
  apply (IntHasher_is_injective 1 2); [reflexivity|reflexivity|discriminate].
Defined.

Lemma tables_built_without_erasure_keep_keys_distinct_witness :
  run IdHash N.eqb 32 four_keys (HashMap_new 16) = Ret four_keys_table
  /\ no_tombstone four_keys_table
  /\ deletedCount_ four_keys_table = 0
  /\ no_duplicate_live_keys N.eqb four_keys_table.
Proof.
  split; [vm_compute; reflexivity|].
  apply (tables_built_without_erasure_keep_keys_distinct IdHash N.eqb 32 16 four_keys
           four_keys_table Neqb_IdHash Neqb_sym); [reflexivity|reflexivity|].
  vm_compute. reflexivity.
Defined.



Lemma load_factor_is_at_most_seven_eighths_witness :
  exists t : HashMap N string,
    run IdHash N.eqb 32 fourteen_keys (HashMap_new (2 ^ 4)) = Ret t
    /\ size t = 14 /\ capacity_ t = 16
    /\ 8 * size t <= 7 * capacity_ t
    /\ size t < capacity_ t.
Proof.
  eexists. split; [vm_compute; reflexivity|].
  split; [reflexivity|]. split; [reflexivity|].
  match goal with
  | |- 8 * size ?t <= _ /\ _ =>
      destruct (load_factor_is_at_most_seven_eighths IdHash N.eqb 32 4 fourteen_keys t)
        as (H1 & H2 & _)
  end.
  - discriminate.
  - reflexivity.
  - vm_compute. reflexivity.
  - discriminate.
  - split; assumption.
Defined.


Lemma growth_tests_compare_integers_witness :
  let t : HashMap N string := mkHashMap 16 13 [] (FixedUninitVec_new 0) 0 in
  needToGrowForInsert t = false
  /\ Sibling.needToGrowForInsert (size_ t) (capacity_ t) = true.
Proof.
  intros t.
  destruct (growth_tests_compare_integers t 4 eq_refl) as (H1 & H2 & _).
  - discriminate.
  - reflexivity.
  - split; [rewrite H1|rewrite H2]; reflexivity.
Defined.

Lemma sibling_insert_keeps_the_load_factor_below_seven_eighths_witness :
  exists (r : option iterator) (t' : HashMap N string),
    SiblingTable.insert IdHash N.eqb 16 (20, "e") four_keys_table = Ret (r, t')
    /\ 8 * size_ t' < 7 * capacity_ t'
    /\ load_factor_bound t' = true.
Proof.
  eexists. eexists. split; [vm_compute; reflexivity|].
  match goal with
  | |- 8 * size_ ?t' < _ /\ _ =>
      destruct (sibling_insert_keeps_the_load_factor_below_seven_eighths
                  IdHash N.eqb 16 (20, "e") four_keys_table t'
                  (Some 4) 4) as (H1 & _ & H3)
  end.
  - apply (reachable_data_model IdHash N.eqb). exact four_keys_table_reachable.
  - reflexivity.
  - discriminate.
  - vm_compute. reflexivity.
  - vm_compute. reflexivity.
  - split; assumption.
Defined.

Local Close Scope string_scope.
